(** * gerrit_python_tools.gerrit: label voting, event accessors and the
      send-upstream workflow

    A shallow embedding of [src/gerrit_python_tools/gerrit.py] (classes
    [Approval], [Label], [CommentAdded] and the helpers
    [get_labels_for_upstream]) and of the parts of
    [src/gerrit_python_tools/git.py] the workflow calls.

    Conventions.
    - Python values decoded from JSON (events, query results) are values of
      [json]; a Python [dict] is a [gmap string json].
    - A Python call that can raise returns [res A = exn + A].
    - Code that talks to the outside world (ssh, git, git-review, the file
      system) runs in the monad [M] over [World]: every external call is
      appended to a trace and answered by the next response of the
      environment. *)

From Stdlib Require Import ZArith List String Ascii Bool Lia.
From stdpp Require Import base option gmap strings list fin_maps pretty.

Open Scope string_scope.
Open Scope Z_scope.

(** ** Python values and exceptions *)

(** Values produced by [json.loads] (floating-point numbers are left out:
    no field the module reads carries one). *)
#[warnings="-register-all"]
Inductive json : Type :=
| JNull
| JBool (b : bool)
| JInt (n : Z)
| JStr (s : string)
| JList (l : list json)
| JDict (d : gmap string json).

(** The exceptions the module can meet. [CalledProcessError] carries the
    [output] attribute: [None] when raised by [subprocess.check_call],
    the captured text when raised by [subprocess.check_output].
    [UnicodeDecodeError] is what Python 2 raises when bytes that are not
    ASCII meet text. *)
Inductive exn : Type :=
| KeyError
| TypeError
| AttributeError
| IndexError
| ValueError
| UnicodeDecodeError
| UnboundLocalError
| OSError
| SSHException
| CalledProcessError (output : option string)
| Exception_ (msg : string).

Definition res (A : Type) : Type := exn + A.

Definition ok {A} (a : A) : res A := inr a.
Definition raise {A} (e : exn) : res A := inl e.

Definition rbind {A B} (r : res A) (k : A -> res B) : res B :=
  match r with
  | inl e => inl e
  | inr a => k a
  end.

Declare Scope res_scope.
Delimit Scope res_scope with res.
Notation "'let?' x ':=' r 'in' k" := (rbind r (fun x => k))
  (at level 10, x name, r at level 100, k at level 200) : res_scope.
Open Scope res_scope.

(** ** Voting: [Label] *)

Record Label : Type := mkLabel {
  Label_name : string;
  _min : Z;
  _max : Z;
  _values : list Z
}.

(** [Label.__init__]: no value recorded yet. *)
Definition Label_init (name_ : string) (min_ max_ : Z) : Label :=
  mkLabel name_ min_ max_ [].

(** Python's [min] and [max] on a list with first element [v]. *)
Definition py_min (v : Z) (vs : list Z) : Z := fold_left Z.min vs v.
Definition py_max (v : Z) (vs : list Z) : Z := fold_left Z.max vs v.

(** [Label.approved] *)
Definition approved (l : Label) : bool :=
  match _values l with
  | [] => false
  | v :: vs =>
      if py_min v vs <=? _min l then false
      else if py_max v vs >=? _max l then true
      else false
  end.

(** *** Facts on [min] and [max] *)

Lemma py_min_le_init vs : forall v, py_min v vs <= v.
Proof.
  unfold py_min. induction vs as [|w ws IH]; intros v; simpl; [lia|].
  specialize (IH (Z.min v w)). lia.
Qed.

Lemma py_min_lower vs : forall v x, x ∈ (v :: vs) -> py_min v vs <= x.
Proof.
  unfold py_min. induction vs as [|w ws IH]; intros v x Hx; simpl.
  - apply list_elem_of_singleton in Hx. subst. lia.
  - pose proof (py_min_le_init ws (Z.min v w)) as H. unfold py_min in H.
    apply elem_of_cons in Hx as [Hx|Hx]; [subst x; lia|].
    apply elem_of_cons in Hx as [Hx|Hx]; [subst x; lia|].
    apply IH. right. exact Hx.
Qed.

Lemma py_min_elem vs : forall v, py_min v vs ∈ (v :: vs).
Proof.
  unfold py_min. induction vs as [|w ws IH]; intros v; simpl.
  - left.
  - specialize (IH (Z.min v w)).
    apply elem_of_cons in IH as [Heq|Hin].
    + rewrite Heq. destruct (Z.min_spec v w) as [[_ ->]|[_ ->]];
        [left | right; left].
    + right. right. exact Hin.
Qed.

Lemma py_max_ge_init vs : forall v, v <= py_max v vs.
Proof.
  unfold py_max. induction vs as [|w ws IH]; intros v; simpl; [lia|].
  specialize (IH (Z.max v w)). lia.
Qed.

Lemma py_max_upper vs : forall v x, x ∈ (v :: vs) -> x <= py_max v vs.
Proof.
  unfold py_max. induction vs as [|w ws IH]; intros v x Hx; simpl.
  - apply list_elem_of_singleton in Hx. subst. lia.
  - pose proof (py_max_ge_init ws (Z.max v w)) as H. unfold py_max in H.
    apply elem_of_cons in Hx as [Hx|Hx]; [subst x; lia|].
    apply elem_of_cons in Hx as [Hx|Hx]; [subst x; lia|].
    apply IH. right. exact Hx.
Qed.

Lemma py_max_elem vs : forall v, py_max v vs ∈ (v :: vs).
Proof.
  unfold py_max. induction vs as [|w ws IH]; intros v; simpl.
  - left.
  - specialize (IH (Z.max v w)).
    apply elem_of_cons in IH as [Heq|Hin].
    + rewrite Heq. destruct (Z.max_spec v w) as [[_ ->]|[_ ->]];
        [right; left | left].
    + right. right. exact Hin.
Qed.

(** The decision in terms of the recorded votes: approved exactly when no
    vote is a block and some vote reaches the maximum. *)
Lemma approved_iff (l : Label) :
  approved l = true <->
  (forall v, v ∈ _values l -> _min l < v) /\
  (exists v, v ∈ _values l /\ _max l <= v).
Proof.
  unfold approved. destruct (_values l) as [|v vs] eqn:E.
  - split; [discriminate|]. intros [_ [x [Hx _]]]. inversion Hx.
  - destruct (Z.leb_spec (py_min v vs) (_min l)) as [Hlo|Hlo].
    + split; [discriminate|]. intros [Hall _].
      specialize (Hall _ (py_min_elem vs v)). lia.
    + destruct (Z.geb_spec (py_max v vs) (_max l)) as [Hhi|Hhi].
      * split; [|reflexivity]. intros _. split.
        -- intros x Hx. pose proof (py_min_lower vs v x Hx). lia.
        -- exists (py_max v vs). split; [apply py_max_elem | lia].
      * split; [discriminate|]. intros [_ [x [Hx Hmx]]].
        pose proof (py_max_upper vs v x Hx). lia.
Qed.

(** ** Python built-ins used by the module *)

(** [d[k]] on a dictionary. *)
Definition dict_getitem (d : gmap string json) (k : string) : res json :=
  match d !! k with
  | Some v => ok v
  | None => raise KeyError
  end.

(** [v[k]] with a string key [k]: only a dictionary can be indexed so. *)
Definition py_getitem (v : json) (k : string) : res json :=
  match v with
  | JDict d => dict_getitem d k
  | _ => raise TypeError
  end.

(** [v.get(k)]: [None] for a missing key; only dictionaries have [get]. *)
Definition py_get (v : json) (k : string) : res json :=
  match v with
  | JDict d => ok (default JNull (d !! k))
  | _ => raise AttributeError
  end.

(** [l[0]] on a list. *)
Definition list_getitem0 {A} (l : list A) : res A :=
  match l with
  | x :: _ => ok x
  | [] => raise IndexError
  end.

(** Truth value of a Python object ([if not v]). *)
Definition truthy (v : json) : bool :=
  match v with
  | JNull => false
  | JBool b => b
  | JInt n => negb (n =? 0)
  | JStr s => negb (String.eqb s "")
  | JList l => match l with [] => false | _ => true end
  | JDict d => negb (bool_decide (d = ∅))
  end.

(** [for x in v]: the elements of a list, the characters of a string, the
    keys of a dictionary (Python leaves their order unspecified; the model
    takes the order of [map_to_list]). *)
Definition py_iter (v : json) : res (list json) :=
  match v with
  | JList l => ok l
  | JStr s => ok (map (fun c => JStr (String c "")) (list_ascii_of_string s))
  | JDict d => ok (map (fun kv => JStr (fst kv)) (map_to_list d))
  | _ => raise TypeError
  end.

(** *** [int(v)] *)

Definition digit_of (c : ascii) : option Z :=
  let n := Z.of_nat (nat_of_ascii c) in
  if (48 <=? n) && (n <=? 57) then Some (n - 48) else None.

Fixpoint digits (acc : Z) (s : string) : option Z :=
  match s with
  | "" => Some acc
  | String c s' =>
      match digit_of c with
      | Some d => digits (10 * acc + d) s'
      | None => None
      end
  end.

Definition is_space (c : ascii) : bool :=
  let n := nat_of_ascii c in
  (Nat.eqb n 32) || ((Nat.leb 9 n) && (Nat.leb n 13)).

Fixpoint lstrip (s : string) : string :=
  match s with
  | String c s' => if is_space c then lstrip s' else s
  | "" => ""
  end.

Fixpoint rstrip (s : string) : string :=
  match s with
  | "" => ""
  | String c s' =>
      match rstrip s' with
      | "" => if is_space c then "" else String c ""
      | r => String c r
      end
  end.

Definition unsigned_int (s : string) : option Z :=
  match s with
  | "" => None
  | _ => digits 0 s
  end.

(** White space of text ([unicode]) among the code points below 256: the
    blanks of bytes, and also FS, GS, RS, US, NEL and the no-break space. *)
Definition is_text_space (c : ascii) : bool :=
  let n := nat_of_ascii c in
  is_space c || ((Nat.leb 28 n) && (Nat.leb n 31)) ||
  (Nat.eqb n 133) || (Nat.eqb n 160).

Fixpoint lstrip_text (s : string) : string :=
  match s with
  | String c s' => if is_text_space c then lstrip_text s' else s
  | "" => ""
  end.

Fixpoint rstrip_text (s : string) : string :=
  match s with
  | "" => ""
  | String c s' =>
      match rstrip_text s' with
      | "" => if is_text_space c then "" else String c ""
      | r => String c r
      end
  end.

(** [int(s)] for a text (the numbers read here come from decoded JSON):
    optional white space around an optionally signed run of decimal
    digits. *)
Definition int_of_string (s : string) : option Z :=
  match rstrip_text (lstrip_text s) with
  | String "-" r => Z.opp <$> unsigned_int r
  | String "+" r => unsigned_int r
  | r => unsigned_int r
  end.

Definition py_int (v : json) : res Z :=
  match v with
  | JInt n => ok n
  | JBool b => ok (if b then 1 else 0)
  | JStr s =>
      match int_of_string s with
      | Some n => ok n
      | None => raise ValueError
      end
  | JNull | JList _ | JDict _ => raise TypeError
  end.

(** *** Strings: [splitlines], [in], [pipes.quote] *)

Definition is_lf (c : ascii) : bool := Nat.eqb (nat_of_ascii c) 10.
Definition is_cr (c : ascii) : bool := Nat.eqb (nat_of_ascii c) 13.

(** Line boundaries of [unicode.splitlines] among the code points below
    256 (event text is decoded by [json.loads], hence unicode): LF, VT, FF,
    CR, FS, GS, RS and NEL. *)
Definition line_boundary (c : ascii) : bool :=
  let n := nat_of_ascii c in
  ((Nat.leb 10 n) && (Nat.leb n 13)) ||
  ((Nat.leb 28 n) && (Nat.leb n 30)) ||
  (Nat.eqb n 133).

(** [s.splitlines()]: the lines of [s] without their line breaks; CR LF is
    one break; a final break opens no further line. *)
Fixpoint splitlines (s : string) : list string :=
  match s with
  | "" => []
  | String c s' =>
      if is_cr c then
        match s' with
        | String c2 s'' =>
            if is_lf c2 then "" :: splitlines s'' else "" :: splitlines s'
        | "" => [""]
        end
      else if line_boundary c then "" :: splitlines s'
      else
        match splitlines s' with
        | [] => [String c ""]
        | l :: ls => String c l :: ls
        end
  end.

(** [t in s] for strings. *)
Fixpoint contains (t s : string) : bool :=
  String.prefix t s ||
  match s with
  | "" => false
  | String _ s' => contains t s'
  end.

(** [" ".join(args)] raises [TypeError] unless every item is a string;
    [str_args] gives the items as strings. *)
Fixpoint str_args (args : list json) : res (list string) :=
  match args with
  | [] => ok []
  | JStr s :: rest =>
      let? r := str_args rest in
      ok (s :: r)
  | _ :: _ => raise TypeError
  end.

(** [v.splitlines()]: only strings have the method. *)
Definition py_splitlines (v : json) : res (list string) :=
  match v with
  | JStr s => ok (splitlines s)
  | _ => raise AttributeError
  end.

(** [name == v] for a configured name (a string) and a decoded value. *)
Definition py_eq_str (name : string) (v : json) : bool :=
  match v with
  | JStr s => String.eqb name s
  | _ => false
  end.

Definition dquote : string := String (ascii_of_nat 34) "".

Definition safechar (c : ascii) : bool :=
  let n := nat_of_ascii c in
  ((Nat.leb 97 n) && (Nat.leb n 122)) ||
  ((Nat.leb 65 n) && (Nat.leb n 90)) ||
  ((Nat.leb 48 n) && (Nat.leb n 57)) ||
  existsb (Ascii.eqb c) (list_ascii_of_string "@%_-+=:,./").

Fixpoint replace_squote (s : string) : string :=
  match s with
  | "" => ""
  | String c s' =>
      if Nat.eqb (nat_of_ascii c) 39
      then "'" +:+ dquote +:+ "'" +:+ dquote +:+ "'" +:+ replace_squote s'
      else String c (replace_squote s')
  end.

(** [pipes.quote] of Python 2.7. *)
Definition quote (file : string) : string :=
  if forallb safechar (list_ascii_of_string file) then
    match file with
    | "" => "''"
    | _ => file
    end
  else "'" +:+ replace_squote file +:+ "'".

Example splitlines_two : splitlines ("Upstream-Ready+1" +:+ String (ascii_of_nat 10) "lgtm")
  = ["Upstream-Ready+1"; "lgtm"].
Proof. reflexivity. Qed.

Example splitlines_crlf :
  splitlines ("a" +:+ String (ascii_of_nat 13) (String (ascii_of_nat 10) "b")) = ["a"; "b"].
Proof. reflexivity. Qed.

Example splitlines_trailing : splitlines ("a" +:+ String (ascii_of_nat 10) "") = ["a"].
Proof. reflexivity. Qed.

Example splitlines_empty : splitlines "" = [].
Proof. reflexivity. Qed.

Example int_of_string_samples :
  int_of_string "2" = Some 2 /\ int_of_string "-1" = Some (-1) /\
  int_of_string " +12 " = Some 12 /\ int_of_string "" = None /\
  int_of_string "1x" = None /\ int_of_string "-" = None /\
  int_of_string (String (ascii_of_nat 160) "7" +:+ String (ascii_of_nat 31) "")
  = Some 7.
Proof. repeat split; reflexivity. Qed.

Example quote_samples :
  quote "abc" = "abc" /\ quote "" = "''" /\ quote "a b" = "'a b'".
Proof. repeat split; reflexivity. Qed.

(** ** Configuration and remotes

    The configuration dictionary is loaded outside this module; it is
    represented by records holding the keys the module reads. A key read
    with [get] is an optional field. *)

(** An entry of an [upstream-labels] list: [l['name']], [int(l['min'])],
    [int(l['max'])]. *)
Record LabelDict : Type := mkLabelDict {
  ld_name : string;
  ld_min : Z;
  ld_max : Z
}.

(** An entry of [conf['projects']]. *)
Record ProjectDict : Type := mkProjectDict {
  pd_name : string;
  pd_upstream : option bool;
  pd_upstream_labels : option (list LabelDict)
}.

Record Conf : Type := mkConf {
  conf_projects : list ProjectDict;              (* conf.get('projects', []) *)
  conf_upstream_labels : option (list LabelDict); (* conf.get('upstream-labels') *)
  conf_trigger : string;                          (* conf['upstream']['trigger'] *)
  conf_git_name : string;                         (* conf['git-config']['name'] *)
  conf_git_email : string                         (* conf['git-config']['email'] *)
}.

(** [Project.upstream]: [data.get('upstream', False)]. *)
Definition Project_upstream (p : ProjectDict) : bool :=
  default false (pd_upstream p).

(** [Remote]: connection data of a gerrit server, as text ([Remote.SSH()]
    converts the port and the timeout of a well-formed remote). *)
Record Remote : Type := mkRemote {
  host : string;
  port : string;
  timeout : string;
  username : string;
  key_filename : option string;
  keepalive : string
}.

(** ** [CommentAdded]: accessors of the raw event *)

Record CommentAdded : Type := mkCommentAdded {
  _data : gmap string json;
  _conf : Conf
}.

Section Accessors.
Variable self : CommentAdded.

Definition comment : json :=
  default (JStr "") (_data self !! "comment").

Definition change_id : res json :=
  let? change := dict_getitem (_data self) "change" in
  py_get change "id".

Definition patchset_id : res Z :=
  let? patchSet := dict_getitem (_data self) "patchSet" in
  let? number := py_get patchSet "number" in
  py_int number.

Definition project : res json :=
  let? change := dict_getitem (_data self) "change" in
  py_getitem change "project".

Definition branch : res json :=
  let? change := dict_getitem (_data self) "change" in
  py_getitem change "branch".

Definition topic : res json :=
  let? change := dict_getitem (_data self) "change" in
  py_getitem change "topic".

Definition revision : res json :=
  let? patchSet := dict_getitem (_data self) "patchSet" in
  py_getitem patchSet "revision".

Definition change_owner (field : string) : res json :=
  let? change := dict_getitem (_data self) "change" in
  let? owner := py_getitem change "owner" in
  py_get owner field.

Definition change_owner_username : res json := change_owner "username".
Definition change_owner_name : res json := change_owner "name".
Definition change_owner_email : res json := change_owner "email".
End Accessors.

(** A successful [project] means the change record is a dictionary, so
    [change_id] succeeds as well. *)
Lemma project_ok_change_id self p :
  project self = ok p -> exists c, change_id self = ok c.
Proof.
  unfold project, change_id, dict_getitem.
  destruct (_data self !! "change") as [ch|]; simpl; [|discriminate].
  destruct ch; simpl; try discriminate. eauto.
Qed.

(** ** [Approval] *)

(** An [Approval] wraps the decoded approval record. *)
Definition Approval : Type := json.

(** [Approval.name]: [self._data.get('type')]. *)
Definition Approval_name (a : Approval) : res json := py_get a "type".

(** [Approval.value]: [int(self._data.get('value'))]. *)
Definition Approval_value (a : Approval) : res Z :=
  let? v := py_get a "value" in
  py_int v.

(** [Label.add_approval] *)
Definition add_approval (l : Label) (a : Approval) : res Label :=
  let? value := Approval_value a in
  ok (mkLabel (Label_name l) (_min l) (_max l) (_values l ++ [value])).

(** ** [get_labels_for_upstream] *)

(** The loop over [conf['projects']]: the first entry with the project's
    name decides, [None] when it declares no labels or no entry matches. *)
Fixpoint find_label_dicts (project_name : json) (ps : list ProjectDict)
  : option (list LabelDict) :=
  match ps with
  | [] => None
  | p :: rest =>
      if py_eq_str (pd_name p) project_name then pd_upstream_labels p
      else find_label_dicts project_name rest
  end.

Definition label_dicts_for (conf : Conf) (project_name : json) : list LabelDict :=
  match find_label_dicts project_name (conf_projects conf) with
  | Some l => l
  | None => default [] (conf_upstream_labels conf)
  end.

Definition add_label_obj (label_objs : gmap string Label) (l : LabelDict)
  : gmap string Label :=
  <[ld_name l := Label_init (ld_name l) (ld_min l) (ld_max l)]> label_objs.

Definition get_labels_for_upstream (conf : Conf) (project_name : json)
  : gmap string Label :=
  fold_left add_label_obj (label_dicts_for conf project_name) ∅.

(** ** The gates of [CommentAdded] *)

(** The values of a dictionary, [d.values()]. *)
Definition dict_values {A} (d : gmap string A) : list A :=
  map snd (map_to_list d).

(** [labels.get(key)]: a key that is not a string equals no label name; a
    list or dictionary is unhashable. *)
Definition labels_get (labels : gmap string Label) (key : json)
  : res (option (string * Label)) :=
  match key with
  | JStr s => ok (pair s <$> labels !! s)
  | JList _ | JDict _ => raise TypeError
  | JNull | JBool _ | JInt _ => ok None
  end.

(** A loop whose body only evaluates something that may raise. *)
Fixpoint for_each {A} (xs : list A) (body : A -> res unit) : res unit :=
  match xs with
  | [] => ok tt
  | x :: rest =>
      let? _ := body x in
      for_each rest body
  end.

Section Gates.
Variable self : CommentAdded.

(** The search loop of [is_upstream_project]; [self.project] is read at
    every comparison. *)
Fixpoint find_project (ps : list ProjectDict) : res (option ProjectDict) :=
  match ps with
  | [] => ok None
  | p :: rest =>
      let? project_name := project self in
      if py_eq_str (pd_name p) project_name then ok (Some p)
      else find_project rest
  end.

(** The arguments of the two debug messages of [is_upstream_project]. *)
Definition debug_change_project : res unit :=
  let? _ := change_id self in
  let? _ := project self in
  ok tt.

Definition is_upstream_project : res bool :=
  let? found := find_project (conf_projects (_conf self)) in
  match found with
  | None =>
      let? _ := debug_change_project in
      ok false
  | Some p =>
      if negb (Project_upstream p) then
        let? _ := debug_change_project in
        ok false
      else ok true
  end.

Definition is_upstream_indicated : res bool :=
  let trigger := conf_trigger (_conf self) in
  let? _ := change_id self in
  let? lines := py_splitlines (comment self) in
  let? first_line := list_getitem0 lines in
  ok (contains trigger first_line).

(** The first loop of [is_upstream_approved]: route each approval to the
    label of its name. *)
Fixpoint route_approvals (labels : gmap string Label) (approvals : list Approval)
  : res (gmap string Label) :=
  match approvals with
  | [] => ok labels
  | approval :: rest =>
      let? key := Approval_name approval in
      let? found := labels_get labels key in
      match found with
      | Some (k, label) =>
          let? label' := add_approval label approval in
          route_approvals (<[k := label']> labels) rest
      | None => route_approvals labels rest
      end
  end.

Definition is_upstream_approved (approvals : list Approval) : res bool :=
  let? project_name := project self in
  let labels := get_labels_for_upstream (_conf self) project_name in
  let? labels := route_approvals labels approvals in
  let? _ := for_each (dict_values labels)
              (fun _ => let? _ := change_id self in ok tt) in
  ok (forallb approved (dict_values labels)).

End Gates.

(** ** The outside world

    External calls are recorded in a trace; the environment answers each
    of them with its next response. The file system is the set of existing
    directories and the working directory of the process; the commands that
    are run change neither. *)

Definition is_slash (c : ascii) : bool := Nat.eqb (nat_of_ascii c) 47.

Fixpoint all_slashes (s : string) : bool :=
  match s with
  | "" => true
  | String c s' => is_slash c && all_slashes s'
  end.

(** The directories above a normalised path, the farthest first: what
    stands before each of its slashes, the root apart (it always exists).
    [prefix] is what was read so far. *)
Fixpoint ancestors_from (prefix rest : string) : list string :=
  match rest with
  | "" => []
  | String c rest' =>
      (if is_slash c && negb (all_slashes prefix) then [prefix] else [])
      ++ ancestors_from (prefix +:+ String c "") rest'
  end.

Definition ancestors (path : string) : list string := ancestors_from "" path.

Inductive action : Type :=
| SshExec (remote : Remote) (cmd : string)   (* SSH.exec_once(cmd) on a remote *)
| GitCmd (args : list string)                (* git.git_cmd: subprocess.check_call *)
| CheckOutput (args : list string)           (* subprocess.check_output *)
| Makedirs (path : string)                   (* os.makedirs *)
| Chdir (path : string)                      (* os.chdir *)
| Rmtree (path : string).                    (* shutil.rmtree *)

(** What a call did: it ran and ended with an exit status and its captured
    output, or the call itself raised. *)
Inductive response : Type :=
| Exit (status : Z) (output : string)
| Fail (e : exn).

Record World : Type := mkWorld {
  responses : nat -> response;  (* answers to the external calls to come *)
  cwd : string;                 (* os.getcwd() *)
  dirs : gset string;           (* existing directories *)
  tmp_root : string;            (* os.path.abspath(os.path.expanduser('~/tmp')),
                                   taken to be an ASCII path *)
  uuid : string;                (* str(uuid4()) of this run *)
  mkdir_done : nat;             (* directories a failing os.makedirs has made
                                   when it raises *)
  trace : list action           (* calls made so far, oldest first *)
}.

Definition M (A : Type) : Type := World -> res A * World.

Definition ret {A} (a : A) : M A := fun w => (ok a, w).
Definition throw {A} (e : exn) : M A := fun w => (raise e, w).

Definition bind {A B} (m : M A) (k : A -> M B) : M B :=
  fun w =>
    match m w with
    | (inl e, w') => (inl e, w')
    | (inr a, w') => k a w'
    end.

(** A pure computation that may raise. *)
Definition lift {A} (r : res A) : M A := fun w => (r, w).

Declare Scope M_scope.
Delimit Scope M_scope with M.
Notation "'do' x '<-' m ';' k" := (bind m (fun x => k))
  (at level 10, x name, m at level 100, k at level 200) : M_scope.
Notation "'do_' m ';' k" := (bind m (fun _ => k))
  (at level 10, m at level 100, k at level 200) : M_scope.
Open Scope M_scope.

(** [try: body except <matching e>: handler(e)]; an exception the handler
    does not take is raised again. *)
Definition try_except {A} (body : M A) (handler : exn -> option (M A)) : M A :=
  fun w =>
    match body w with
    | (inl e, w') =>
        match handler e with
        | Some h => h w'
        | None => (inl e, w')
        end
    | (inr a, w') => (inr a, w')
    end.

(** [try: body finally: final]: [final] runs whatever [body] did; an
    exception of [final] replaces the outcome of [body]. *)
Definition try_finally {A} (body : M A) (final : M unit) : M A :=
  fun w =>
    match body w with
    | (r, w') =>
        match final w' with
        | (inl e, w'') => (inl e, w'')
        | (inr _, w'') => (r, w'')
        end
    end.

(** The world after an external call [a]: the call is recorded and its
    response consumed. *)
Definition after_call (a : action) (w : World) : World :=
  mkWorld (fun n => responses w (S n)) (cwd w) (dirs w) (tmp_root w) (uuid w)
          (mkdir_done w) (trace w ++ [a]).

(** After [os.makedirs(path)] returned: the directory is there, and so is
    every directory above it (those that were missing have been made). *)
Definition after_mkdir (path : string) (w : World) : World :=
  mkWorld (responses w) (cwd w)
          ({[path]} ∪ (list_to_set (ancestors path) ∪ dirs w))
          (tmp_root w) (uuid w) (mkdir_done w) (trace w).

(** After [os.makedirs(path)] raised: it works downwards from the farthest
    missing directory, so some of the directories above [path] may be there
    now; [path] is not. *)
Definition after_mkdir_failed (path : string) (w : World) : World :=
  mkWorld (responses w) (cwd w)
          (list_to_set (take (mkdir_done w) (ancestors path)) ∪ dirs w)
          (tmp_root w) (uuid w) (mkdir_done w) (trace w).

Definition after_chdir (path : string) (w : World) : World :=
  mkWorld (responses w) path (dirs w) (tmp_root w) (uuid w)
          (mkdir_done w) (trace w ++ [Chdir path]).

Definition after_rmtree (path : string) (w : World) : World :=
  mkWorld (responses w) (cwd w) (dirs w ∖ {[path]}) (tmp_root w) (uuid w)
          (mkdir_done w) (trace w ++ [Rmtree path]).

(** An external call: recorded, answered by the next response. *)
Definition call (a : action) : M response :=
  fun w => (ok (responses w 0), after_call a w).

(** [SSH.exec_once(cmd)]: the exit status and the output. *)
Definition exec_once (remote : Remote) (cmd : string) : M (Z * string) :=
  do r <- call (SshExec remote cmd);
  match r with
  | Exit retcode output => ret (retcode, output)
  | Fail e => throw e
  end.

(** [git.git_cmd(args)]: the message is joined first, then
    [subprocess.check_call] raises on a non-zero exit status. *)
Definition git_cmd (args : list json) : M unit :=
  do args' <- lift (str_args args);
  do r <- call (GitCmd args');
  match r with
  | Exit 0 _ => ret tt
  | Exit _ _ => throw (CalledProcessError None)
  | Fail e => throw e
  end.

Definition git_init : M unit := git_cmd [JStr "git"; JStr "init"].

Definition add_remote (name url : json) : M unit :=
  git_cmd [JStr "git"; JStr "remote"; JStr "add"; name; url].

Definition set_config (name value : json) : M unit :=
  git_cmd [JStr "git"; JStr "config"; name; value].

(** [subprocess.check_output(args, stderr=STDOUT, env=env)] *)
Definition check_output (args : list string) : M string :=
  do r <- call (CheckOutput args);
  match r with
  | Exit 0 output => ret output
  | Exit _ output => throw (CalledProcessError (Some output))
  | Fail e => throw e
  end.

Definition isdir (path : string) : M bool :=
  fun w => (ok (bool_decide (path ∈ dirs w)), w).

Definition getcwd : M string := fun w => (ok (cwd w), w).

Definition uuid4 : M string := fun w => (ok (uuid w), w).

Definition expand_tmp : M string := fun w => (ok (tmp_root w), w).

(** [os.makedirs(path)]: it makes the missing directories above [path]
    and then [path]; when it raises, it may have made some of the former. *)
Definition makedirs (path : string) : M unit :=
  do r <- call (Makedirs path);
  match r with
  | Fail e => fun w => (raise e, after_mkdir_failed path w)
  | Exit _ _ => fun w => (ok tt, after_mkdir path w)
  end.

Definition chdir (path : string) : M unit :=
  fun w =>
    if bool_decide (path ∈ dirs w) then (ok tt, after_chdir path w)
    else (raise OSError, w).

Definition rmtree (path : string) : M unit :=
  fun w =>
    if bool_decide (path ∈ dirs w) then (ok tt, after_rmtree path w)
    else (raise OSError, w).

(** ** The workflow of [CommentAdded] *)

Definition nl : string := String (ascii_of_nat 10) "".

Definition msg_not_approved : string :=
  "Could not send to upstream: One or more labels not approved.".

Definition msg_failed (output : option string) : string :=
  "Could not send to upstream:" +:+ nl +:+ default "None" output.

Definition msg_error : string :=
  "Could not send to upstream: Error running git-review".

(** *** Text and bytes

    The strings of an event are text ([unicode], decoded by [json.loads]);
    the output of a command is bytes ([str]). When [%] formats a text
    together with bytes, Python 2 decodes the bytes as ASCII and raises
    UnicodeDecodeError at a byte above 127. *)

Fixpoint is_ascii (s : string) : bool :=
  match s with
  | "" => true
  | String c s' => Nat.ltb (nat_of_ascii c) 128 && is_ascii s'
  end.

(** The values of an event that [%s] formats as text. *)
Definition is_text (v : json) : bool :=
  match v with
  | JStr _ => true
  | _ => false
  end.

(** [fmt % (.., v, .., bytes, ..)] for a value [v] of the event and captured
    [bytes]: whether the formatting goes through. *)
Definition decode_beside (v : json) (bytes : string) : res unit :=
  if is_text v && negb (is_ascii bytes) then raise UnicodeDecodeError
  else ok tt.

(** The body of the inner [try] of [send_upstream], cut where the local
    [out] is assigned, so that a handler knows whether [out] is bound when
    the exception reaches it; the later stages read the [out] assigned
    before them. *)
Definition try_tracking_out (stage1 : M string) (stage2 : string -> M string)
    (stage3 : string -> M unit)
    (handler : exn -> option string -> M unit) : M unit :=
  fun w =>
    match stage1 w with
    | (inl e, w1) => handler e None w1
    | (inr out1, w1) =>
        match stage2 out1 w1 with
        | (inl e, w2) => handler e (Some out1) w2
        | (inr out2, w2) =>
            match stage3 out2 w2 with
            | (inl e, w3) => handler e (Some out2) w3
            | (inr u, w3) => (inr u, w3)
            end
        end
    end.

(** The [finally] clause of [send_upstream]: back to the old working
    directory, then the scratch directory is removed. *)
Definition cleanup (old_cwd repo_dir : string) : M unit :=
  do_ chdir old_cwd;
  rmtree repo_dir.

(** The scratch directory of a run: [os.path.join(repo_dir, uuid_dir)]. *)
Definition scratch_dir (w : World) : string := tmp_root w +:+ "/" +:+ uuid w.

Section Workflow.

(** [utils.MultiJSON(out)]: the JSON objects of a query output. The [utils]
    module is not part of the sources at hand; it is a parameter. *)
Variable MultiJSON : string -> res (list json).

(** What [%s] makes of a decoded value (Python's [str]). *)
Variable py_str : json -> string.

Variable self : CommentAdded.

(** [gerrit review -m <quoted message> <revision>] *)
Definition review_cmd (msg : string) (rev : json) : string :=
  "gerrit review -m " +:+ quote msg +:+ " " +:+ py_str rev.

Definition post_review (ssh : Remote) (msg : string) : M unit :=
  do rev <- lift (revision self);
  do_ exec_once ssh (review_cmd msg rev);
  ret tt.

Definition query_cmd (options : string) : res string :=
  let? cid := change_id self in
  let? br := branch self in
  let? pj := project self in
  ok ("gerrit query change:" +:+ py_str cid +:+ " branch:" +:+ py_str br
      +:+ " project:" +:+ py_str pj +:+ options).

(** The loop of [get_approvals] over the patch sets: the approvals
    appended so far, and how the loop ended. *)
Fixpoint collect_approvals (patchsets : list json) (approvals : list Approval)
  : list Approval * res unit :=
  match patchsets with
  | [] => (approvals, ok tt)
  | patchset :: rest =>
      let same :=
        let? number := py_getitem patchset "number" in
        let? n := py_int number in
        let? pid := patchset_id self in
        ok (n =? pid) in
      match same with
      | inl e => (approvals, inl e)
      | inr false => collect_approvals rest approvals
      | inr true =>
          let items :=
            let? a := py_getitem patchset "approvals" in
            py_iter a in
          match items with
          | inl e => (approvals, inl e)
          | inr json_approvals =>
              collect_approvals rest (approvals ++ json_approvals)
          end
      end
  end.

(** What the [try] block of [get_approvals] does with the output of the
    query. *)
Definition parse_approvals (retcode : Z) (out : string)
  : list Approval * res unit :=
  if negb (retcode =? 0) then ([], raise (Exception_ "Error getting approvals"))
  else
    let patchsets :=
      let? objs := MultiJSON out in
      let? json_ := list_getitem0 objs in
      let? ps := py_getitem json_ "patchSets" in
      py_iter ps in
    match patchsets with
    | inl e => ([], inl e)
    | inr ps =>
        match collect_approvals ps [] with
        | (approvals, inl e) => (approvals, inl e)
        | (approvals, inr _) =>
            (approvals, let? _ := change_id self in ok tt)
        end
    end.

(** [get_approvals]: the bare [except] takes every exception of the [try]
    block and keeps the approvals appended before it. *)
Definition get_approvals (ssh : Remote) : M (list Approval) :=
  do cmd <- lift (query_cmd " --all-approvals limit:1 --format JSON");
  fun w =>
    match exec_once ssh cmd w with
    | (inl e, w1) =>
        (do_ lift (change_id self); ret []) w1
    | (inr (retcode, out), w1) =>
        match parse_approvals retcode out with
        | (approvals, inl e) => (do_ lift (change_id self); ret approvals) w1
        | (approvals, inr _) => (ok approvals, w1)
        end
    end.

(** [get_upstream_url]: [inl] is a value returned from inside the [try]
    block, [inr] the local [url] after it. *)
Definition get_upstream_url (upstream : Remote) : M json :=
  do cmd <- lift (query_cmd " --format JSON");
  do r <- try_except
       (do ro <- exec_once upstream cmd;
        if negb (fst ro =? 0) then ret (inl JNull)
        else
          do json_ <- lift (MultiJSON (snd ro));
          if (length json_ <? 2)%nat then ret (inl JNull)
          else
            do first <- lift (list_getitem0 json_);
            do url <- lift (py_getitem first "url");
            ret (inr url))
       (fun _ => Some (ret (inr JNull)));
  match r with
  | inl v => ret v
  | inr url =>
      if negb (truthy url) then
        do cid <- lift (change_id self);
        ret (JStr ("https://" +:+ host upstream +:+ "/#q," +:+ py_str cid +:+ ",n,z"))
      else ret url
  end.

(** ["ssh://%s@%s:%s/%s" % (user, remote.host, remote.port, self.project)] *)
Definition remote_url (user : string) (remote : Remote) (pj : json) : json :=
  JStr ("ssh://" +:+ user +:+ "@" +:+ host remote +:+ ":" +:+ port remote
        +:+ "/" +:+ py_str pj).

(** Lines 652-661: the identity the change is pushed with, as the user
    name written into the remote url and the name and email handed to
    [git config]. *)
Definition push_identity (upstream : Remote) : res (string * json * json) :=
  let? owner_username := change_owner_username self in
  let? owner_name := change_owner_name self in
  let? owner_email := change_owner_email self in
  if negb (truthy owner_username) then
    let? _ := change_id self in
    ok (username upstream,
        JStr (conf_git_name (_conf self)),
        JStr (conf_git_email (_conf self)))
  else ok (py_str owner_username, owner_name, owner_email).

(** The handlers of the inner [try] of [send_upstream]. In the first one
    the message is made of the captured bytes, and the command formats it
    with the revision of the event before anything is sent; its last
    message reads the local [out]. *)
Definition transfer_handler (ssh : Remote) (e : exn) (out : option string)
  : M unit :=
  match e with
  | CalledProcessError output =>
      let msg := msg_failed output in
      do rev <- lift (revision self);
      do_ lift (decode_beside rev (quote msg));
      do_ exec_once ssh (review_cmd msg rev);
      do_ lift (change_id self);
      do cid <- lift (change_id self);
      match out with
      | Some bytes => lift (decode_beside cid bytes)
      | None => throw UnboundLocalError
      end
  | _ =>
      do_ post_review ssh msg_error;
      do_ lift (change_id self);
      ret tt
  end.

(** [git-review -r downstream -d <change>,<patchset>] *)
Definition download_change (email name : json) : M string :=
  do_ set_config (JStr "user.email") email;
  do_ set_config (JStr "user.name") name;
  do cid <- lift (change_id self);
  do pid <- lift (patchset_id self);
  let args := ["git-review"; "-r"; "downstream"; "-d";
               py_str cid +:+ "," +:+ py_str (JInt pid)] in
  do_ lift (change_id self);
  check_output args.

(** [git-review -R -y -r upstream <branch> -t <topic>], after the debug
    message that formats the change id with the output [out] of the
    download. *)
Definition upload_change (out : string) : M string :=
  do cid <- lift (change_id self);
  do_ lift (decode_beside cid out);
  do br <- lift (branch self);
  do tp <- lift (topic self);
  do_ lift (change_id self);
  do args <- lift (str_args [JStr "git-review"; JStr "-R"; JStr "-y"; JStr "-r";
                             JStr "upstream"; br; JStr "-t"; tp]);
  check_output args.

(** The comment on the downstream server, after the debug message that
    formats the change id with the output [out] of the upload. *)
Definition report_sent (ssh upstream : Remote) (out : string) : M unit :=
  do cid <- lift (change_id self);
  do_ lift (decode_beside cid out);
  do upstream_url <- get_upstream_url upstream;
  post_review ssh ("Sent to upstream: " +:+ py_str upstream_url).

(** The outer [try] block of [send_upstream]. *)
Definition transfer (ssh downstream upstream : Remote) (repo_dir : string)
  : M unit :=
  do_ chdir repo_dir;
  do_ git_init;
  do pj <- lift (project self);
  do_ add_remote (JStr "downstream")
        (remote_url (username downstream) downstream pj);
  do ident <- lift (push_identity upstream);
  let '(username_, name_, email_) := ident in
  do pj <- lift (project self);
  do_ add_remote (JStr "upstream") (remote_url username_ upstream pj);
  do_ lift (change_id self);
  try_tracking_out
    (download_change email_ name_)
    upload_change
    (report_sent ssh upstream)
    (transfer_handler ssh).

(** [send_upstream]. A debug message is shown by what it reads of the
    event when it formats text with literals or with text; the one after
    [os.makedirs] formats the scratch path, an ASCII path (see [tmp_root]),
    beside the change id. *)
Definition send_upstream (downstream upstream : Remote) : M unit :=
  do is_project <- lift (is_upstream_project self);
  if negb is_project then ret tt
  else
    let ssh := downstream in
    do indicated <- lift (is_upstream_indicated self);
    if negb indicated then
      do_ lift (change_id self);
      ret tt
    else
      do approvals <- get_approvals downstream;
      do is_approved <- lift (is_upstream_approved self approvals);
      if negb is_approved then
        do_ lift (change_id self);
        post_review ssh msg_not_approved
      else
        do_ lift (change_id self);
        do tmp <- expand_tmp;
        do uuid_dir <- uuid4;
        let repo_dir := tmp +:+ "/" +:+ uuid_dir in
        do exists_ <- isdir repo_dir;
        do_ (if negb exists_ then
               do_ makedirs repo_dir;
               do_ lift (change_id self);
               ret tt
             else ret tt);
        do old_cwd <- getcwd;
        try_finally
          (transfer ssh downstream upstream repo_dir)
          (cleanup old_cwd repo_dir).

End Workflow.

(** * Properties *)

(** ** Label voting *)

(** [m] is the least (greatest) of the recorded values. *)
Definition minimum_of (vs : list Z) (m : Z) : Prop :=
  m ∈ vs /\ forall v, v ∈ vs -> m <= v.

Definition maximum_of (vs : list Z) (m : Z) : Prop :=
  m ∈ vs /\ forall v, v ∈ vs -> v <= m.

(** C1. For a label with [min < max], [approved] is false when nothing was
    recorded; false when the least recorded value is at most the min bound,
    whatever else was recorded (also a value at or above the max bound);
    true when the least value is above the min bound and the greatest one
    reaches the max bound; false otherwise. *)
Theorem Label_approved_max_with_block (l : Label) :
  _min l < _max l ->
  (_values l = [] -> approved l = false) /\
  (forall lo, minimum_of (_values l) lo -> lo <= _min l -> approved l = false) /\
  (forall v w, v ∈ _values l -> w ∈ _values l ->
     v <= _min l -> _max l <= w -> approved l = false) /\
  (forall lo hi, minimum_of (_values l) lo -> maximum_of (_values l) hi ->
     _min l < lo -> _max l <= hi -> approved l = true) /\
  (forall lo hi, minimum_of (_values l) lo -> maximum_of (_values l) hi ->
     _min l < lo -> hi < _max l -> approved l = false).
Proof.
  intros _. pose proof (approved_iff l) as Hiff.
  assert (Hblock : forall v, v ∈ _values l -> v <= _min l -> approved l = false).
  { intros v Hv Hle. destruct (approved l) eqn:E; [|reflexivity].
    destruct (proj1 Hiff eq_refl) as [Hall _]. specialize (Hall v Hv). lia. }
  repeat split.
  - intros Hnil. unfold approved. rewrite Hnil. reflexivity.
  - intros lo [Hin _] Hle. exact (Hblock lo Hin Hle).
  - intros v w Hv _ Hle _. exact (Hblock v Hv Hle).
  - intros lo hi [_ Hlo] [Hhi _] Hgt Hge. apply Hiff. split.
    + intros v Hv. specialize (Hlo v Hv). lia.
    + exists hi. split; [exact Hhi | exact Hge].
  - intros lo hi _ [_ Hhi] _ Hlt. destruct (approved l) eqn:E; [|reflexivity].
    destruct (proj1 Hiff eq_refl) as [_ [v [Hv Hge]]].
    specialize (Hhi v Hv). lia.
Qed.

(** Scenario A: Code-Review in [-2, 2] with votes [+2, -2] is blocked. *)
Lemma Label_approved_max_with_block_witness :
  approved (mkLabel "Code-Review" (-2) 2 [2; -2]) = false.
Proof.
  refine (proj1 (proj2 (proj2
    (Label_approved_max_with_block (mkLabel "Code-Review" (-2) 2 [2; -2]) _)))
    (-2) 2 _ _ _ _); simpl; try lia.
  - right. left.
  - left.
Defined.

Example scenario_A_approved : approved (mkLabel "Code-Review" (-2) 2 [2]) = true.
Proof. reflexivity. Qed.

Example scenario_A_block_first : approved (mkLabel "Code-Review" (-2) 2 [-2; 2]) = false.
Proof. reflexivity. Qed.

(** ** Event accessors *)

(** C5, as the code has it. The accessors of project, branch and revision
    raise [KeyError] when the field is absent and the accessor of the patch
    set number raises [TypeError]; all raise [KeyError] when the enclosing
    record is absent. The accessor of the change id returns [None] when the
    change record has no id. The accessors of the owner fields return [None]
    when the owner record lacks the field, and raise [KeyError] when the
    change record has no owner. *)
Theorem accessors_on_absent_fields (self : CommentAdded) :
  (forall c, _data self !! "change" = Some (JDict c) ->
     (c !! "project" = None -> project self = raise KeyError) /\
     (c !! "branch" = None -> branch self = raise KeyError) /\
     (c !! "id" = None -> change_id self = ok JNull) /\
     (c !! "owner" = None ->
        change_owner_username self = raise KeyError /\
        change_owner_name self = raise KeyError /\
        change_owner_email self = raise KeyError) /\
     (forall o, c !! "owner" = Some (JDict o) ->
        (o !! "username" = None -> change_owner_username self = ok JNull) /\
        (o !! "name" = None -> change_owner_name self = ok JNull) /\
        (o !! "email" = None -> change_owner_email self = ok JNull))) /\
  (forall p, _data self !! "patchSet" = Some (JDict p) ->
     (p !! "revision" = None -> revision self = raise KeyError) /\
     (p !! "number" = None -> patchset_id self = raise TypeError)) /\
  (_data self !! "change" = None ->
     change_id self = raise KeyError /\ project self = raise KeyError /\
     branch self = raise KeyError /\ change_owner_username self = raise KeyError) /\
  (_data self !! "patchSet" = None ->
     revision self = raise KeyError /\ patchset_id self = raise KeyError).
Proof.
  unfold project, branch, change_id, revision, patchset_id,
    change_owner_username, change_owner_name, change_owner_email,
    change_owner, dict_getitem.
  split_and!.
  - intros c Hc. rewrite Hc. simpl. unfold dict_getitem. split_and!.
    + intros Hf. rewrite Hf. reflexivity.
    + intros Hf. rewrite Hf. reflexivity.
    + intros Hf. rewrite Hf. reflexivity.
    + intros Hf. rewrite Hf. split_and!; reflexivity.
    + intros o Ho. rewrite Ho. simpl.
      split_and!; intros Hf; rewrite Hf; reflexivity.
  - intros p Hp. rewrite Hp. simpl. unfold dict_getitem.
    split_and!; intros Hf; rewrite Hf; reflexivity.
  - intros Hc. rewrite Hc. split_and!; reflexivity.
  - intros Hp. rewrite Hp. split_and!; reflexivity.
Qed.

Definition event_without_id : CommentAdded :=
  mkCommentAdded
    {[ "change" := JDict {[ "project" := JStr "demo" ]} ]}
    (mkConf [] None "Upstream-Ready+1" "Service" "service@example.org").

Lemma accessors_on_absent_fields_witness :
  change_id event_without_id = ok JNull /\
  change_owner_username event_without_id = raise KeyError /\
  revision event_without_id = raise KeyError.
Proof.
  pose proof (accessors_on_absent_fields event_without_id)
    as [Hchange [_ [_ Hps]]].
  destruct (Hchange {[ "project" := JStr "demo" ]} eq_refl)
    as [_ [_ [Hid [Howner _]]]].
  split; [apply Hid; reflexivity|].
  split; [apply Howner; reflexivity|].
  apply Hps. reflexivity.
Defined.

(** The claim as written fails here: the change record has no id, yet
    [change_id] returns [None] instead of raising; and with no owner record
    the owner accessors raise instead of returning [None]. *)
Lemma change_id_absent_returns_None :
  change_id event_without_id = ok JNull /\
  change_owner_username event_without_id = raise KeyError.
Proof. split; reflexivity. Qed.

(** ** Strings *)

(** [t] occurs in [s]. *)
Definition substring_of (t s : string) : Prop :=
  exists a b, s = a +:+ t +:+ b.

Fixpoint no_boundary (s : string) : bool :=
  match s with
  | "" => true
  | String c s' => negb (line_boundary c) && no_boundary s'
  end.

(** [first] is the first line of [text]: the text up to its first line
    boundary, or all of a non-empty text without boundary. *)
Definition first_line_of (text first : string) : Prop :=
  no_boundary first = true /\
  ((text = first /\ first <> "") \/
   (exists b rest, line_boundary b = true /\ text = first +:+ String b rest)).

Lemma prefix_app t : forall s, String.prefix t s = true <-> exists b, s = t +:+ b.
Proof.
  induction t as [|c t IH]; intros s.
  - split; [intros _; exists s; reflexivity|].
    intros _. destruct s; reflexivity.
  - destruct s as [|d s]; simpl.
    + split; [discriminate|]. intros [b Hb]. discriminate.
    + destruct (ascii_dec c d) as [->|Hne].
      * rewrite IH. split; intros [b Hb]; exists b.
        -- simpl. rewrite Hb. reflexivity.
        -- simpl in Hb. injection Hb as Hb. exact Hb.
      * split; [discriminate|]. intros [b Hb]. simpl in Hb.
        injection Hb as Hd _. congruence.
Qed.

Lemma contains_spec t : forall s, contains t s = true <-> substring_of t s.
Proof.
  unfold substring_of. induction s as [|c s IH].
  - cbn [contains]. rewrite orb_false_r, prefix_app. split.
    + intros [b Hb]. exists "", b. exact Hb.
    + intros [a [b Hab]]. destruct a; [exists b; exact Hab | discriminate].
  - cbn [contains]. rewrite orb_true_iff, prefix_app, IH. split.
    + intros [[b Hb]|[a [b Hab]]].
      * exists "", b. exact Hb.
      * exists (String c a), b. simpl. rewrite Hab. reflexivity.
    + intros [a [b Hab]]. destruct a as [|d a].
      * left. exists b. exact Hab.
      * right. simpl in Hab. injection Hab as _ Hab. exists a, b. exact Hab.
Qed.

Lemma is_cr_line_boundary c : is_cr c = true -> line_boundary c = true.
Proof.
  unfold is_cr, line_boundary. intros H. apply Nat.eqb_eq in H. rewrite H.
  reflexivity.
Qed.

Lemma splitlines_cons_boundary b rest :
  line_boundary b = true -> exists ls, splitlines (String b rest) = "" :: ls.
Proof.
  intros Hb. simpl. destruct (is_cr b).
  - destruct rest as [|c2 rest']; [eauto|]. destruct (is_lf c2); eauto.
  - rewrite Hb. eauto.
Qed.

Lemma splitlines_first_break first : forall b rest,
  no_boundary first = true -> line_boundary b = true ->
  exists ls, splitlines (first +:+ String b rest) = first :: ls.
Proof.
  induction first as [|c f IH]; intros b rest Hnb Hb.
  - apply splitlines_cons_boundary. exact Hb.
  - simpl in Hnb. apply andb_true_iff in Hnb as [Hc Hf].
    apply negb_true_iff in Hc.
    destruct (IH b rest Hf Hb) as [ls Hls].
    change (String c f +:+ String b rest) with (String c (f +:+ String b rest)).
    cbn [splitlines].
    destruct (is_cr c) eqn:Hcr.
    { apply is_cr_line_boundary in Hcr. congruence. }
    rewrite Hc, Hls. eauto.
Qed.

Lemma splitlines_single first :
  no_boundary first = true -> first <> "" -> splitlines first = [first].
Proof.
  induction first as [|c f IH]; intros Hnb Hne; [congruence|].
  simpl in Hnb. apply andb_true_iff in Hnb as [Hc Hf].
  apply negb_true_iff in Hc. cbn [splitlines].
  destruct (is_cr c) eqn:Hcr.
  { apply is_cr_line_boundary in Hcr. congruence. }
  rewrite Hc. destruct f as [|d f'].
  - reflexivity.
  - rewrite IH; [reflexivity | exact Hf | discriminate].
Qed.

Lemma splitlines_first_line text first :
  first_line_of text first -> exists ls, splitlines text = first :: ls.
Proof.
  intros [Hnb [[-> Hne]|[b [rest [Hb ->]]]]].
  - exists []. apply splitlines_single; assumption.
  - apply splitlines_first_break; assumption.
Qed.

(** ** The gates *)

Lemma py_eq_str_true name v : py_eq_str name v = true <-> v = JStr name.
Proof.
  destruct v; simpl; try (split; [discriminate | intros H; discriminate]).
  rewrite String.eqb_eq. split; [intros ->; reflexivity | intros H; congruence].
Qed.

Lemma find_project_ok self pj ps :
  project self = ok pj ->
  find_project self ps = ok (List.find (fun p => py_eq_str (pd_name p) pj) ps).
Proof.
  intros Hpj. induction ps as [|p ps IH]; simpl; [reflexivity|].
  rewrite Hpj. simpl. destruct (py_eq_str (pd_name p) pj); [reflexivity|exact IH].
Qed.

Lemma find_project_Some self ps p :
  find_project self ps = ok (Some p) -> exists pj, project self = ok pj.
Proof.
  destruct ps as [|q ps]; simpl; [discriminate|].
  destruct (project self) as [e|pj]; simpl; [discriminate|]. eauto.
Qed.

Lemma is_upstream_project_true self :
  is_upstream_project self = ok true -> exists pj, project self = ok pj.
Proof.
  unfold is_upstream_project.
  destruct (find_project self (conf_projects (_conf self))) as [e|[p|]] eqn:E;
    simpl; try discriminate.
  - intros _. eapply find_project_Some. exact E.
  - destruct (debug_change_project self); discriminate.
Qed.

Lemma is_upstream_project_change_id self :
  is_upstream_project self = ok true -> exists c, change_id self = ok c.
Proof.
  intros H. apply is_upstream_project_true in H as [pj Hpj].
  eapply project_ok_change_id. exact Hpj.
Qed.

(** The entry of the configuration that [is_upstream_project] finds for
    a project: the first one carrying its name. *)
Definition configured_as (conf : Conf) (pj : json) (p : ProjectDict) : Prop :=
  exists before after,
    conf_projects conf = (before ++ p :: after)%list /\
    (forall q, q ∈ before -> JStr (pd_name q) <> pj) /\
    JStr (pd_name p) = pj.

Definition not_configured (conf : Conf) (pj : json) : Prop :=
  forall q, q ∈ conf_projects conf -> JStr (pd_name q) <> pj.

Lemma find_not_configured pj ps :
  (forall q, q ∈ ps -> JStr (pd_name q) <> pj) ->
  List.find (fun p => py_eq_str (pd_name p) pj) ps = None.
Proof.
  induction ps as [|p ps IH]; intros H; simpl; [reflexivity|].
  destruct (py_eq_str (pd_name p) pj) eqn:E.
  - apply py_eq_str_true in E. exfalso. apply (H p); [left | congruence].
  - apply IH. intros q Hq. apply H. right. exact Hq.
Qed.

Lemma find_configured pj before p after :
  (forall q, q ∈ before -> JStr (pd_name q) <> pj) ->
  JStr (pd_name p) = pj ->
  List.find (fun p => py_eq_str (pd_name p) pj) (before ++ p :: after)%list
  = Some p.
Proof.
  induction before as [|b bs IH]; intros Hb Hp; simpl.
  - assert (E : py_eq_str (pd_name p) pj = true)
      by (apply py_eq_str_true; congruence).
    rewrite E. reflexivity.
  - destruct (py_eq_str (pd_name b) pj) eqn:E.
    + apply py_eq_str_true in E. exfalso. apply (Hb b); [left | congruence].
    + apply IH; [|exact Hp]. intros q Hq. apply Hb. right. exact Hq.
Qed.

Lemma is_upstream_project_false self pj :
  project self = ok pj ->
  not_configured (_conf self) pj \/
  (exists p, configured_as (_conf self) pj p /\ Project_upstream p = false) ->
  is_upstream_project self = ok false.
Proof.
  intros Hpj Hconf. destruct (project_ok_change_id self pj Hpj) as [c Hc].
  unfold is_upstream_project. rewrite (find_project_ok self pj _ Hpj).
  unfold debug_change_project. rewrite Hc, Hpj.
  destruct Hconf as [Hno|[p [[before [after [Hps [Hbefore Hname]]]] Hup]]].
  - rewrite find_not_configured; [reflexivity | exact Hno].
  - rewrite Hps, find_configured by assumption. simpl. rewrite Hup.
    reflexivity.
Qed.

(** ** [send_upstream]: the silent gates *)

Section SilentGates.
Variable MultiJSON : string -> res (list json).
Variable py_str : json -> string.
Variable self : CommentAdded.
Variables downstream upstream : Remote.

Lemma send_upstream_project_gate_false w :
  is_upstream_project self = ok false ->
  send_upstream MultiJSON py_str self downstream upstream w = (ok tt, w).
Proof.
  intros H. unfold send_upstream, bind, lift. rewrite H. reflexivity.
Qed.

Lemma send_upstream_project_gate_raise w e :
  is_upstream_project self = raise e ->
  send_upstream MultiJSON py_str self downstream upstream w = (raise e, w).
Proof.
  intros H. unfold send_upstream, bind, lift. rewrite H. reflexivity.
Qed.

Lemma send_upstream_trigger_gate_false w :
  is_upstream_project self = ok true ->
  is_upstream_indicated self = ok false ->
  send_upstream MultiJSON py_str self downstream upstream w = (ok tt, w).
Proof.
  intros Hp Hi. destruct (is_upstream_project_change_id self Hp) as [c Hc].
  unfold send_upstream, bind, lift. rewrite Hp, Hi, Hc. reflexivity.
Qed.

Lemma send_upstream_trigger_gate_raise w e :
  is_upstream_project self = ok true ->
  is_upstream_indicated self = raise e ->
  send_upstream MultiJSON py_str self downstream upstream w = (raise e, w).
Proof.
  intros Hp Hi. unfold send_upstream, bind, lift. rewrite Hp, Hi. reflexivity.
Qed.

(** Whatever the project gate says, a trigger gate that does not pass
    leaves the world as it was. *)
Lemma send_upstream_not_indicated_silent w :
  (forall c, change_id self = ok c -> is_upstream_indicated self = ok false) ->
  snd (send_upstream MultiJSON py_str self downstream upstream w) = w.
Proof.
  intros Hi. destruct (is_upstream_project self) as [e|[|]] eqn:Hp.
  - rewrite (send_upstream_project_gate_raise w e Hp). reflexivity.
  - destruct (is_upstream_project_change_id self Hp) as [c Hc].
    rewrite (send_upstream_trigger_gate_false w Hp (Hi c Hc)). reflexivity.
  - rewrite (send_upstream_project_gate_false w Hp). reflexivity.
Qed.

Lemma is_upstream_indicated_first_line text first c :
  _data self !! "comment" = Some (JStr text) ->
  first_line_of text first ->
  change_id self = ok c ->
  is_upstream_indicated self = ok (contains (conf_trigger (_conf self)) first).
Proof.
  intros Hcomment Hfirst Hc. unfold is_upstream_indicated, comment.
  rewrite Hc, Hcomment. simpl.
  destruct (splitlines_first_line text first Hfirst) as [ls Hls].
  rewrite Hls. reflexivity.
Qed.

Lemma is_upstream_indicated_empty c :
  comment self = JStr "" ->
  change_id self = ok c ->
  is_upstream_indicated self = raise IndexError.
Proof.
  intros Hcomment Hc. unfold is_upstream_indicated.
  rewrite Hc, Hcomment. reflexivity.
Qed.

End SilentGates.

(** C6. When the project of the event is not in the configuration, or the
    entry found for it is not marked upstream, [send_upstream] returns and
    leaves the world untouched: no call is made (the trace does not grow),
    hence no network call and no comment. *)
Theorem send_upstream_skips_other_projects
    (MultiJSON : string -> res (list json)) (py_str : json -> string)
    (self : CommentAdded) (downstream upstream : Remote) (w : World) (pj : json) :
  project self = ok pj ->
  not_configured (_conf self) pj \/
  (exists p, configured_as (_conf self) pj p /\ Project_upstream p = false) ->
  send_upstream MultiJSON py_str self downstream upstream w = (ok tt, w).
Proof.
  intros Hpj Hconf. apply send_upstream_project_gate_false.
  eapply is_upstream_project_false; eassumption.
Qed.

(** C4. With a first line that does not contain the trigger the gate
    answers false and [send_upstream] leaves the world untouched, whatever
    the later lines are; with a first line that contains it the gate
    answers true. *)
Theorem trigger_gate_reads_first_line
    (MultiJSON : string -> res (list json)) (py_str : json -> string)
    (self : CommentAdded) (downstream upstream : Remote) (w : World)
    (text first : string) :
  _data self !! "comment" = Some (JStr text) ->
  first_line_of text first ->
  (~ substring_of (conf_trigger (_conf self)) first ->
     (forall c, change_id self = ok c -> is_upstream_indicated self = ok false) /\
     snd (send_upstream MultiJSON py_str self downstream upstream w) = w) /\
  (substring_of (conf_trigger (_conf self)) first ->
     forall c, change_id self = ok c -> is_upstream_indicated self = ok true).
Proof.
  intros Hcomment Hfirst. split.
  - intros Hno.
    assert (Hgate : forall c, change_id self = ok c ->
                              is_upstream_indicated self = ok false).
    { intros c Hc.
      rewrite (is_upstream_indicated_first_line self text first c Hcomment Hfirst Hc).
      destruct (contains _ first) eqn:E; [|reflexivity].
      apply contains_spec in E. contradiction. }
    split; [exact Hgate|].
    apply send_upstream_not_indicated_silent. exact Hgate.
  - intros Hyes c Hc.
    rewrite (is_upstream_indicated_first_line self text first c Hcomment Hfirst Hc).
    apply contains_spec in Hyes. rewrite Hyes. reflexivity.
Qed.

(** C10. With an empty comment, also when the record has no comment field,
    [is_upstream_indicated] raises [IndexError] (for an event whose change
    record can be read), and [send_upstream] on an upstream project
    raises it at the trigger gate, before any call. *)
Theorem empty_comment_raises_IndexError
    (MultiJSON : string -> res (list json)) (py_str : json -> string)
    (self : CommentAdded) (downstream upstream : Remote) (w : World) :
  _data self !! "comment" = None \/ _data self !! "comment" = Some (JStr "") ->
  splitlines "" = [] /\
  (forall c, change_id self = ok c ->
     is_upstream_indicated self = raise IndexError) /\
  (is_upstream_project self = ok true ->
     send_upstream MultiJSON py_str self downstream upstream w
     = (raise IndexError, w)).
Proof.
  intros Hcomment.
  assert (Hempty : comment self = JStr "").
  { unfold comment. destruct Hcomment as [-> | ->]; reflexivity. }
  split; [reflexivity|]. split.
  - intros c Hc. eapply is_upstream_indicated_empty; eassumption.
  - intros Hp. destruct (is_upstream_project_change_id self Hp) as [c Hc].
    apply send_upstream_trigger_gate_raise; [exact Hp|].
    eapply is_upstream_indicated_empty; eassumption.
Qed.

(** ** The evaluation gate *)

(** A fetched approval as the data model has it: a label name and an
    integer value. *)
Definition reads_as (a : Approval) (vote : string * Z) : Prop :=
  Approval_name a = ok (JStr vote.1) /\ Approval_value a = ok vote.2.

(** The values voted on the label called [n], in the order fetched. *)
Fixpoint votes_for (n : string) (votes : list (string * Z)) : list Z :=
  match votes with
  | [] => []
  | (m, v) :: rest =>
      if String.eqb m n then v :: votes_for n rest else votes_for n rest
  end.

(** The label kept under the key [n] once the votes were routed to it. *)
Definition with_votes (votes : list (string * Z)) (n : string) (l : Label)
  : Label :=
  mkLabel (Label_name l) (_min l) (_max l) (_values l ++ votes_for n votes).

Lemma route_approvals_votes approvals votes :
  Forall2 reads_as approvals votes ->
  forall labels : gmap string Label,
    route_approvals labels approvals
    = ok (map_imap (fun n l => Some (with_votes votes n l)) labels).
Proof.
  induction 1 as [|a [m v] approvals votes [Hname Hvalue] _ IH]; intros labels.
  - simpl. f_equal. apply map_eq. intros n. rewrite map_lookup_imap.
    destruct (labels !! n) as [l|]; simpl; [|reflexivity].
    unfold with_votes. simpl. rewrite app_nil_r. destruct l; reflexivity.
  - simpl in Hname, Hvalue. cbn [route_approvals]. rewrite Hname. simpl.
    destruct (labels !! m) as [l|] eqn:Hm; simpl.
    + unfold add_approval. rewrite Hvalue. simpl. rewrite IH. f_equal.
      apply map_eq. intros n. rewrite !map_lookup_imap.
      destruct (decide (m = n)) as [->|Hne].
      * rewrite lookup_insert_eq, Hm. simpl. unfold with_votes. simpl.
        rewrite String.eqb_refl, <- app_assoc. reflexivity.
      * rewrite lookup_insert_ne by exact Hne.
        destruct (labels !! n) as [l'|]; simpl; [|reflexivity].
        unfold with_votes. simpl.
        apply String.eqb_neq in Hne. rewrite Hne. reflexivity.
    + rewrite IH. f_equal. apply map_eq. intros n. rewrite !map_lookup_imap.
      destruct (labels !! n) as [l'|] eqn:Hn; simpl; [|reflexivity].
      unfold with_votes. simpl.
      destruct (String.eqb_spec m n) as [->|Hne]; [congruence|reflexivity].
Qed.

Lemma for_each_ok {A} (xs : list A) (body : A -> res unit) :
  (forall x, body x = ok tt) -> for_each xs body = ok tt.
Proof.
  intros Hbody. induction xs as [|x xs IH]; simpl; [reflexivity|].
  rewrite Hbody. exact IH.
Qed.

Lemma forallb_dict_values {A} (f : A -> bool) (d : gmap string A) :
  forallb f (dict_values d) = true <->
  forall n x, d !! n = Some x -> f x = true.
Proof.
  unfold dict_values. rewrite forallb_forall. split.
  - intros H n x Hn. apply H. apply in_map_iff. exists (n, x).
    split; [reflexivity|]. apply list_elem_of_In, elem_of_map_to_list. exact Hn.
  - intros H x Hx. apply in_map_iff in Hx as [[n y] [Heq Hin]]. simpl in Heq.
    subst y. apply list_elem_of_In, elem_of_map_to_list in Hin. eauto.
Qed.

(** The labels built from a list of entries: one label per name, taken
    from an entry of that name, with no value yet. *)
Lemma fold_add_label_obj_lookup dicts : forall (acc : gmap string Label) n l,
  fold_left add_label_obj dicts acc !! n = Some l ->
  acc !! n = Some l \/
  exists ld, ld ∈ dicts /\ ld_name ld = n /\
             l = Label_init n (ld_min ld) (ld_max ld).
Proof.
  induction dicts as [|d dicts IH]; intros acc n l H; simpl in H; [left; exact H|].
  apply IH in H as [H|[ld [Hin [Hn Hl]]]].
  - unfold add_label_obj in H. destruct (decide (ld_name d = n)) as [Heq|Hne].
    + rewrite Heq, lookup_insert_eq in H. right. exists d.
      split; [left|]. split; [exact Heq|]. rewrite <- Heq. congruence.
    + rewrite lookup_insert_ne in H by exact Hne. left. exact H.
  - right. exists ld. split; [right; exact Hin|]. split; assumption.
Qed.

Lemma fold_add_label_obj_dom dicts : forall (acc : gmap string Label) ld,
  ld ∈ dicts -> is_Some (fold_left add_label_obj dicts acc !! ld_name ld).
Proof.
  assert (Hkeep : forall ds (acc : gmap string Label) n,
            is_Some (acc !! n) -> is_Some (fold_left add_label_obj ds acc !! n)).
  { induction ds as [|d ds IH]; intros acc n H; simpl; [exact H|].
    apply IH. unfold add_label_obj.
    destruct (decide (ld_name d = n)) as [Heq|Hne].
    - rewrite Heq, lookup_insert_eq. eauto.
    - rewrite lookup_insert_ne by exact Hne. exact H. }
  induction dicts as [|d dicts IH]; intros acc ld Hin; [inversion Hin|].
  simpl. apply elem_of_cons in Hin as [->|Hin].
  - apply Hkeep. unfold add_label_obj. rewrite lookup_insert_eq. eauto.
  - apply IH. exact Hin.
Qed.

Lemma get_labels_for_upstream_lookup conf pj n l :
  get_labels_for_upstream conf pj !! n = Some l ->
  exists ld, ld ∈ label_dicts_for conf pj /\ ld_name ld = n /\
             l = Label_init n (ld_min ld) (ld_max ld).
Proof.
  unfold get_labels_for_upstream. intros H.
  apply fold_add_label_obj_lookup in H as [H|H]; [|exact H].
  rewrite lookup_empty in H. discriminate.
Qed.

Lemma is_upstream_approved_votes self pj approvals votes :
  project self = ok pj ->
  Forall2 reads_as approvals votes ->
  is_upstream_approved self approvals
  = ok (forallb approved
          (dict_values
             (map_imap (fun n l => Some (with_votes votes n l))
                       (get_labels_for_upstream (_conf self) pj)))).
Proof.
  intros Hpj Hreads. destruct (project_ok_change_id self pj Hpj) as [c Hc].
  unfold is_upstream_approved. rewrite Hpj. simpl.
  rewrite (route_approvals_votes approvals votes Hreads). simpl.
  rewrite for_each_ok; [reflexivity|]. intros _. rewrite Hc. reflexivity.
Qed.

Lemma find_label_dicts_not_configured pj ps :
  (forall q, q ∈ ps -> JStr (pd_name q) <> pj) ->
  find_label_dicts pj ps = None.
Proof.
  induction ps as [|p ps IH]; intros H; simpl; [reflexivity|].
  destruct (py_eq_str (pd_name p) pj) eqn:E.
  - apply py_eq_str_true in E. exfalso. apply (H p); [left | congruence].
  - apply IH. intros q Hq. apply H. right. exact Hq.
Qed.

Lemma find_label_dicts_configured pj before p after :
  (forall q, q ∈ before -> JStr (pd_name q) <> pj) ->
  JStr (pd_name p) = pj ->
  find_label_dicts pj (before ++ p :: after)%list = pd_upstream_labels p.
Proof.
  induction before as [|b bs IH]; intros Hb Hp; simpl.
  - assert (E : py_eq_str (pd_name p) pj = true)
      by (apply py_eq_str_true; congruence).
    rewrite E. reflexivity.
  - destruct (py_eq_str (pd_name b) pj) eqn:E.
    + apply py_eq_str_true in E. exfalso. apply (Hb b); [left | congruence].
    + apply IH; [|exact Hp]. intros q Hq. apply Hb. right. exact Hq.
Qed.

Lemma fold_add_label_obj_other dicts : forall (acc : gmap string Label) n,
  (forall x, x ∈ dicts -> ld_name x <> n) ->
  fold_left add_label_obj dicts acc !! n = acc !! n.
Proof.
  induction dicts as [|d dicts IH]; intros acc n Hother; simpl; [reflexivity|].
  rewrite IH by (intros x Hx; apply Hother; right; exact Hx).
  unfold add_label_obj. apply lookup_insert_ne. apply Hother. left.
Qed.

(** *** The configuration, in the words of the specification *)

(** The label declarations the configuration gives a project: those of
    the first entry bearing the name of the project when that entry
    declares some (be it an empty list), the global ones otherwise. *)
Definition labels_configured (conf : Conf) (pj : json) (lds : list LabelDict)
  : Prop :=
  (exists p, configured_as conf pj p /\ pd_upstream_labels p = Some lds) \/
  ((not_configured conf pj \/
    exists p, configured_as conf pj p /\ pd_upstream_labels p = None) /\
   lds = default [] (conf_upstream_labels conf)).

(** The declaration that counts for a label name: the last one. *)
Definition effective (lds : list LabelDict) (ld : LabelDict) : Prop :=
  exists before after,
    lds = (before ++ ld :: after)%list /\
    forall x, x ∈ after -> ld_name x <> ld_name ld.

(** Values that can be the key of a dictionary. *)
Definition hashable (key : json) : Prop :=
  match key with
  | JList _ | JDict _ => False
  | _ => True
  end.

(** What an approval is to the gate: a vote on a configured label when it
    bears the name of one, its value then being an integer; nothing when
    its name is that of no configured label, whatever its value. *)
Definition cast (lds : list LabelDict) (a : Approval)
    (vote : option (string * Z)) : Prop :=
  match vote with
  | Some (n, v) =>
      Approval_name a = ok (JStr n) /\
      (exists ld, ld ∈ lds /\ ld_name ld = n) /\
      Approval_value a = ok v
  | None =>
      exists key, Approval_name a = ok key /\ hashable key /\
        forall ld, ld ∈ lds -> JStr (ld_name ld) <> key
  end.

(** The votes that count, in the order fetched. *)
Definition counted (votes : list (option (string * Z))) : list (string * Z) :=
  omap id votes.

Lemma labels_configured_dicts conf pj lds :
  labels_configured conf pj lds -> label_dicts_for conf pj = lds.
Proof.
  unfold label_dicts_for.
  intros [[p [[before [after [Hps [Hb Hp]]]] Hls]]
         |[[Hno|[p [[before [after [Hps [Hb Hp]]]] Hls]]] ->]].
  - rewrite Hps, find_label_dicts_configured, Hls by assumption. reflexivity.
  - rewrite find_label_dicts_not_configured by exact Hno. reflexivity.
  - rewrite Hps, find_label_dicts_configured, Hls by assumption. reflexivity.
Qed.

Lemma route_approvals_cast lds approvals votes :
  Forall2 (cast lds) approvals votes ->
  forall labels : gmap string Label,
    (forall n, is_Some (labels !! n) <-> exists ld, ld ∈ lds /\ ld_name ld = n) ->
    route_approvals labels approvals
    = ok (map_imap (fun n l => Some (with_votes (counted votes) n l)) labels).
Proof.
  induction 1 as [|a vote approvals votes Hcast _ IH]; intros labels Hdom.
  - simpl. f_equal. apply map_eq. intros n. rewrite map_lookup_imap.
    destruct (labels !! n) as [l|]; simpl; [|reflexivity].
    unfold with_votes. simpl. rewrite app_nil_r. destruct l; reflexivity.
  - destruct vote as [[m v]|].
    + destruct Hcast as [Hname [Hconf Hvalue]].
      cbn [route_approvals]. rewrite Hname. simpl.
      destruct (proj2 (Hdom m) Hconf) as [l Hm]. rewrite Hm. simpl.
      unfold add_approval. rewrite Hvalue. simpl. rewrite IH.
      * f_equal. apply map_eq. intros n. rewrite !map_lookup_imap.
        destruct (decide (m = n)) as [->|Hne].
        -- rewrite lookup_insert_eq, Hm. simpl. unfold with_votes. simpl.
           rewrite String.eqb_refl, <- app_assoc. reflexivity.
        -- rewrite lookup_insert_ne by exact Hne.
           destruct (labels !! n) as [l'|]; simpl; [|reflexivity].
           unfold with_votes. simpl.
           apply String.eqb_neq in Hne. rewrite Hne. reflexivity.
      * intros n. rewrite <- Hdom. destruct (decide (m = n)) as [->|Hne].
        -- rewrite lookup_insert_eq, Hm. split; eauto.
        -- rewrite lookup_insert_ne by exact Hne. reflexivity.
    + destruct Hcast as [key [Hname [Hhash Hother]]].
      cbn [route_approvals]. rewrite Hname. simpl.
      assert (Hget : labels_get labels key = ok None).
      { destruct key as [| | |s| |]; try reflexivity; try contradiction.
        simpl. destruct (labels !! s) as [l|] eqn:Hs; [|reflexivity].
        exfalso. destruct (proj1 (Hdom s) (ex_intro _ l Hs)) as [ld [Hin Hn]].
        apply (Hother ld Hin). rewrite Hn. reflexivity. }
      rewrite Hget. simpl. apply IH. exact Hdom.
Qed.

Lemma get_labels_for_upstream_names conf pj n :
  is_Some (get_labels_for_upstream conf pj !! n) <->
  exists ld, ld ∈ label_dicts_for conf pj /\ ld_name ld = n.
Proof.
  split.
  - intros [l Hl].
    destruct (get_labels_for_upstream_lookup _ _ _ _ Hl) as [ld [Hin [Hn _]]].
    eauto.
  - intros [ld [Hin <-]]. apply fold_add_label_obj_dom. exact Hin.
Qed.

Lemma effective_label conf pj ld :
  effective (label_dicts_for conf pj) ld ->
  get_labels_for_upstream conf pj !! ld_name ld
  = Some (Label_init (ld_name ld) (ld_min ld) (ld_max ld)).
Proof.
  intros [before [after [Hdicts Hafter]]]. unfold get_labels_for_upstream.
  rewrite Hdicts, fold_left_app. simpl.
  rewrite fold_add_label_obj_other by exact Hafter.
  unfold add_label_obj. apply lookup_insert_eq.
Qed.

Lemma last_declaration lds : forall ld,
  ld ∈ lds -> exists ld', effective lds ld' /\ ld_name ld' = ld_name ld.
Proof.
  induction lds as [|x rest IH]; intros ld Hin; [inversion Hin|].
  destruct (decide (Exists (fun y => ld_name y = ld_name ld) rest))
    as [Hex|Hno].
  - apply Exists_exists in Hex as [y [Hy Hname]].
    destruct (IH y Hy) as [ld' [[before [after [Heq Hafter]]] Hn]].
    exists ld'. split; [|congruence].
    exists (x :: before), after. split; [rewrite Heq; reflexivity|exact Hafter].
  - assert (Hrest : forall y, y ∈ rest -> ld_name y <> ld_name ld).
    { intros y Hy Hname. apply Hno. apply Exists_exists. eauto. }
    apply elem_of_cons in Hin as [Heq|Hin].
    + subst x. exists ld. split; [|reflexivity].
      exists [], rest. split; [reflexivity|exact Hrest].
    + exfalso. exact (Hrest ld Hin eq_refl).
Qed.

Lemma is_upstream_approved_cast self pj lds approvals votes :
  project self = ok pj ->
  labels_configured (_conf self) pj lds ->
  Forall2 (cast lds) approvals votes ->
  is_upstream_approved self approvals
  = ok (forallb approved
          (dict_values
             (map_imap (fun n l => Some (with_votes (counted votes) n l))
                       (get_labels_for_upstream (_conf self) pj)))).
Proof.
  intros Hpj Hconf Hcast. destruct (project_ok_change_id self pj Hpj) as [c Hc].
  apply labels_configured_dicts in Hconf.
  unfold is_upstream_approved. rewrite Hpj. simpl.
  rewrite (route_approvals_cast lds approvals votes Hcast).
  - simpl. rewrite for_each_ok; [reflexivity|]. intros _. rewrite Hc. reflexivity.
  - intros n. rewrite <- Hconf. apply get_labels_for_upstream_names.
Qed.

(** C2. For the label declarations that the configuration gives the
    project of the event, the gate answers true exactly when every label
    declared is approved on the votes cast under its name: a conjunction
    over the labels, true when none is declared. Approvals under other
    names do not count, whatever they hold: two lists of approvals with the
    same votes on the declared labels get the same answer. *)
Theorem is_upstream_approved_all_labels
    (self : CommentAdded) (pj : json) (lds : list LabelDict)
    (approvals : list Approval) (votes : list (option (string * Z))) :
  project self = ok pj ->
  labels_configured (_conf self) pj lds ->
  Forall2 (cast lds) approvals votes ->
  (exists b, is_upstream_approved self approvals = ok b /\
     (b = true <->
      forall ld, effective lds ld ->
        approved (mkLabel (ld_name ld) (ld_min ld) (ld_max ld)
                          (votes_for (ld_name ld) (counted votes))) = true)) /\
  (lds = [] -> is_upstream_approved self approvals = ok true) /\
  (forall approvals' votes',
     Forall2 (cast lds) approvals' votes' ->
     counted votes' = counted votes ->
     is_upstream_approved self approvals' = is_upstream_approved self approvals).
Proof.
  intros Hpj Hconf Hcast.
  pose proof (labels_configured_dicts _ _ _ Hconf) as Hdicts.
  assert (Hiff :
    forallb approved
      (dict_values
         (map_imap (fun n l => Some (with_votes (counted votes) n l))
                   (get_labels_for_upstream (_conf self) pj))) = true <->
    forall ld, effective lds ld ->
      approved (mkLabel (ld_name ld) (ld_min ld) (ld_max ld)
                        (votes_for (ld_name ld) (counted votes))) = true).
  { rewrite forallb_dict_values. split.
    - intros H ld Hld. rewrite <- Hdicts in Hld.
      apply (H (ld_name ld)). rewrite map_lookup_imap.
      rewrite (effective_label _ _ _ Hld). reflexivity.
    - intros H n x Hx. rewrite map_lookup_imap in Hx.
      destruct (get_labels_for_upstream (_conf self) pj !! n) as [l|] eqn:Hn;
        simpl in Hx; [|discriminate].
      injection Hx as <-.
      destruct (proj1 (get_labels_for_upstream_names _ _ n) (ex_intro _ l Hn))
        as [ld [Hin Hname]].
      destruct (last_declaration _ ld Hin) as [ld' [Heff Hname']].
      pose proof (effective_label _ _ _ Heff) as Hl.
      rewrite Hname', Hname, Hn in Hl. injection Hl as ->.
      rewrite Hdicts in Heff. specialize (H ld' Heff).
      rewrite Hname', Hname in H. exact H. }
  split_and!.
  - eexists. split; [exact (is_upstream_approved_cast self pj lds approvals
                              votes Hpj Hconf Hcast)|].
    exact Hiff.
  - intros ->.
    rewrite (is_upstream_approved_cast self pj [] approvals votes Hpj Hconf
               Hcast).
    f_equal. apply Hiff. intros ld [before [after [Heq _]]].
    destruct before; discriminate Heq.
  - intros approvals' votes' Hcast' Hsame.
    rewrite (is_upstream_approved_cast self pj lds approvals votes Hpj Hconf
               Hcast).
    rewrite (is_upstream_approved_cast self pj lds approvals' votes' Hpj Hconf
               Hcast').
    rewrite Hsame. reflexivity.
Qed.

(** ** The approval fetch *)

Section Fetch.
Variable MultiJSON : string -> res (list json).
Variable py_str : json -> string.
Variable self : CommentAdded.
Variables downstream upstream : Remote.

Definition approvals_query : res string :=
  query_cmd py_str self " --all-approvals limit:1 --format JSON".

(** The fetch failed before any approval was read: the command channel
    raised, the command ended with a non-zero status, its output could not
    be parsed, held no object, or its first object has no list of patch
    sets. *)
Inductive fetch_failed : response -> Prop :=
| fetch_raised e : fetch_failed (Fail e)
| fetch_status retcode out : retcode <> 0 -> fetch_failed (Exit retcode out)
| fetch_unparsed out e : MultiJSON out = raise e -> fetch_failed (Exit 0 out)
| fetch_no_object out : MultiJSON out = ok [] -> fetch_failed (Exit 0 out)
| fetch_no_patchsets out j js e :
    MultiJSON out = ok (j :: js) ->
    (let? ps := py_getitem j "patchSets" in py_iter ps) = raise e ->
    fetch_failed (Exit 0 out).

Lemma query_cmd_change_id options cmd :
  query_cmd py_str self options = ok cmd -> exists c, change_id self = ok c.
Proof.
  unfold query_cmd. destruct (change_id self) as [e|c]; simpl; [discriminate|].
  eauto.
Qed.

Lemma get_approvals_returns cmd w :
  approvals_query = ok cmd ->
  exists approvals,
    get_approvals MultiJSON py_str self downstream w
    = (ok approvals, after_call (SshExec downstream cmd) w).
Proof.
  intros Hq. destruct (query_cmd_change_id _ _ Hq) as [c Hc].
  unfold approvals_query in Hq.
  unfold get_approvals, bind, lift. rewrite Hq.
  unfold exec_once, bind, call, ret, throw.
  destruct (responses w 0) as [retcode out|e]; simpl.
  - destruct (parse_approvals MultiJSON self retcode out) as [approvals [e|[]]].
    + rewrite Hc. eauto.
    + eauto.
  - rewrite Hc. eauto.
Qed.

Lemma get_approvals_failed cmd w :
  approvals_query = ok cmd ->
  fetch_failed (responses w 0) ->
  get_approvals MultiJSON py_str self downstream w
  = (ok [], after_call (SshExec downstream cmd) w).
Proof.
  intros Hq Hfail. destruct (query_cmd_change_id _ _ Hq) as [c Hc].
  unfold approvals_query in Hq.
  unfold get_approvals, bind, lift. rewrite Hq.
  unfold exec_once, bind, call, ret, throw.
  destruct Hfail as [e|retcode out Hrc|out e Hp|out Hp|out j js e Hp Hps];
    simpl; unfold parse_approvals; simpl.
  - rewrite Hc. reflexivity.
  - apply Z.eqb_neq in Hrc. rewrite Hrc. simpl. rewrite Hc. reflexivity.
  - rewrite Hp. simpl. rewrite Hc. reflexivity.
  - rewrite Hp. simpl. rewrite Hc. reflexivity.
  - rewrite Hp. simpl. simpl in Hps. rewrite Hps. rewrite Hc. reflexivity.
Qed.

Lemma is_upstream_approved_no_votes pj :
  project self = ok pj ->
  label_dicts_for (_conf self) pj <> [] ->
  is_upstream_approved self [] = ok false.
Proof.
  intros Hpj Hlabels.
  rewrite (is_upstream_approved_votes self pj [] [] Hpj (List.Forall2_nil _)).
  f_equal. apply not_true_is_false. intros Hall.
  destruct (label_dicts_for (_conf self) pj) as [|ld lds] eqn:E; [congruence|].
  assert (Hin : ld ∈ label_dicts_for (_conf self) pj) by (rewrite E; left).
  destruct (fold_add_label_obj_dom _ ∅ ld Hin) as [l Hl].
  fold (get_labels_for_upstream (_conf self) pj) in Hl.
  destruct (get_labels_for_upstream_lookup _ _ _ _ Hl) as [ld' [_ [_ Hl']]].
  pose proof (proj1 (forallb_dict_values _ _) Hall (ld_name ld)
                (with_votes [] (ld_name ld) l)) as H.
  rewrite map_lookup_imap, Hl in H. specialize (H eq_refl).
  subst l. discriminate H.
Qed.

Lemma send_upstream_not_approved approvals w w1 :
  is_upstream_project self = ok true ->
  is_upstream_indicated self = ok true ->
  get_approvals MultiJSON py_str self downstream w = (ok approvals, w1) ->
  is_upstream_approved self approvals = ok false ->
  send_upstream MultiJSON py_str self downstream upstream w
  = post_review py_str self downstream msg_not_approved w1.
Proof.
  intros Hp Hi Hg Ha. destruct (is_upstream_project_change_id self Hp) as [c Hc].
  unfold send_upstream, bind, lift. rewrite Hp. cbn [negb ok].
  rewrite Hi. cbn [negb ok]. rewrite Hg. cbn [ok]. rewrite Ha. cbn [negb ok].
  rewrite Hc. reflexivity.
Qed.

End Fetch.

(** ** The transfer block *)

(** A computation that neither creates nor removes a directory, and only
    adds to the trace. *)
Definition steady {A} (m : M A) : Prop :=
  forall w, dirs (snd (m w)) = dirs w /\
            exists t, trace (snd (m w)) = (trace w ++ t)%list.

Lemma steady_ret {A} (a : A) : steady (ret a).
Proof. intros w. split; [reflexivity|]. exists []. simpl. by rewrite app_nil_r. Qed.

Lemma steady_throw {A} (e : exn) : steady (@throw A e).
Proof. intros w. split; [reflexivity|]. exists []. simpl. by rewrite app_nil_r. Qed.

Lemma steady_lift {A} (r : res A) : steady (lift r).
Proof. intros w. split; [reflexivity|]. exists []. simpl. by rewrite app_nil_r. Qed.

Lemma steady_bind {A B} (m : M A) (k : A -> M B) :
  steady m -> (forall a, steady (k a)) -> steady (bind m k).
Proof.
  intros Hm Hk w. unfold bind. destruct (Hm w) as [Hd [t Ht]].
  destruct (m w) as [[e|a] w1]; simpl in *.
  - split; [exact Hd|]. eauto.
  - destruct (Hk a w1) as [Hd' [t' Ht']]. split; [congruence|].
    exists (t ++ t')%list. rewrite Ht', Ht, app_assoc. reflexivity.
Qed.

Lemma steady_call a : steady (call a).
Proof. intros w. split; [reflexivity|]. exists [a]. reflexivity. Qed.

Lemma steady_chdir path : steady (chdir path).
Proof.
  intros w. unfold chdir. case_bool_decide; simpl.
  - split; [reflexivity|]. eauto.
  - split; [reflexivity|]. exists []. by rewrite app_nil_r.
Qed.

Lemma steady_try_except {A} (body : M A) handler :
  steady body -> (forall e h, handler e = Some h -> steady h) ->
  steady (try_except body handler).
Proof.
  intros Hb Hh w. unfold try_except. destruct (Hb w) as [Hd [t Ht]].
  destruct (body w) as [[e|a] w1]; simpl in *; [|split; eauto].
  destruct (handler e) as [h|] eqn:E; simpl; [|split; eauto].
  destruct (Hh e h E w1) as [Hd' [t' Ht']]. split; [congruence|].
  exists (t ++ t')%list. rewrite Ht', Ht, app_assoc. reflexivity.
Qed.

Lemma steady_try_tracking_out stage1 stage2 stage3 handler :
  steady stage1 -> (forall out, steady (stage2 out)) ->
  (forall out, steady (stage3 out)) ->
  (forall e out, steady (handler e out)) ->
  steady (try_tracking_out stage1 stage2 stage3 handler).
Proof.
  intros H1 H2 H3 Hh w. unfold try_tracking_out.
  destruct (H1 w) as [Hd1 [t1 Ht1]].
  destruct (stage1 w) as [[e|out1] w1]; simpl in *.
  { destruct (Hh e None w1) as [Hd [t Ht]]. split; [congruence|].
    exists (t1 ++ t)%list. rewrite Ht, Ht1, app_assoc. reflexivity. }
  destruct (H2 out1 w1) as [Hd2 [t2 Ht2]].
  destruct (stage2 out1 w1) as [[e|out2] w2]; simpl in *.
  { destruct (Hh e (Some out1) w2) as [Hd [t Ht]]. split; [congruence|].
    exists (t1 ++ t2 ++ t)%list. rewrite Ht, Ht2, Ht1, !app_assoc. reflexivity. }
  destruct (H3 out2 w2) as [Hd3 [t3 Ht3]].
  destruct (stage3 out2 w2) as [[e|[]] w3]; simpl in *.
  { destruct (Hh e (Some out2) w3) as [Hd [t Ht]]. split; [congruence|].
    exists (t1 ++ t2 ++ t3 ++ t)%list.
    rewrite Ht, Ht3, Ht2, Ht1, !app_assoc. reflexivity. }
  split; [congruence|]. exists (t1 ++ t2 ++ t3)%list.
  rewrite Ht3, Ht2, Ht1, !app_assoc. reflexivity.
Qed.

Create HintDb steady.
#[export] Hint Resolve steady_ret steady_throw steady_lift steady_call
  steady_chdir : steady.

Ltac steady_step :=
  first
    [ apply steady_bind; [|intros ?]
    | apply steady_try_except; [|intros ? ? ?]
    | apply steady_try_tracking_out; [|intros ?|intros ?|intros ? ?]
    | solve [auto with steady]
    | match goal with
      | |- steady (match ?x with _ => _ end) => destruct x
      | |- steady (if ?b then _ else _) => destruct b
      | H : Some _ = Some _ |- _ => injection H as <-
      end ].

Ltac steady_auto := repeat steady_step.

Lemma steady_exec_once remote cmd : steady (exec_once remote cmd).
Proof. unfold exec_once. steady_auto. Qed.

Lemma steady_git_cmd args : steady (git_cmd args).
Proof. unfold git_cmd. steady_auto. Qed.

Lemma steady_check_output args : steady (check_output args).
Proof. unfold check_output. steady_auto. Qed.

#[export] Hint Resolve steady_exec_once steady_git_cmd steady_check_output
  : steady.

Section Transfer.
Variable MultiJSON : string -> res (list json).
Variable py_str : json -> string.
Variable self : CommentAdded.
Variables downstream upstream : Remote.

Lemma steady_post_review ssh msg : steady (post_review py_str self ssh msg).
Proof. unfold post_review. steady_auto. Qed.

Lemma steady_get_upstream_url : steady (get_upstream_url MultiJSON py_str self upstream).
Proof. unfold get_upstream_url. steady_auto. Qed.

Hint Resolve steady_post_review steady_get_upstream_url : steady.

Lemma steady_transfer_handler ssh e out :
  steady (transfer_handler py_str self ssh e out).
Proof. unfold transfer_handler. steady_auto. Qed.

Lemma steady_download_change email name :
  steady (download_change py_str self email name).
Proof. unfold download_change, set_config. steady_auto. Qed.

Lemma steady_upload_change out : steady (upload_change self out).
Proof. unfold upload_change. steady_auto. Qed.

Lemma steady_report_sent ssh out :
  steady (report_sent MultiJSON py_str self ssh upstream out).
Proof. unfold report_sent. steady_auto. Qed.

Hint Resolve steady_transfer_handler steady_download_change
  steady_upload_change steady_report_sent : steady.

Lemma steady_transfer ssh repo_dir :
  steady (transfer MultiJSON py_str self ssh downstream upstream repo_dir).
Proof. unfold transfer, git_init, add_remote. steady_auto. Qed.

(** The [finally] clause after a steady block: the working directory is
    restored and the scratch directory removed, whatever the block did. *)
Lemma try_finally_cleanup {A} (body : M A) (old repo : string) (w : World) :
  steady body -> old ∈ dirs w -> repo ∈ dirs w ->
  let w' := snd (try_finally body (cleanup old repo) w) in
  cwd w' = old /\ dirs w' = dirs w ∖ {[repo]} /\
  exists t, trace w' = (trace w ++ t ++ [Chdir old; Rmtree repo])%list.
Proof.
  intros Hbody Hold Hrepo. unfold try_finally.
  destruct (Hbody w) as [Hd [t Ht]].
  destruct (body w) as [r w1]. simpl in Hd, Ht.
  unfold cleanup, bind, chdir, rmtree. rewrite Hd.
  rewrite (bool_decide_eq_true_2 _ Hold). simpl. rewrite Hd.
  rewrite (bool_decide_eq_true_2 _ Hrepo). simpl.
  split; [reflexivity|]. split; [congruence|].
  exists t. rewrite Ht, <- !app_assoc. reflexivity.
Qed.

End Transfer.

(** ** [send_upstream]: reaching the transfer block *)

Section Propagation.
Variable MultiJSON : string -> res (list json).
Variable py_str : json -> string.
Variable self : CommentAdded.
Variables downstream upstream : Remote.

Lemma get_approvals_fst_ok approvals w :
  fst (get_approvals MultiJSON py_str self downstream w) = ok approvals ->
  exists cmd,
    approvals_query py_str self = ok cmd /\
    get_approvals MultiJSON py_str self downstream w
    = (ok approvals, after_call (SshExec downstream cmd) w).
Proof.
  intros H. destruct (approvals_query py_str self) as [e|cmd] eqn:Hq.
  - unfold approvals_query in Hq.
    unfold get_approvals, bind, lift in H. rewrite Hq in H. discriminate H.
  - exists cmd. split; [reflexivity|].
    destruct (get_approvals_returns MultiJSON py_str self downstream cmd w Hq)
      as [approvals' Hg].
    rewrite Hg in H. simpl in H. injection H as ->. exact Hg.
Qed.

(** Past the three gates [send_upstream] is the transfer block under its
    [finally], run in the world [w1] left by the approval query, once the
    scratch directory is there. *)
Lemma send_upstream_enters_transfer approvals w w1 :
  is_upstream_project self = ok true ->
  is_upstream_indicated self = ok true ->
  get_approvals MultiJSON py_str self downstream w = (ok approvals, w1) ->
  is_upstream_approved self approvals = ok true ->
  (scratch_dir w1 ∈ dirs w1 ->
   send_upstream MultiJSON py_str self downstream upstream w
   = try_finally
       (transfer MultiJSON py_str self downstream downstream upstream
                 (scratch_dir w1))
       (cleanup (cwd w1) (scratch_dir w1)) w1) /\
  (scratch_dir w1 ∉ dirs w1 ->
   forall status out, responses w1 0 = Exit status out ->
   send_upstream MultiJSON py_str self downstream upstream w
   = try_finally
       (transfer MultiJSON py_str self downstream downstream upstream
                 (scratch_dir w1))
       (cleanup (cwd w1) (scratch_dir w1))
       (after_mkdir (scratch_dir w1) (after_call (Makedirs (scratch_dir w1)) w1))) /\
  (scratch_dir w1 ∉ dirs w1 ->
   forall e, responses w1 0 = Fail e ->
   send_upstream MultiJSON py_str self downstream upstream w
   = (raise e,
      after_mkdir_failed (scratch_dir w1)
        (after_call (Makedirs (scratch_dir w1)) w1))).
Proof.
  intros Hp Hi Hg Ha. destruct (is_upstream_project_change_id self Hp) as [c Hc].
  unfold send_upstream, bind, lift. rewrite Hp. cbn [negb ok].
  rewrite Hi. cbn [negb ok]. rewrite Hg. cbn [ok]. rewrite Ha. cbn [negb ok].
  rewrite Hc. unfold expand_tmp, uuid4, isdir, getcwd. cbn [ok fst snd].
  fold (scratch_dir w1). split_and!.
  - intros Hin. rewrite (bool_decide_eq_true_2 _ Hin). reflexivity.
  - intros Hnot status out Hr. rewrite (bool_decide_eq_false_2 _ Hnot).
    cbn [negb]. unfold makedirs, bind, call. rewrite Hr. reflexivity.
  - intros Hnot e Hr. rewrite (bool_decide_eq_false_2 _ Hnot).
    cbn [negb]. unfold makedirs, bind, call. rewrite Hr. reflexivity.
Qed.

End Propagation.


(** ** Bytes beside text *)

Lemma append_cons c s t : String c s +:+ t = String c (s +:+ t).
Proof. reflexivity. Qed.

Lemma is_ascii_app a b : is_ascii (a +:+ b) = is_ascii a && is_ascii b.
Proof.
  induction a as [|c a IH]; [reflexivity|].
  rewrite append_cons. cbn [is_ascii]. rewrite IH, andb_assoc. reflexivity.
Qed.

Lemma is_ascii_replace_squote s : is_ascii (replace_squote s) = is_ascii s.
Proof.
  induction s as [|c s IH]; [reflexivity|]. cbn [replace_squote is_ascii].
  destruct (Nat.eqb (nat_of_ascii c) 39) eqn:E.
  - apply Nat.eqb_eq in E. rewrite !is_ascii_app, IH, E. reflexivity.
  - cbn [is_ascii]. rewrite IH. reflexivity.
Qed.

(** [pipes.quote] adds ASCII characters only. *)
Lemma is_ascii_quote s : is_ascii (quote s) = is_ascii s.
Proof.
  unfold quote. destruct (forallb safechar (list_ascii_of_string s)).
  - destruct s; reflexivity.
  - rewrite !is_ascii_app, is_ascii_replace_squote, andb_true_r. reflexivity.
Qed.

(** The command of the failure comment is formatted exactly when the
    captured output can stand beside the revision. *)
Lemma decode_beside_failure rev out :
  decode_beside rev (quote (msg_failed (Some out))) = decode_beside rev out.
Proof.
  unfold decode_beside, msg_failed. cbn [default id].
  rewrite is_ascii_quote, !is_ascii_app. reflexivity.
Qed.

Lemma decode_beside_ok v bytes :
  (is_text v = true -> is_ascii bytes = true) -> decode_beside v bytes = ok tt.
Proof.
  intros H. unfold decode_beside. destruct (is_text v); [|reflexivity].
  rewrite (H eq_refl). reflexivity.
Qed.

Lemma decode_beside_fails v bytes :
  is_text v = true -> is_ascii bytes = false ->
  decode_beside v bytes = raise UnicodeDecodeError.
Proof. intros Hv Hb. unfold decode_beside. rewrite Hv, Hb. reflexivity. Qed.

(** ** The transfer block, step by step *)

(** A call that ended with exit status 0. *)
Definition succeeded (r : response) : Prop := exists out, r = Exit 0 out.

Definition review_args_download (py_str : json -> string) (cid : json) (pid : Z)
  : list string :=
  ["git-review"; "-r"; "downstream"; "-d";
   py_str cid +:+ "," +:+ py_str (JInt pid)].

Definition url_text (user : string) (remote : Remote) (pj : string) : string :=
  "ssh://" +:+ user +:+ "@" +:+ host remote +:+ ":" +:+ port remote +:+ "/" +:+ pj.

Ltac world_simpl :=
  cbn [responses cwd dirs tmp_root uuid mkdir_done trace
       after_call after_chdir after_mkdir after_mkdir_failed after_rmtree
       str_args rbind ok raise fst snd negb].

Section Steps.
Variable MultiJSON : string -> res (list json).
Variable py_str : json -> string.
Variable self : CommentAdded.
Variables downstream upstream : Remote.

(** The calls of the transfer block up to the registration of the two
    remotes. *)
Definition setup_calls (repo_dir user : string) (pj : json) : list action :=
  [Chdir repo_dir;
   GitCmd ["git"; "init"];
   GitCmd ["git"; "remote"; "add"; "downstream";
           url_text (username downstream) downstream (py_str pj)];
   GitCmd ["git"; "remote"; "add"; "upstream";
           url_text user upstream (py_str pj)]].

Definition after_setup (repo_dir user : string) (pj : json) (w : World) : World :=
  after_call (GitCmd ["git"; "remote"; "add"; "upstream";
                      url_text user upstream (py_str pj)])
    (after_call (GitCmd ["git"; "remote"; "add"; "downstream";
                         url_text (username downstream) downstream (py_str pj)])
       (after_call (GitCmd ["git"; "init"]) (after_chdir repo_dir w))).

Lemma after_setup_trace repo_dir user pj w :
  trace (after_setup repo_dir user pj w)
  = (trace w ++ setup_calls repo_dir user pj)%list.
Proof. simpl. rewrite <- !app_assoc. reflexivity. Qed.

Lemma transfer_setup ssh repo_dir w pj user name_ email_ :
  repo_dir ∈ dirs w ->
  project self = ok pj ->
  push_identity py_str self upstream = ok (user, name_, email_) ->
  succeeded (responses w 0%nat) ->
  succeeded (responses w 1%nat) ->
  succeeded (responses w 2%nat) ->
  transfer MultiJSON py_str self ssh downstream upstream repo_dir w
  = try_tracking_out
      (download_change py_str self email_ name_)
      (upload_change self)
      (report_sent MultiJSON py_str self ssh upstream)
      (transfer_handler py_str self ssh)
      (after_setup repo_dir user pj w).
Proof.
  intros Hin Hpj Hid [o0 H0] [o1 H1] [o2 H2].
  destruct (project_ok_change_id self pj Hpj) as [c Hc].
  unfold transfer, bind, chdir. rewrite (bool_decide_eq_true_2 _ Hin).
  unfold git_init, add_remote, git_cmd, bind, lift, call, ret, remote_url.
  world_simpl. rewrite H0, Hpj. world_simpl.
  rewrite H1, Hid. world_simpl.
  rewrite H2, Hc. reflexivity.
Qed.

End Steps.

Section Outcomes.
Variable MultiJSON : string -> res (list json).
Variable py_str : json -> string.
Variable self : CommentAdded.
Variables downstream upstream : Remote.

Definition config_email_call (email : string) : action :=
  GitCmd ["git"; "config"; "user.email"; email].

Definition config_name_call (name : string) : action :=
  GitCmd ["git"; "config"; "user.name"; name].

(** The world in which the download of the inner [try] has been
    answered. *)
Definition download_answered (w : World) (email name : string) (cid : json)
    (pid : Z) : World :=
  after_call (CheckOutput (review_args_download py_str cid pid))
    (after_call (config_name_call name)
       (after_call (config_email_call email) w)).

(** The inner [try] when the download ends with a non-zero status: nothing
    is uploaded. When the captured output can stand beside the revision,
    the failure is posted and the handler stops at its last message, where
    the local [out] is read before any assignment; otherwise formatting
    the command raises and nothing is posted. *)
Lemma download_failure_handled ssh w email name cid pid rev status out :
  change_id self = ok cid ->
  patchset_id self = ok pid ->
  revision self = ok rev ->
  succeeded (responses w 0%nat) ->
  succeeded (responses w 1%nat) ->
  responses w 2%nat = Exit status out ->
  status <> 0 ->
  try_tracking_out
    (download_change py_str self (JStr email) (JStr name))
    (upload_change self)
    (report_sent MultiJSON py_str self ssh upstream)
    (transfer_handler py_str self ssh) w
  = match decode_beside rev out with
    | inl e => (inl e, download_answered w email name cid pid)
    | inr _ =>
        (match responses w 3%nat with
         | Exit _ _ => raise UnboundLocalError
         | Fail e => raise e
         end,
         after_call (SshExec ssh (review_cmd py_str (msg_failed (Some out)) rev))
           (download_answered w email name cid pid))
    end.
Proof.
  intros Hc Hpid Hrev [o0 H0] [o1 H1] H2 Hstatus.
  unfold try_tracking_out, download_change, set_config, git_cmd, check_output,
    bind, lift, call, ret, throw.
  world_simpl. rewrite H0. world_simpl. rewrite H1, Hc, Hpid. world_simpl.
  rewrite H2.
  destruct status as [|p|p]; [congruence| |];
    unfold transfer_handler, exec_once, bind, lift, call, ret, throw;
    rewrite Hrev, Hc; world_simpl;
    rewrite decode_beside_failure;
    (destruct (decode_beside rev out); [reflexivity|]);
    world_simpl; destruct (responses w 3%nat); reflexivity.
Qed.

(** The event names no user for the owner: the configured identity is
    taken, whatever name and email the owner record holds. *)
Lemma push_identity_without_username c o :
  _data self !! "change" = Some (JDict c) ->
  c !! "owner" = Some (JDict o) ->
  o !! "username" = None ->
  push_identity py_str self upstream
  = ok (username upstream,
        JStr (conf_git_name (_conf self)),
        JStr (conf_git_email (_conf self))).
Proof.
  intros Hchange Howner Huser.
  unfold push_identity, change_owner_username, change_owner_name,
    change_owner_email, change_owner, change_id, dict_getitem.
  rewrite Hchange. simpl. unfold dict_getitem. rewrite Howner. simpl.
  rewrite Huser. reflexivity.
Qed.

Lemma try_tracking_out_stage1 stage1 stage1' w w' stage2 stage3 handler :
  stage1 w = stage1' w' ->
  try_tracking_out stage1 stage2 stage3 handler w
  = try_tracking_out stage1' stage2 stage3 handler w'.
Proof. intros H. unfold try_tracking_out. rewrite H. reflexivity. Qed.

(** What is left of [download_change] once the email is configured and
    [git config user.name] has been answered by [r]. *)
Definition download_after_config (r : response) : M string :=
  do_ (match r with
       | Exit 0 _ => ret tt
       | Exit _ _ => throw (CalledProcessError None)
       | Fail e => throw e
       end);
  do cid <- lift (change_id self);
  do pid <- lift (patchset_id self);
  do_ lift (change_id self);
  check_output (review_args_download py_str cid pid).

Lemma steady_download_after_config r : steady (download_after_config r).
Proof. unfold download_after_config. steady_auto. Qed.

Lemma download_change_configures email name w :
  succeeded (responses w 0%nat) ->
  download_change py_str self (JStr email) (JStr name) w
  = download_after_config (responses w 1%nat)
      (after_call (config_name_call name)
         (after_call (config_email_call email) w)).
Proof.
  intros [o0 H0].
  unfold download_change, download_after_config, set_config, git_cmd, bind,
    lift, call, ret, throw.
  world_simpl. rewrite H0. reflexivity.
Qed.

(** Calls made once both remotes are registered and the email is
    configured: the two [git config] calls come first. *)
Lemma transfer_configures_identity ssh w email name :
  succeeded (responses w 0%nat) ->
  exists t,
    trace (snd (try_tracking_out
                  (download_change py_str self (JStr email) (JStr name))
                  (upload_change self)
                  (report_sent MultiJSON py_str self ssh upstream)
                  (transfer_handler py_str self ssh) w))
    = (trace w ++ [config_email_call email; config_name_call name] ++ t)%list.
Proof.
  intros H0.
  rewrite (try_tracking_out_stage1 _ _ _ _ _ _ _
             (download_change_configures email name w H0)).
  edestruct (steady_try_tracking_out
               (download_after_config (responses w 1%nat))
               (upload_change self)
               (report_sent MultiJSON py_str self ssh upstream)
               (transfer_handler py_str self ssh)) as [_ [t Ht]].
  - apply steady_download_after_config.
  - apply steady_upload_change.
  - apply steady_report_sent.
  - intros e out. apply steady_transfer_handler.
  - exists t. rewrite Ht. simpl. rewrite <- !app_assoc. reflexivity.
Qed.

Lemma try_finally_trace {A} (body : M A) old repo w :
  exists t,
    trace (snd (try_finally body (cleanup old repo) w))
    = (trace (snd (body w)) ++ t)%list.
Proof.
  unfold try_finally, cleanup, bind, chdir, rmtree.
  destruct (body w) as [r w1]. simpl.
  case_bool_decide; simpl; [|exists []; by rewrite app_nil_r].
  case_bool_decide; simpl.
  - exists [Chdir old; Rmtree repo]. rewrite <- app_assoc. reflexivity.
  - exists [Chdir old]. reflexivity.
Qed.

End Outcomes.


(** C3, as the code has it. For an event whose change id, branch and
    project can be read, [get_approvals] never raises; when the fetch fails
    before any approval is read it returns the empty list; with no approval
    and at least one label configured the evaluation gate answers false,
    and [send_upstream] then makes no call beyond the query and the comment
    that the labels are not approved: nothing is transferred. *)
Theorem fetch_failure_blocks_upstream
    (MultiJSON : string -> res (list json)) (py_str : json -> string)
    (self : CommentAdded) (downstream upstream : Remote) (w : World)
    (cmd : string) (pj : json) :
  approvals_query py_str self = ok cmd ->
  project self = ok pj ->
  (exists approvals,
     get_approvals MultiJSON py_str self downstream w
     = (ok approvals, after_call (SshExec downstream cmd) w)) /\
  (fetch_failed MultiJSON (responses w 0%nat) ->
     get_approvals MultiJSON py_str self downstream w
     = (ok [], after_call (SshExec downstream cmd) w) /\
     (label_dicts_for (_conf self) pj <> [] ->
        is_upstream_approved self [] = ok false /\
        (is_upstream_project self = ok true ->
         is_upstream_indicated self = ok true ->
         let w' := snd (send_upstream MultiJSON py_str self downstream upstream w) in
         cwd w' = cwd w /\ dirs w' = dirs w /\
         (trace w' = (trace w ++ [SshExec downstream cmd])%list \/
          exists rev,
            trace w' = (trace w ++ [SshExec downstream cmd;
                          SshExec downstream
                            (review_cmd py_str msg_not_approved rev)])%list)))).
Proof.
  intros Hq Hpj. split.
  - apply get_approvals_returns. exact Hq.
  - intros Hfail.
    pose proof (get_approvals_failed MultiJSON py_str self downstream cmd w
                  Hq Hfail) as Hg.
    split; [exact Hg|]. intros Hlabels.
    pose proof (is_upstream_approved_no_votes self pj Hpj Hlabels) as Ha.
    split; [exact Ha|]. intros Hp Hi w'. subst w'.
    rewrite (send_upstream_not_approved MultiJSON py_str self downstream
               upstream [] w _ Hp Hi Hg Ha).
    unfold post_review, exec_once, bind, lift, call, ret, throw.
    destruct (revision self) as [e|rev]; world_simpl.
    + split; [reflexivity|]. split; [reflexivity|]. left. reflexivity.
    + split; [destruct (responses w 1%nat); reflexivity|].
      split; [destruct (responses w 1%nat); reflexivity|].
      right. exists rev. destruct (responses w 1%nat); world_simpl;
        rewrite <- app_assoc; reflexivity.
Qed.

(** * Scenarios *)

(** [str] on the scalars, enough for the events below. *)
Definition str_of_scalar (v : json) : string :=
  match v with
  | JStr s => s
  | JInt n => pretty n
  | JBool true => "True"
  | JBool false => "False"
  | _ => "None"
  end.

Definition code_review_plus2 : Approval :=
  JDict {[ "type" := JStr "Code-Review"; "value" := JStr "2" ]}.

Definition patchset_3 : json :=
  JDict {[ "number" := JStr "3"; "approvals" := JList [code_review_plus2] ]}.

(** Query outputs by name: a change approved on patch set 3, and the same
    followed by a patch set that is no record. *)
Definition canned_MultiJSON (out : string) : res (list json) :=
  if String.eqb out "approved" then
    ok [JDict {[ "patchSets" := JList [patchset_3] ]}; JDict ∅]
  else if String.eqb out "partial" then
    ok [JDict {[ "patchSets" := JList [patchset_3; JNull] ]}; JDict ∅]
  else raise ValueError.

Definition demo_conf : Conf :=
  mkConf
    [ mkProjectDict "demo" (Some true) (Some [mkLabelDict "Code-Review" (-2) 2]);
      mkProjectDict "docs" None None;
      mkProjectDict "plain" (Some true) (Some []) ]
    None "Upstream-Ready+1" "Gerrit Service" "service@example.org".

(** An owner known by name and email only. *)
Definition owner_without_username : gmap string json :=
  {[ "name" := JStr "Ann"; "email" := JStr "ann@example.org" ]}.

Definition change_of (project_name : string) : gmap string json :=
  {[ "id" := JStr "I42"; "project" := JStr project_name;
     "branch" := JStr "master"; "topic" := JStr "fix";
     "owner" := JDict owner_without_username ]}.

Definition event_of (project_name : string) (comment_field : option string)
  : CommentAdded :=
  let fields : gmap string json :=
    {[ "change" := JDict (change_of project_name);
       "patchSet" := JDict {[ "number" := JStr "3"; "revision" := JStr "abc123" ]} ]} in
  mkCommentAdded
    (match comment_field with
     | Some text => <["comment" := JStr text]> fields
     | None => fields
     end)
    demo_conf.

Definition ready_comment : string := "Upstream-Ready+1" +:+ nl +:+ "lgtm".
Definition late_comment : string := "lgtm" +:+ nl +:+ "Upstream-Ready+1".

Definition demo_event : CommentAdded := event_of "demo" (Some ready_comment).

Definition gerrit_down : Remote :=
  mkRemote "review.example.org" "29418" "10" "service" None "60".

Definition gerrit_up : Remote :=
  mkRemote "upstream.example.org" "29418" "10" "mirror" None "60".

(** A world whose first responses are [rs]; later calls succeed. *)
Definition world_of (rs : list response) : World :=
  mkWorld (fun n => nth n rs (Exit 0 "")) "/srv/gerrit" {[ "/srv/gerrit" ]}
          "/home/gerrit/tmp" "1b4e28ba" 2 [].

(** Scenario C: everything works until the download. *)
Definition download_fails : World :=
  world_of [Exit 0 "approved"; Exit 0 ""; Exit 0 ""; Exit 0 ""; Exit 0 "";
            Exit 0 ""; Exit 0 ""; Exit 1 "fatal: change not found"].

Definition is_upload (a : action) : bool :=
  match a with
  | CheckOutput ("git-review" :: "-R" :: _) => true
  | _ => false
  end.

Example scenario_B :
  is_upstream_indicated demo_event = ok true /\
  is_upstream_indicated (event_of "demo" (Some late_comment)) = ok false.
Proof. split; vm_compute; reflexivity. Qed.

Example scenario_A_gate :
  is_upstream_approved demo_event [code_review_plus2] = ok true /\
  is_upstream_approved demo_event
    [code_review_plus2;
     JDict {[ "type" := JStr "Code-Review"; "value" := JStr "-2" ]}] = ok false.
Proof. split; vm_compute; reflexivity. Qed.

Lemma votes_read : Forall2 reads_as [code_review_plus2] [("Code-Review", 2)].
Proof. repeat constructor. Qed.

(** An approval under a name that is not configured, with a value that
    is no number. *)
Definition stray_approval : Approval :=
  JDict {[ "type" := JStr "Verified"; "value" := JStr "n/a" ]}.

Lemma demo_labels_configured :
  labels_configured demo_conf (JStr "demo") [mkLabelDict "Code-Review" (-2) 2].
Proof.
  left. exists (mkProjectDict "demo" (Some true)
                  (Some [mkLabelDict "Code-Review" (-2) 2])).
  split; [|reflexivity].
  exists [], [mkProjectDict "docs" None None;
              mkProjectDict "plain" (Some true) (Some [])].
  split; [reflexivity|]. split; [|reflexivity]. intros q Hq. inversion Hq.
Qed.

Lemma demo_votes_cast :
  Forall2 (cast [mkLabelDict "Code-Review" (-2) 2])
          [code_review_plus2; stray_approval]
          [Some ("Code-Review", 2); None].
Proof.
  constructor; [|constructor; [|constructor]].
  - split; [reflexivity|]. split; [|reflexivity].
    exists (mkLabelDict "Code-Review" (-2) 2). split; [left|reflexivity].
  - exists (JStr "Verified"). split; [reflexivity|]. split; [exact I|].
    intros ld Hld. apply list_elem_of_singleton in Hld. subst ld. discriminate.
Qed.

Lemma is_upstream_approved_all_labels_witness :
  is_upstream_approved demo_event [code_review_plus2; stray_approval] = ok true.
Proof.
  destruct (is_upstream_approved_all_labels demo_event (JStr "demo")
              [mkLabelDict "Code-Review" (-2) 2]
              [code_review_plus2; stray_approval]
              [Some ("Code-Review", 2); None]
              eq_refl demo_labels_configured demo_votes_cast)
    as [[b [Hb Hiff]] _].
  rewrite Hb. f_equal. apply Hiff. intros ld [before [after [Heq _]]].
  destruct before as [|x before].
  - injection Heq as <- _. reflexivity.
  - destruct before; discriminate Heq.
Defined.

Lemma send_upstream_skips_other_projects_witness :
  send_upstream canned_MultiJSON str_of_scalar
    (event_of "docs" (Some ready_comment)) gerrit_down gerrit_up (world_of [])
  = (ok tt, world_of []).
Proof.
  apply (send_upstream_skips_other_projects canned_MultiJSON str_of_scalar
           (event_of "docs" (Some ready_comment)) gerrit_down gerrit_up
           (world_of []) (JStr "docs")).
  - reflexivity.
  - right. exists (mkProjectDict "docs" None None). split; [|reflexivity].
    exists [mkProjectDict "demo" (Some true)
              (Some [mkLabelDict "Code-Review" (-2) 2])],
           [mkProjectDict "plain" (Some true) (Some [])].
    split; [reflexivity|]. split; [|reflexivity].
    intros q Hq. apply list_elem_of_singleton in Hq. subst q. discriminate.
Defined.

Lemma late_comment_first_line : first_line_of late_comment "lgtm".
Proof.
  split; [reflexivity|]. right. exists (ascii_of_nat 10), "Upstream-Ready+1".
  split; reflexivity.
Qed.

Lemma trigger_gate_reads_first_line_witness :
  snd (send_upstream canned_MultiJSON str_of_scalar
         (event_of "demo" (Some late_comment)) gerrit_down gerrit_up
         (world_of []))
  = world_of [].
Proof.
  refine (proj2 (proj1 (trigger_gate_reads_first_line canned_MultiJSON
            str_of_scalar (event_of "demo" (Some late_comment)) gerrit_down
            gerrit_up (world_of []) late_comment "lgtm" _ _) _)).
  - reflexivity.
  - exact late_comment_first_line.
  - intros H. apply contains_spec in H. vm_compute in H. discriminate H.
Defined.

Lemma empty_comment_raises_IndexError_witness :
  send_upstream canned_MultiJSON str_of_scalar (event_of "demo" None)
    gerrit_down gerrit_up (world_of [])
  = (raise IndexError, world_of []).
Proof.
  refine (proj2 (proj2 (empty_comment_raises_IndexError canned_MultiJSON
            str_of_scalar (event_of "demo" None) gerrit_down gerrit_up
            (world_of []) _)) _).
  - left. reflexivity.
  - reflexivity.
Defined.

Lemma download_fails_setup_ok n :
  (2 <= n <= 6)%nat -> succeeded (responses download_fails n).
Proof.
  intros Hn.
  assert (Hcases : (n = 2 \/ n = 3 \/ n = 4 \/ n = 5 \/ n = 6)%nat) by lia.
  destruct Hcases as [->|[->|[->|[->| ->]]]]; exists ""; reflexivity.
Qed.

Lemma scratch_dir_is_new rs : scratch_dir (world_of rs) ∉ dirs (world_of rs).
Proof.
  unfold world_of, scratch_dir. simpl. intros H.
  apply elem_of_singleton in H. discriminate H.
Qed.

Lemma cwd_exists rs : cwd (world_of rs) ∈ dirs (world_of rs).
Proof. unfold world_of. simpl. apply elem_of_singleton. reflexivity. Qed.



(** The query is refused: nothing but the query and the comment. *)
Definition query_refused : World := world_of [Exit 1 "Permission denied"].

Lemma fetch_failure_blocks_upstream_witness :
  get_approvals canned_MultiJSON str_of_scalar demo_event gerrit_down query_refused
  = (ok [],
     after_call
       (SshExec gerrit_down
          "gerrit query change:I42 branch:master project:demo --all-approvals limit:1 --format JSON")
       query_refused) /\
  is_upstream_approved demo_event [] = ok false.
Proof.
  destruct (fetch_failure_blocks_upstream canned_MultiJSON str_of_scalar
              demo_event gerrit_down gerrit_up query_refused
              "gerrit query change:I42 branch:master project:demo --all-approvals limit:1 --format JSON"
              (JStr "demo") eq_refl eq_refl) as [_ Hfail].
  destruct (Hfail (fetch_status canned_MultiJSON 1 "Permission denied"
                     ltac:(discriminate))) as [Hempty Hgate].
  split; [exact Hempty|].
  apply Hgate. discriminate.
Defined.

(** The claim as written fails twice. A project with an empty list of
    labels: the query is refused, no approval is fetched, the gate answers
    true all the same and the change is uploaded. A query output whose
    second patch set cannot be read: the exception is caught and the
    approvals read before it are returned, not the empty list. *)
Lemma fetch_failure_can_reach_upstream :
  (fetch_failed canned_MultiJSON (responses query_refused 0%nat) /\
   fst (get_approvals canned_MultiJSON str_of_scalar
          (event_of "plain" (Some ready_comment)) gerrit_down query_refused)
   = ok [] /\
   is_upstream_approved (event_of "plain" (Some ready_comment)) [] = ok true /\
   existsb is_upload
     (trace (snd (send_upstream canned_MultiJSON str_of_scalar
                    (event_of "plain" (Some ready_comment))
                    gerrit_down gerrit_up query_refused))) = true) /\
  (snd (parse_approvals canned_MultiJSON demo_event 0 "partial") = raise TypeError /\
   fst (get_approvals canned_MultiJSON str_of_scalar demo_event gerrit_down
          (world_of [Exit 0 "partial"]))
   = ok [code_review_plus2]).
Proof.
  split; [split; [|split; [|split]]|split].
  - apply fetch_status. discriminate.
  - vm_compute. reflexivity.
  - vm_compute. reflexivity.
  - vm_compute. reflexivity.
  - vm_compute. reflexivity.
  - vm_compute. reflexivity.
Qed.

(** * Further properties of the evaluation gate *)

Lemma Forall2_permutation_l {A B} (R : A -> B -> Prop) (l l' : list A) :
  l ≡ₚ l' -> forall k, Forall2 R l k ->
  exists k', Forall2 R l' k' /\ k ≡ₚ k'.
Proof.
  induction 1 as [|x l l' _ IH|x y l|l l' l'' _ IH1 _ IH2]; intros k Hk.
  - inversion Hk; subst. exists []. split; constructor.
  - inversion Hk as [|? z ? k0 Hxz Hrest]; subst.
    destruct (IH k0 Hrest) as [k' [HF HP]].
    exists (z :: k'). split; [constructor; assumption|]. by constructor.
  - inversion Hk as [|? z1 ? k1 Hy Hrest]; subst.
    inversion Hrest as [|? z2 ? k2 Hx Hrest2]; subst.
    exists (z2 :: z1 :: k2). split; [repeat constructor; assumption|].
    apply perm_swap.
  - destruct (IH1 k Hk) as [k1 [HF1 HP1]].
    destruct (IH2 k1 HF1) as [k2 [HF2 HP2]].
    exists k2. split; [exact HF2|]. etrans; eassumption.
Qed.

Lemma votes_for_permutation n votes votes' :
  votes ≡ₚ votes' -> votes_for n votes ≡ₚ votes_for n votes'.
Proof.
  induction 1 as [|[m v] l l' _ IH|[m1 v1] [m2 v2] l|l l' l'' _ IH1 _ IH2].
  - reflexivity.
  - simpl. destruct (String.eqb m n); [by constructor|exact IH].
  - simpl. destruct (String.eqb m1 n), (String.eqb m2 n);
      try reflexivity. apply perm_swap.
  - etrans; eassumption.
Qed.

Lemma approved_permutation n n' lo hi vs vs' :
  vs ≡ₚ vs' -> approved (mkLabel n lo hi vs) = approved (mkLabel n' lo hi vs').
Proof.
  intros Hperm. apply eq_true_iff_eq. rewrite !approved_iff. simpl.
  split; intros [Hall [v [Hv Hmax]]]; split.
  - intros u Hu. apply Hall. by rewrite Hperm.
  - exists v. split; [by rewrite <- Hperm|exact Hmax].
  - intros u Hu. apply Hall. by rewrite <- Hperm.
  - exists v. split; [by rewrite Hperm|exact Hmax].
Qed.

(** The answer of the gate in terms of the votes, label by label. *)
Lemma is_upstream_approved_iff self pj approvals votes :
  project self = ok pj ->
  Forall2 reads_as approvals votes ->
  exists b, is_upstream_approved self approvals = ok b /\
    (b = true <->
     forall n l, get_labels_for_upstream (_conf self) pj !! n = Some l ->
       approved (with_votes votes n l) = true).
Proof.
  intros Hpj Hreads. eexists. split.
  - apply (is_upstream_approved_votes self pj); eassumption.
  - rewrite forallb_dict_values. split.
    + intros H n l Hn. apply (H n). rewrite map_lookup_imap, Hn. reflexivity.
    + intros H n x Hx. rewrite map_lookup_imap in Hx.
      destruct (get_labels_for_upstream (_conf self) pj !! n) as [l|] eqn:Hn;
        simpl in Hx; [|discriminate].
      injection Hx as <-. apply H. exact Hn.
Qed.

(** X1. The decision of the gate does not depend on the order in which the
    approvals were fetched. *)
Theorem is_upstream_approved_order_independent
    (self : CommentAdded) (pj : json)
    (approvals approvals' : list Approval) (votes : list (string * Z)) :
  project self = ok pj ->
  Forall2 reads_as approvals votes ->
  approvals ≡ₚ approvals' ->
  is_upstream_approved self approvals' = is_upstream_approved self approvals.
Proof.
  intros Hpj Hreads Hperm.
  destruct (Forall2_permutation_l reads_as approvals approvals' Hperm votes
              Hreads) as [votes' [Hreads' Hvotes]].
  destruct (is_upstream_approved_iff self pj approvals votes Hpj Hreads)
    as [b [Hb Hiff]].
  destruct (is_upstream_approved_iff self pj approvals' votes' Hpj Hreads')
    as [b' [Hb' Hiff']].
  rewrite Hb, Hb'. f_equal. apply eq_true_iff_eq. rewrite Hiff, Hiff'.
  assert (Hsame : forall n l,
    approved (with_votes votes' n l) = approved (with_votes votes n l)).
  { intros n l. unfold with_votes. apply approved_permutation.
    apply Permutation_app; [reflexivity|].
    symmetry. apply votes_for_permutation. exact Hvotes. }
  split; intros H n l Hn; specialize (H n l Hn).
  - rewrite <- Hsame. exact H.
  - rewrite Hsame. exact H.
Qed.

Lemma votes_for_elem n v votes : (n, v) ∈ votes -> v ∈ votes_for n votes.
Proof.
  induction votes as [|[m u] votes IH]; intros Hin; [inversion Hin|].
  simpl. apply elem_of_cons in Hin as [Heq|Hin].
  - injection Heq as <- <-. rewrite String.eqb_refl. left.
  - destruct (String.eqb m n); [right|]; apply IH; exact Hin.
Qed.

(** X2. One blocking vote on a configured label, or a configured label
    without any vote, makes the gate answer false, whatever the other
    approvals are. *)
Theorem is_upstream_approved_veto
    (self : CommentAdded) (pj : json)
    (approvals : list Approval) (votes : list (string * Z))
    (n : string) (l : Label) :
  project self = ok pj ->
  Forall2 reads_as approvals votes ->
  get_labels_for_upstream (_conf self) pj !! n = Some l ->
  (exists v, (n, v) ∈ votes /\ v <= _min l) \/ votes_for n votes = [] ->
  is_upstream_approved self approvals = ok false.
Proof.
  intros Hpj Hreads Hn Hbad.
  destruct (is_upstream_approved_iff self pj approvals votes Hpj Hreads)
    as [b [Hb Hiff]].
  rewrite Hb. f_equal. destruct b; [|reflexivity]. exfalso.
  pose proof (proj1 Hiff eq_refl n l Hn) as Happroved.
  destruct (get_labels_for_upstream_lookup _ _ _ _ Hn) as [ld [_ [_ Hl]]].
  apply approved_iff in Happroved as [Hall [u [Hu _]]].
  subst l. simpl in *. destruct Hbad as [[v [Hv Hle]]|Hnone].
  - specialize (Hall v (votes_for_elem n v votes Hv)). lia.
  - rewrite Hnone in Hu. inversion Hu.
Qed.

(** * Further properties of the configuration lookups *)

(** X3. Where the labels of a project come from: the list declared by the
    first entry carrying the project's name, also when that list is empty;
    the global list when that entry declares none or when no entry carries
    the name; no label at all when there is no global list either. *)
Theorem label_dicts_for_source (conf : Conf) (pj : json) :
  (forall p ls, configured_as conf pj p -> pd_upstream_labels p = Some ls ->
     label_dicts_for conf pj = ls) /\
  (forall p, configured_as conf pj p -> pd_upstream_labels p = None ->
     label_dicts_for conf pj = default [] (conf_upstream_labels conf)) /\
  (not_configured conf pj ->
     label_dicts_for conf pj = default [] (conf_upstream_labels conf)).
Proof.
  unfold label_dicts_for. split_and!.
  - intros p ls [before [after [Hps [Hb Hp]]]] Hls.
    rewrite Hps, find_label_dicts_configured, Hls by assumption. reflexivity.
  - intros p [before [after [Hps [Hb Hp]]]] Hls.
    rewrite Hps, find_label_dicts_configured, Hls by assumption. reflexivity.
  - intros Hno. rewrite find_label_dicts_not_configured by exact Hno.
    reflexivity.
Qed.

Lemma label_dicts_for_source_witness :
  label_dicts_for demo_conf (JStr "plain") = [] /\
  label_dicts_for demo_conf (JStr "docs") = [] /\
  label_dicts_for demo_conf (JStr "elsewhere") = [].
Proof.
  destruct (label_dicts_for_source demo_conf (JStr "plain")) as [Hdecl _].
  destruct (label_dicts_for_source demo_conf (JStr "docs")) as [_ [Hnone _]].
  destruct (label_dicts_for_source demo_conf (JStr "elsewhere")) as [_ [_ Hno]].
  split_and!.
  - apply (Hdecl (mkProjectDict "plain" (Some true) (Some []))); [|reflexivity].
    exists [mkProjectDict "demo" (Some true)
              (Some [mkLabelDict "Code-Review" (-2) 2]);
            mkProjectDict "docs" None None], [].
    split; [reflexivity|]. split; [|reflexivity].
    intros q Hq. apply elem_of_cons in Hq as [->|Hq]; [discriminate|].
    apply list_elem_of_singleton in Hq. subst q. discriminate.
  - apply (Hnone (mkProjectDict "docs" None None)); [|reflexivity].
    exists [mkProjectDict "demo" (Some true)
              (Some [mkLabelDict "Code-Review" (-2) 2])],
           [mkProjectDict "plain" (Some true) (Some [])].
    split; [reflexivity|]. split; [|reflexivity].
    intros q Hq. apply list_elem_of_singleton in Hq. subst q. discriminate.
  - apply Hno. intros q Hq.
    apply elem_of_cons in Hq as [->|Hq]; [discriminate|].
    apply elem_of_cons in Hq as [->|Hq]; [discriminate|].
    apply list_elem_of_singleton in Hq. subst q. discriminate.
Defined.

(** X4. The dictionary of labels has one label per name, built from the
    last entry of that name, with its bounds and no value recorded. *)
Theorem get_labels_for_upstream_last_wins
    (conf : Conf) (pj : json) (before after : list LabelDict) (ld : LabelDict) :
  label_dicts_for conf pj = (before ++ ld :: after)%list ->
  (forall x, x ∈ after -> ld_name x <> ld_name ld) ->
  get_labels_for_upstream conf pj !! ld_name ld
  = Some (mkLabel (ld_name ld) (ld_min ld) (ld_max ld) []).
Proof.
  intros Hdicts Hafter. unfold get_labels_for_upstream.
  rewrite Hdicts, fold_left_app. simpl.
  rewrite fold_add_label_obj_other by exact Hafter.
  unfold add_label_obj. apply lookup_insert_eq.
Qed.

Definition twice_declared : Conf :=
  mkConf [] (Some [mkLabelDict "Verified" (-1) 1; mkLabelDict "Verified" 0 2])
         "Upstream-Ready+1" "Gerrit Service" "service@example.org".

Lemma get_labels_for_upstream_last_wins_witness :
  get_labels_for_upstream twice_declared (JStr "demo") !! "Verified"
  = Some (mkLabel "Verified" 0 2 []).
Proof.
  apply (get_labels_for_upstream_last_wins twice_declared (JStr "demo")
           [mkLabelDict "Verified" (-1) 1] [] (mkLabelDict "Verified" 0 2)).
  - reflexivity.
  - intros x Hx. inversion Hx.
Defined.

Lemma find_split {A} (f : A -> bool) (ps : list A) (p : A) :
  List.find f ps = Some p ->
  exists before after, ps = (before ++ p :: after)%list /\
    (forall q, q ∈ before -> f q = false) /\ f p = true.
Proof.
  induction ps as [|q ps IH]; simpl; [discriminate|].
  destruct (f q) eqn:E.
  - intros H. injection H as ->. exists [], ps.
    split; [reflexivity|]. split; [|exact E]. intros x Hx. inversion Hx.
  - intros H. destruct (IH H) as [before [after [Hps [Hb Hp]]]].
    exists (q :: before), after. split; [rewrite Hps; reflexivity|].
    split; [|exact Hp]. intros x Hx.
    apply elem_of_cons in Hx as [->|Hx]; [exact E|apply Hb; exact Hx].
Qed.

(** X5. For an event whose project can be read, [is_upstream_project]
    answers (it does not raise), and it answers true exactly when the
    first entry of the configuration carrying the project's name is marked
    upstream. *)
Theorem is_upstream_project_iff (self : CommentAdded) (pj : json) :
  project self = ok pj ->
  exists b, is_upstream_project self = ok b /\
    (b = true <->
     exists p, configured_as (_conf self) pj p /\ Project_upstream p = true).
Proof.
  intros Hpj. destruct (project_ok_change_id self pj Hpj) as [c Hc].
  unfold is_upstream_project. rewrite (find_project_ok self pj _ Hpj).
  unfold debug_change_project. rewrite Hc, Hpj. simpl.
  destruct (List.find _ (conf_projects (_conf self))) as [p|] eqn:Hfind.
  - destruct (find_split _ _ _ Hfind) as [before [after [Hps [Hb Hp]]]].
    assert (Hconf : configured_as (_conf self) pj p).
    { exists before, after. split; [exact Hps|]. split.
      - intros q Hq Heq. specialize (Hb q Hq).
        assert (py_eq_str (pd_name q) pj = true)
          by (apply py_eq_str_true; congruence).
        congruence.
      - apply py_eq_str_true in Hp. congruence. }
    destruct (Project_upstream p) eqn:Hup; simpl.
    + exists true. split; [reflexivity|]. split; [|reflexivity].
      intros _. exists p. split; assumption.
    + exists false. split; [reflexivity|]. split; [discriminate|].
      intros [p' [[before' [after' [Hps' [Hb' Hp']]]] Hup']].
      rewrite Hps', find_configured in Hfind by assumption.
      injection Hfind as ->. congruence.
  - exists false. split; [reflexivity|]. split; [discriminate|].
    intros [p' [[before' [after' [Hps' [Hb' Hp']]]] _]].
    rewrite Hps', find_configured in Hfind by assumption. discriminate.
Qed.

Lemma is_upstream_project_iff_witness :
  exists b, is_upstream_project demo_event = ok b /\
    (b = true <->
     exists p, configured_as demo_conf (JStr "demo") p /\
               Project_upstream p = true).
Proof. exact (is_upstream_project_iff demo_event (JStr "demo") eq_refl). Defined.

(** * Further properties of the workflow *)

Section UpstreamUrl.
Variable MultiJSON : string -> res (list json).
Variable py_str : json -> string.
Variable self : CommentAdded.
Variable upstream : Remote.

Definition url_query : res string := query_cmd py_str self " --format JSON".

(** The url built when the query gives none. *)
Definition backup_url (cid : json) : json :=
  JStr ("https://" +:+ host upstream +:+ "/#q," +:+ py_str cid +:+ ",n,z").

(** What [get_upstream_url] returns, read off the response to its query. *)
Definition upstream_url_of (cid : json) (r : response) : json :=
  match r with
  | Fail _ => backup_url cid
  | Exit retcode out =>
      if negb (retcode =? 0) then JNull
      else
        match MultiJSON out with
        | inl _ => backup_url cid
        | inr objs =>
            if (length objs <? 2)%nat then JNull
            else
              match objs with
              | first :: _ =>
                  match py_getitem first "url" with
                  | inr url => if truthy url then url else backup_url cid
                  | inl _ => backup_url cid
                  end
              | [] => backup_url cid
              end
        end
  end.

Lemma get_upstream_url_returns cmd cid w :
  url_query = ok cmd ->
  change_id self = ok cid ->
  get_upstream_url MultiJSON py_str self upstream w
  = (ok (upstream_url_of cid (responses w 0%nat)),
     after_call (SshExec upstream cmd) w).
Proof.
  intros Hq Hc. unfold url_query in Hq.
  unfold get_upstream_url, try_except, exec_once, bind, lift, call, ret, throw.
  rewrite Hq. world_simpl. unfold upstream_url_of, backup_url.
  destruct (responses w 0%nat) as [retcode out|e]; world_simpl.
  - destruct (retcode =? 0); world_simpl; [|reflexivity].
    destruct (MultiJSON out) as [e|objs]; world_simpl.
    + rewrite Hc. reflexivity.
    + destruct objs as [|first [|second rest]]; [reflexivity|reflexivity|].
      simpl.
      destruct (py_getitem first "url") as [e|url]; world_simpl.
      * rewrite Hc. reflexivity.
      * destruct (truthy url); world_simpl; [reflexivity|].
        rewrite Hc. reflexivity.
  - rewrite Hc. reflexivity.
Qed.

End UpstreamUrl.

(** X6. [get_upstream_url] never raises once its query can be written: it
    asks the upstream server once and returns [None] when the query ends
    with a non-zero status or yields fewer than two objects, the url of the
    first object when there is one, and otherwise (the channel raised, the
    output cannot be parsed, the first object has no usable url) the url
    built from the host and the change id. *)
Theorem get_upstream_url_outcomes
    (MultiJSON : string -> res (list json)) (py_str : json -> string)
    (self : CommentAdded) (upstream : Remote) (w : World)
    (cmd : string) (cid : json) :
  url_query py_str self = ok cmd ->
  change_id self = ok cid ->
  let run := get_upstream_url MultiJSON py_str self upstream w in
  snd run = after_call (SshExec upstream cmd) w /\
  (exists url, fst run = ok url) /\
  (forall retcode out, responses w 0%nat = Exit retcode out -> retcode <> 0 ->
     fst run = ok JNull) /\
  (forall out objs, responses w 0%nat = Exit 0 out ->
     MultiJSON out = ok objs -> (length objs < 2)%nat -> fst run = ok JNull) /\
  (forall out first second rest url, responses w 0%nat = Exit 0 out ->
     MultiJSON out = ok (first :: second :: rest) ->
     py_getitem first "url" = ok url -> truthy url = true ->
     fst run = ok url) /\
  (forall e, responses w 0%nat = Fail e ->
     fst run = ok (backup_url py_str upstream cid)) /\
  (forall out e, responses w 0%nat = Exit 0 out -> MultiJSON out = raise e ->
     fst run = ok (backup_url py_str upstream cid)) /\
  (forall out first second rest, responses w 0%nat = Exit 0 out ->
     MultiJSON out = ok (first :: second :: rest) ->
     (forall url, py_getitem first "url" = ok url -> truthy url = false) ->
     fst run = ok (backup_url py_str upstream cid)).
Proof.
  intros Hq Hc run. subst run.
  rewrite (get_upstream_url_returns MultiJSON py_str self upstream cmd cid w Hq Hc).
  cbn [fst snd]. split_and!.
  - reflexivity.
  - eauto.
  - intros retcode out -> Hne. simpl. apply Z.eqb_neq in Hne. rewrite Hne.
    reflexivity.
  - intros out objs -> Hobjs Hlen. simpl. rewrite Hobjs.
    destruct objs as [|first [|second rest]]; [reflexivity|reflexivity|].
    simpl in Hlen. lia.
  - intros out first second rest url -> Hobjs Hurl Htrue. simpl.
    rewrite Hobjs. simpl. rewrite Hurl. simpl. rewrite Htrue. reflexivity.
  - intros e ->. reflexivity.
  - intros out e -> Hobjs. simpl. rewrite Hobjs. reflexivity.
  - intros out first second rest -> Hobjs Hno. simpl. rewrite Hobjs. simpl.
    destruct (py_getitem first "url") as [e|url] eqn:Hurl; [reflexivity|].
    simpl. rewrite (Hno url eq_refl). reflexivity.
Qed.

Lemma get_upstream_url_outcomes_witness :
  fst (get_upstream_url canned_MultiJSON str_of_scalar demo_event gerrit_up
         (world_of [Exit 1 "no such project"])) = ok JNull /\
  fst (get_upstream_url canned_MultiJSON str_of_scalar demo_event gerrit_up
         (world_of [Fail SSHException]))
  = ok (JStr "https://upstream.example.org/#q,I42,n,z").
Proof.
  split.
  - refine (proj1 (proj2 (proj2 (get_upstream_url_outcomes canned_MultiJSON
              str_of_scalar demo_event gerrit_up
              (world_of [Exit 1 "no such project"])
              "gerrit query change:I42 branch:master project:demo --format JSON"
              (JStr "I42") eq_refl eq_refl)))
            1 "no such project" eq_refl _).
    discriminate.
  - exact (proj1 (proj2 (proj2 (proj2 (proj2 (proj2
             (get_upstream_url_outcomes canned_MultiJSON
                str_of_scalar demo_event gerrit_up
                (world_of [Fail SSHException])
                "gerrit query change:I42 branch:master project:demo --format JSON"
                (JStr "I42") eq_refl eq_refl))))))
             SSHException eq_refl).
Defined.

(** ** Directories above a path *)

Lemma length_append (a b : string) :
  String.length (a +:+ b) = (String.length a + String.length b)%nat.
Proof.
  induction a as [|c a IH]; [reflexivity|].
  rewrite append_cons. cbn [String.length]. rewrite IH. reflexivity.
Qed.

Lemma ancestors_from_shorter rest : forall prefix x,
  x ∈ ancestors_from prefix rest ->
  (String.length x < String.length prefix + String.length rest)%nat.
Proof.
  induction rest as [|c rest IH]; intros prefix x Hx; [inversion Hx|].
  cbn [ancestors_from] in Hx. apply elem_of_app in Hx as [Hx|Hx].
  - destruct (is_slash c && negb (all_slashes prefix)); [|inversion Hx].
    apply list_elem_of_singleton in Hx. subst x. cbn [String.length]. lia.
  - apply IH in Hx. rewrite length_append in Hx. cbn [String.length] in *. lia.
Qed.

(** A path is not above itself. *)
Lemma not_own_ancestor path : path ∉ ancestors path.
Proof.
  intros H. apply ancestors_from_shorter in H. cbn [String.length] in H. lia.
Qed.

(** What a failing [os.makedirs] leaves: the path is not there, and what
    is new is above it. *)
Lemma not_in_partly_made (D : gset string) (n : nat) (path : string) :
  path ∉ D -> path ∉ list_to_set (take n (ancestors path)) ∪ D.
Proof.
  intros Hnot [Hin|Hin]%elem_of_union; [|contradiction].
  apply elem_of_list_to_set in Hin.
  apply (not_own_ancestor path).
  exact (subseteq_take n (ancestors path) path Hin).
Qed.

Lemma partly_made_bound (D : gset string) (n : nat) (l : list string) :
  list_to_set (take n l) ∪ D ⊆ list_to_set l ∪ D.
Proof.
  intros x [Hx|Hx]%elem_of_union; apply elem_of_union; [left|right; exact Hx].
  apply elem_of_list_to_set. apply elem_of_list_to_set in Hx.
  exact (subseteq_take n l x Hx).
Qed.

Lemma scratch_removed (D : gset string) (d : string) :
  ({[d]} ∪ D) ∖ {[d]} = D ∖ {[d]}.
Proof.
  apply set_eq. intros x.
  rewrite !elem_of_difference, elem_of_union, elem_of_singleton. split.
  - intros [[->|Hx] Hne]; [congruence|]. split; assumption.
  - intros [Hx Hne]. split; [right; exact Hx|exact Hne].
Qed.

Lemma in_made_self (A D : gset string) (d : string) : d ∈ {[d]} ∪ (A ∪ D).
Proof. apply elem_of_union. left. apply elem_of_singleton. reflexivity. Qed.

Lemma in_made_old (A D : gset string) (d x : string) :
  x ∈ D -> x ∈ {[d]} ∪ (A ∪ D).
Proof. intros Hx. apply elem_of_union. right. apply elem_of_union. right. exact Hx. Qed.

(** Nothing is left of the parents that were there all along. *)
Lemma parents_there (D : gset string) (l : list string) :
  Forall (fun d => d ∈ D) l -> list_to_set l ∪ D = D.
Proof.
  intros Hl. apply set_eq. intros x. rewrite elem_of_union, elem_of_list_to_set.
  split; [|intros Hx; right; exact Hx].
  intros [Hx|Hx]; [|exact Hx]. rewrite Forall_forall in Hl. apply Hl, Hx.
Qed.

Section Runs.
Variable MultiJSON : string -> res (list json).
Variable py_str : json -> string.
Variable self : CommentAdded.
Variables downstream upstream : Remote.

(** The run passes the three gates with the approvals fetched in [w]. *)
Definition passes_gates (w : World) (approvals : list Approval) : Prop :=
  is_upstream_project self = ok true /\
  is_upstream_indicated self = ok true /\
  fst (get_approvals MultiJSON py_str self downstream w) = ok approvals /\
  is_upstream_approved self approvals = ok true.

(** The run reaches the download: the gates pass, the scratch directory is
    new and can be created, the repository can be set up and the identity
    of the push is made of strings. *)
Definition reaches_download (w : World) (pj cid rev : json) (pid : Z)
    (user name email : string) : Prop :=
  (exists approvals, passes_gates w approvals) /\
  project self = ok pj /\
  change_id self = ok cid /\
  patchset_id self = ok pid /\
  revision self = ok rev /\
  push_identity py_str self upstream = ok (user, JStr name, JStr email) /\
  (scratch_dir w ∉ dirs w) /\
  cwd w ∈ dirs w /\
  (exists s o, responses w 1%nat = Exit s o) /\
  (forall n, (2 <= n <= 6)%nat -> succeeded (responses w n)).

(** The calls of a run up to the download. *)
Definition calls_to_download (w : World) (cmd user : string) (pj cid : json)
    (pid : Z) (name email : string) : list action :=
  ([SshExec downstream cmd; Makedirs (scratch_dir w)]
   ++ setup_calls py_str downstream upstream (scratch_dir w) user pj
   ++ [config_email_call email; config_name_call name;
       CheckOutput (review_args_download py_str cid pid)])%list.

(** The last calls of a run that entered the transfer block. *)
Definition cleanup_calls (w : World) : list action :=
  [Chdir (cwd w); Rmtree (scratch_dir w)].

(** The world in which the download has been answered. *)
Definition after_download (w : World) (cmd user : string) (pj cid : json)
    (pid : Z) (name email : string) : World :=
  after_call (CheckOutput (review_args_download py_str cid pid))
    (after_call (config_name_call name)
       (after_call (config_email_call email)
          (after_setup py_str downstream upstream (scratch_dir w) user pj
             (after_mkdir (scratch_dir w)
                (after_call (Makedirs (scratch_dir w))
                   (after_call (SshExec downstream cmd) w)))))).

Lemma after_download_trace w cmd user pj cid pid name email :
  trace (after_download w cmd user pj cid pid name email)
  = (trace w ++ calls_to_download w cmd user pj cid pid name email)%list.
Proof.
  unfold after_download, calls_to_download. world_simpl.
  rewrite after_setup_trace. world_simpl. rewrite <- !app_assoc. reflexivity.
Qed.

Lemma download_change_ok w email name cid pid out :
  change_id self = ok cid ->
  patchset_id self = ok pid ->
  succeeded (responses w 0%nat) ->
  succeeded (responses w 1%nat) ->
  responses w 2%nat = Exit 0 out ->
  download_change py_str self (JStr email) (JStr name) w
  = (ok out,
     after_call (CheckOutput (review_args_download py_str cid pid))
       (after_call (config_name_call name)
          (after_call (config_email_call email) w))).
Proof.
  intros Hc Hpid [o0 H0] [o1 H1] H2.
  unfold download_change, set_config, git_cmd, check_output, bind, lift, call,
    ret, throw.
  world_simpl. rewrite H0. world_simpl. rewrite H1, Hc, Hpid. world_simpl.
  rewrite H2. reflexivity.
Qed.

(** The [finally] clause in a world that holds the scratch directory and
    the old working directory. *)
Lemma cleanup_runs old repo w :
  old ∈ dirs w -> repo ∈ dirs w ->
  cleanup old repo w = (ok tt, after_rmtree repo (after_chdir old w)).
Proof.
  intros Hold Hrepo. unfold cleanup, bind, chdir, rmtree.
  rewrite (bool_decide_eq_true_2 _ Hold). world_simpl.
  rewrite (bool_decide_eq_true_2 _ Hrepo). reflexivity.
Qed.

(** A run that reaches the download is the inner [try] under the
    [finally] clause, started when both remotes are registered. *)
Lemma send_upstream_at_download w pj cid rev pid user name email :
  reaches_download w pj cid rev pid user name email ->
  exists cmd,
    approvals_query py_str self = ok cmd /\
    send_upstream MultiJSON py_str self downstream upstream w
    = try_finally
        (try_tracking_out
           (download_change py_str self (JStr email) (JStr name))
           (upload_change self)
           (report_sent MultiJSON py_str self downstream upstream)
           (transfer_handler py_str self downstream))
        (cleanup (cwd w) (scratch_dir w))
        (after_setup py_str downstream upstream (scratch_dir w) user pj
           (after_mkdir (scratch_dir w)
              (after_call (Makedirs (scratch_dir w))
                 (after_call (SshExec downstream cmd) w)))).
Proof.
  intros [[approvals [Hp [Hi [Hg Ha]]]]
          [Hpj [Hc [Hpid [Hrev [Hid [Hnot [Hcwd [[s [o Hmk]] Hok]]]]]]]]].
  destruct (get_approvals_fst_ok _ _ _ _ _ _ Hg) as [cmd [Hq Hrun]].
  destruct (send_upstream_enters_transfer MultiJSON py_str self downstream
              upstream approvals w _ Hp Hi Hrun Ha) as [_ [Hmade _]].
  exists cmd. split; [exact Hq|].
  rewrite (Hmade Hnot s o Hmk).
  change (scratch_dir (after_call (SshExec downstream cmd) w))
    with (scratch_dir w).
  change (cwd (after_call (SshExec downstream cmd) w)) with (cwd w).
  set (w2 := after_mkdir _ _).
  assert (Hin2 : scratch_dir w ∈ dirs w2) by apply in_made_self.
  unfold try_finally.
  rewrite (transfer_setup MultiJSON py_str self downstream upstream downstream
             (scratch_dir w) w2 pj user (JStr name) (JStr email) Hin2 Hpj Hid
             (Hok 2%nat ltac:(lia)) (Hok 3%nat ltac:(lia)) (Hok 4%nat ltac:(lia))).
  reflexivity.
Qed.

(** The end of a run whose inner [try] stopped in the world [w']: the
    clean-up runs and the outcome of the [try] is the outcome of the run. *)
Lemma try_finally_cleanup_runs {A} (body : M A) (r : res A) old repo w w' :
  body w = (r, w') -> old ∈ dirs w' -> repo ∈ dirs w' ->
  try_finally body (cleanup old repo) w
  = (r, after_rmtree repo (after_chdir old w')).
Proof.
  intros Hbody Hold Hrepo. unfold try_finally. rewrite Hbody.
  rewrite (cleanup_runs old repo w' Hold Hrepo). reflexivity.
Qed.

End Runs.

Section Stages.
Variable MultiJSON : string -> res (list json).
Variable py_str : json -> string.
Variable self : CommentAdded.
Variables downstream upstream : Remote.

Definition upload_call (br tp : string) : action :=
  CheckOutput ["git-review"; "-R"; "-y"; "-r"; "upstream"; br; "-t"; tp].

(** How a call that returns at all ends a block: normally, or with the
    exception of the channel. *)
Definition outcome_of (r : response) : res unit :=
  match r with
  | Exit _ _ => ok tt
  | Fail e => raise e
  end.

Lemma upload_change_run out w cid br tp :
  change_id self = ok cid ->
  decode_beside cid out = ok tt ->
  branch self = ok (JStr br) ->
  topic self = ok (JStr tp) ->
  upload_change self out w
  = (match responses w 0%nat with
     | Exit 0 out => ok out
     | Exit _ out => raise (CalledProcessError (Some out))
     | Fail e => raise e
     end,
     after_call (upload_call br tp) w).
Proof.
  intros Hc Hdec Hbr Htp.
  unfold upload_change, check_output, bind, lift, call, ret, throw.
  rewrite Hc. cbn [ok]. rewrite Hdec, Hbr, Htp. world_simpl.
  destruct (responses w 0%nat) as [[|p|p] o|e]; reflexivity.
Qed.

(** Without a topic the upload is not run: the debug message or the
    reading of the topic raises, and neither exception is the one of a
    failed command. *)
Lemma upload_change_raises out w cid br :
  change_id self = ok cid ->
  branch self = ok br ->
  topic self = raise KeyError ->
  exists e, upload_change self out w = (raise e, w) /\
            match e with CalledProcessError _ => False | _ => True end.
Proof.
  intros Hc Hbr Htp. unfold upload_change, bind, lift. rewrite Hc. cbn [ok].
  unfold decode_beside. destruct (is_text cid && negb (is_ascii out)).
  - exists UnicodeDecodeError. split; [reflexivity|exact I].
  - cbn [ok]. rewrite Hbr, Htp. exists KeyError. split; [reflexivity|exact I].
Qed.

(** The debug message after a command stops the stage when the output of
    the command cannot stand beside the change id. *)
Lemma upload_change_undecoded out w cid :
  change_id self = ok cid ->
  decode_beside cid out = raise UnicodeDecodeError ->
  upload_change self out w = (raise UnicodeDecodeError, w).
Proof.
  intros Hc Hdec. unfold upload_change, bind, lift. rewrite Hc. cbn [ok].
  rewrite Hdec. reflexivity.
Qed.

Lemma post_review_run ssh msg rev w :
  revision self = ok rev ->
  post_review py_str self ssh msg w
  = (outcome_of (responses w 0%nat),
     after_call (SshExec ssh (review_cmd py_str msg rev)) w).
Proof.
  intros Hrev. unfold post_review, exec_once, bind, lift, call, ret, throw.
  rewrite Hrev. world_simpl. destruct (responses w 0%nat); reflexivity.
Qed.

Lemma handler_after_download ssh output out cid rev w :
  change_id self = ok cid ->
  revision self = ok rev ->
  decode_beside rev output = ok tt ->
  decode_beside cid out = ok tt ->
  transfer_handler py_str self ssh (CalledProcessError (Some output)) (Some out) w
  = (outcome_of (responses w 0%nat),
     after_call
       (SshExec ssh (review_cmd py_str (msg_failed (Some output)) rev)) w).
Proof.
  intros Hc Hrev Hdec Hdec'.
  unfold transfer_handler, exec_once, bind, lift, call, ret, throw.
  rewrite Hrev. cbn [ok]. rewrite decode_beside_failure, Hdec, Hc. world_simpl.
  rewrite Hdec'. destruct (responses w 0%nat); reflexivity.
Qed.

(** Exceptions other than the one of a failed command. *)
Definition not_called_process_error (e : exn) : Prop :=
  match e with
  | CalledProcessError _ => False
  | _ => True
  end.

Lemma handler_other_exception ssh e out cid rev w :
  not_called_process_error e ->
  change_id self = ok cid ->
  revision self = ok rev ->
  transfer_handler py_str self ssh e out w
  = (outcome_of (responses w 0%nat),
     after_call (SshExec ssh (review_cmd py_str msg_error rev)) w).
Proof.
  intros He Hc Hrev.
  assert (Hgen : transfer_handler py_str self ssh e out
                 = (do_ post_review py_str self ssh msg_error;
                    do_ lift (change_id self); ret tt))
    by (destruct e; try reflexivity; contradiction).
  rewrite Hgen. unfold bind, lift.
  rewrite (post_review_run ssh _ rev w Hrev), Hc.
  destruct (responses w 0%nat); reflexivity.
Qed.

Lemma report_sent_run out w cid rev cmd :
  change_id self = ok cid ->
  decode_beside cid out = ok tt ->
  revision self = ok rev ->
  url_query py_str self = ok cmd ->
  report_sent MultiJSON py_str self downstream upstream out w
  = (outcome_of (responses w 1%nat),
     after_call
       (SshExec downstream
          (review_cmd py_str
             ("Sent to upstream: "
              +:+ py_str (upstream_url_of MultiJSON py_str upstream cid
                            (responses w 0%nat)))
             rev))
       (after_call (SshExec upstream cmd) w)).
Proof.
  intros Hc Hdec Hrev Hq. unfold report_sent, bind, lift. rewrite Hc.
  cbn [ok]. rewrite Hdec.
  rewrite (get_upstream_url_returns MultiJSON py_str self upstream cmd cid w Hq Hc).
  cbn [ok]. rewrite (post_review_run downstream _ rev _ Hrev). reflexivity.
Qed.

Lemma query_cmd_ok options cid br pj :
  change_id self = ok cid -> branch self = ok br -> project self = ok pj ->
  exists cmd, query_cmd py_str self options = ok cmd.
Proof.
  intros Hc Hbr Hpj. unfold query_cmd. rewrite Hc, Hbr, Hpj. eauto.
Qed.

End Stages.

Section Endings.
Variable MultiJSON : string -> res (list json).
Variable py_str : json -> string.
Variable self : CommentAdded.
Variables downstream upstream : Remote.

(** The inner [try] of a run that reaches the download, up to the answer
    to the download. *)
Lemma inner_try_after_download w pj cid rev pid user name email cmd out :
  reaches_download MultiJSON py_str self downstream upstream
                   w pj cid rev pid user name email ->
  responses w 7%nat = Exit 0 out ->
  download_change py_str self (JStr email) (JStr name)
    (after_setup py_str downstream upstream (scratch_dir w) user pj
       (after_mkdir (scratch_dir w)
          (after_call (Makedirs (scratch_dir w))
             (after_call (SshExec downstream cmd) w))))
  = (ok out, after_download py_str downstream upstream w cmd user pj cid pid
                            name email).
Proof.
  intros [_ [_ [Hc [Hpid [_ [_ [_ [_ [_ Hok]]]]]]]]] H7.
  apply download_change_ok; try assumption.
  - exact (Hok 5%nat ltac:(lia)).
  - exact (Hok 6%nat ltac:(lia)).
Qed.

Lemma dirs_after_download w cmd user pj cid pid name email :
  dirs (after_download py_str downstream upstream w cmd user pj cid pid
                       name email)
  = {[scratch_dir w]} ∪ (list_to_set (ancestors (scratch_dir w)) ∪ dirs w).
Proof. reflexivity. Qed.

End Endings.

Lemma dirs_after_call a w : dirs (after_call a w) = dirs w.
Proof. reflexivity. Qed.

Lemma dirs_after_chdir path w : dirs (after_chdir path w) = dirs w.
Proof. reflexivity. Qed.

Lemma dirs_after_rmtree path w :
  dirs (after_rmtree path w) = dirs w ∖ {[path]}.
Proof. reflexivity. Qed.





(** X11. When the labels are not approved, the calls of [send_upstream]
    are the approval query and one comment with the fixed wording on the
    downstream server; nothing is created on disk and the run returns
    normally once the comment call returns. *)
Theorem rejection_posts_one_comment
    (MultiJSON : string -> res (list json)) (py_str : json -> string)
    (self : CommentAdded) (downstream upstream : Remote) (w : World)
    (approvals : list Approval) (rev : json) :
  is_upstream_project self = ok true ->
  is_upstream_indicated self = ok true ->
  fst (get_approvals MultiJSON py_str self downstream w) = ok approvals ->
  is_upstream_approved self approvals = ok false ->
  revision self = ok rev ->
  let run := send_upstream MultiJSON py_str self downstream upstream w in
  exists cmd,
    approvals_query py_str self = ok cmd /\
    trace (snd run)
    = (trace w ++ [SshExec downstream cmd;
                   SshExec downstream
                     (review_cmd py_str msg_not_approved rev)])%list /\
    cwd (snd run) = cwd w /\
    dirs (snd run) = dirs w /\
    fst run = outcome_of (responses w 1%nat).
Proof.
  intros Hp Hi Hg Ha Hrev run. subst run.
  destruct (get_approvals_fst_ok _ _ _ _ _ _ Hg) as [cmd [Hq Hrun]].
  exists cmd. split; [exact Hq|].
  rewrite (send_upstream_not_approved MultiJSON py_str self downstream
             upstream approvals w _ Hp Hi Hrun Ha).
  rewrite (post_review_run py_str self downstream _ rev _ Hrev).
  world_simpl. rewrite <- app_assoc. split_and!; reflexivity.
Qed.

(** X12. When the scratch directory cannot be created the exception of
    [os.makedirs] leaves [send_upstream]: nothing is posted and no git
    command is run. The scratch directory is not there, but directories
    above it that the failing call made are left behind. *)
Theorem makedirs_failure_propagates
    (MultiJSON : string -> res (list json)) (py_str : json -> string)
    (self : CommentAdded) (downstream upstream : Remote) (w : World)
    (approvals : list Approval) (e : exn) :
  is_upstream_project self = ok true ->
  is_upstream_indicated self = ok true ->
  fst (get_approvals MultiJSON py_str self downstream w) = ok approvals ->
  is_upstream_approved self approvals = ok true ->
  scratch_dir w ∉ dirs w ->
  responses w 1%nat = Fail e ->
  let run := send_upstream MultiJSON py_str self downstream upstream w in
  exists cmd,
    approvals_query py_str self = ok cmd /\
    fst run = raise e /\
    trace (snd run)
    = (trace w ++ [SshExec downstream cmd; Makedirs (scratch_dir w)])%list /\
    cwd (snd run) = cwd w /\
    (scratch_dir w ∉ dirs (snd run)) /\
    dirs w ⊆ dirs (snd run) /\
    dirs (snd run) ⊆ list_to_set (ancestors (scratch_dir w)) ∪ dirs w.
Proof.
  intros Hp Hi Hg Ha Hnot Hmk run. subst run.
  destruct (get_approvals_fst_ok _ _ _ _ _ _ Hg) as [cmd [Hq Hrun]].
  destruct (send_upstream_enters_transfer MultiJSON py_str self downstream
              upstream approvals w _ Hp Hi Hrun Ha) as [_ [_ Hfail]].
  exists cmd. split; [exact Hq|].
  rewrite (Hfail Hnot e Hmk). world_simpl. rewrite <- app_assoc.
  change (scratch_dir (after_call (SshExec downstream cmd) w))
    with (scratch_dir w).
  split_and!; try reflexivity.
  - apply not_in_partly_made. exact Hnot.
  - apply union_subseteq_r.
  - apply partly_made_bound.
Qed.

Section Place.
Variable MultiJSON : string -> res (list json).
Variable py_str : json -> string.
Variable self : CommentAdded.
Variables downstream upstream : Remote.

Lemma get_approvals_cases w :
  (exists e, get_approvals MultiJSON py_str self downstream w = (raise e, w)) \/
  (exists cmd approvals,
     get_approvals MultiJSON py_str self downstream w
     = (ok approvals, after_call (SshExec downstream cmd) w)).
Proof.
  destruct (approvals_query py_str self) as [e|cmd] eqn:Hq.
  - left. exists e. unfold approvals_query in Hq.
    unfold get_approvals, bind, lift. rewrite Hq. reflexivity.
  - right. exists cmd. apply get_approvals_returns. exact Hq.
Qed.

Lemma send_upstream_fetch_raises w e w1 :
  is_upstream_project self = ok true ->
  is_upstream_indicated self = ok true ->
  get_approvals MultiJSON py_str self downstream w = (raise e, w1) ->
  send_upstream MultiJSON py_str self downstream upstream w = (raise e, w1).
Proof.
  intros Hp Hi Hg. unfold send_upstream, bind, lift. rewrite Hp. cbn [negb ok].
  rewrite Hi. cbn [negb ok]. rewrite Hg. reflexivity.
Qed.

Lemma send_upstream_evaluation_raises w approvals e w1 :
  is_upstream_project self = ok true ->
  is_upstream_indicated self = ok true ->
  get_approvals MultiJSON py_str self downstream w = (ok approvals, w1) ->
  is_upstream_approved self approvals = raise e ->
  send_upstream MultiJSON py_str self downstream upstream w = (raise e, w1).
Proof.
  intros Hp Hi Hg Ha. unfold send_upstream, bind, lift. rewrite Hp.
  cbn [negb ok]. rewrite Hi. cbn [negb ok]. rewrite Hg. cbn [ok].
  rewrite Ha. reflexivity.
Qed.

Lemma post_review_place ssh msg w :
  cwd (snd (post_review py_str self ssh msg w)) = cwd w /\
  dirs (snd (post_review py_str self ssh msg w)) = dirs w.
Proof.
  unfold post_review, exec_once, bind, lift, call, ret, throw.
  destruct (revision self) as [e|rev]; [split; reflexivity|].
  world_simpl. destruct (responses w 0%nat); split; reflexivity.
Qed.

End Place.


(** ** A failed download *)

Section FailedDownload.
Variable MultiJSON : string -> res (list json).
Variable py_str : json -> string.
Variable self : CommentAdded.
Variables downstream upstream : Remote.

(** A run whose download ends with a non-zero status: the inner [try]
    under the [finally] clause, told apart by whether the captured output
    can stand beside the revision. *)
Lemma send_upstream_download_failed w pj cid rev pid user name email
    status out :
  reaches_download MultiJSON py_str self downstream upstream
                   w pj cid rev pid user name email ->
  responses w 7%nat = Exit status out ->
  status <> 0 ->
  exists cmd,
    approvals_query py_str self = ok cmd /\
    let wd := after_download py_str downstream upstream w cmd user pj cid pid
                             name email in
    send_upstream MultiJSON py_str self downstream upstream w
    = match decode_beside rev out with
      | inl e => (inl e, after_rmtree (scratch_dir w) (after_chdir (cwd w) wd))
      | inr _ =>
          (match responses w 8%nat with
           | Exit _ _ => raise UnboundLocalError
           | Fail e => raise e
           end,
           after_rmtree (scratch_dir w)
             (after_chdir (cwd w)
                (after_call
                   (SshExec downstream
                      (review_cmd py_str (msg_failed (Some out)) rev)) wd)))
      end.
Proof.
  intros Hreach H7 Hstatus.
  destruct (send_upstream_at_download MultiJSON py_str self downstream upstream
              w pj cid rev pid user name email Hreach) as [cmd [Hq Hrun]].
  pose proof Hreach as [_ [Hpj [Hc [Hpid [Hrev [_ [Hnot [Hcwd [_ Hok]]]]]]]]].
  exists cmd. split; [exact Hq|]. intros wd. rewrite Hrun. clear Hrun.
  assert (Hdirs : dirs wd = {[scratch_dir w]}
                          ∪ (list_to_set (ancestors (scratch_dir w)) ∪ dirs w))
    by reflexivity.
  pose proof (download_failure_handled MultiJSON py_str self upstream
                downstream
                (after_setup py_str downstream upstream (scratch_dir w) user pj
                   (after_mkdir (scratch_dir w)
                      (after_call (Makedirs (scratch_dir w))
                         (after_call (SshExec downstream cmd) w))))
                email name cid pid rev status out Hc Hpid Hrev
                (Hok 5%nat ltac:(lia)) (Hok 6%nat ltac:(lia)) H7 Hstatus)
    as Hbody.
  change (download_answered py_str _ email name cid pid) with wd in Hbody.
  destruct (decode_beside rev out) as [e|[]].
  - rewrite (try_finally_cleanup_runs _ _ (cwd w) (scratch_dir w) _ _ Hbody).
    + reflexivity.
    + rewrite Hdirs. apply in_made_old. exact Hcwd.
    + rewrite Hdirs. apply in_made_self.
  - change (responses _ 3%nat) with (responses w 8%nat) in Hbody.
    rewrite (try_finally_cleanup_runs _ _ (cwd w) (scratch_dir w) _ _ Hbody).
    + reflexivity.
    + rewrite !dirs_after_call, Hdirs. apply in_made_old. exact Hcwd.
    + rewrite !dirs_after_call, Hdirs. apply in_made_self.
Qed.

End FailedDownload.


(** C7, where the code departs from it. When [git-review -d] ends with a
    non-zero status and its output holds a byte that is not ASCII, for an
    event whose revision is text, formatting the command of the review
    comment raises UnicodeDecodeError in the handler: no comment is posted.
    The calls are those up to the download and the clean-up; no upload is
    run and the scratch directory is removed. *)
Theorem download_failure_output_not_ascii
    (MultiJSON : string -> res (list json)) (py_str : json -> string)
    (self : CommentAdded) (downstream upstream : Remote) (w : World)
    (pj cid rev : json) (pid : Z) (user name email : string)
    (status : Z) (out : string) :
  reaches_download MultiJSON py_str self downstream upstream
                   w pj cid rev pid user name email ->
  responses w 7%nat = Exit status out ->
  status <> 0 ->
  is_text rev = true ->
  is_ascii out = false ->
  let run := send_upstream MultiJSON py_str self downstream upstream w in
  exists cmd,
    approvals_query py_str self = ok cmd /\
    trace (snd run)
    = (trace w
       ++ calls_to_download py_str downstream upstream w cmd user pj cid pid
            name email
       ++ cleanup_calls w)%list /\
    (scratch_dir w ∉ dirs (snd run)) /\
    fst run = raise UnicodeDecodeError.
Proof.
  intros Hreach H7 Hstatus Htext Hbytes run. subst run.
  destruct (send_upstream_download_failed MultiJSON py_str self downstream
              upstream w pj cid rev pid user name email status out
              Hreach H7 Hstatus) as [cmd [Hq Hrun]].
  exists cmd. split; [exact Hq|]. cbv zeta in Hrun. rewrite Hrun.
  rewrite (decode_beside_fails _ _ Htext Hbytes). cbn [raise fst snd].
  split_and!.
  - world_simpl. rewrite after_download_trace.
    unfold cleanup_calls. rewrite <- !app_assoc. reflexivity.
  - rewrite dirs_after_rmtree. apply not_elem_of_difference. right.
    apply elem_of_singleton. reflexivity.
  - reflexivity.
Qed.


(** * Further properties of the approval fetch *)

(** [int(patchset['number'])] and the items of [patchset['approvals']]. *)
Definition patchset_number (patchset : json) : res Z :=
  let? number := py_getitem patchset "number" in
  py_int number.

Definition patchset_approvals (patchset : json) : res (list json) :=
  let? a := py_getitem patchset "approvals" in
  py_iter a.

(** The approvals of the patch sets numbered [pid], in the order of the
    query output. *)
Fixpoint approvals_of_patchset (pid : Z) (patchsets : list json)
  : list Approval :=
  match patchsets with
  | [] => []
  | patchset :: rest =>
      match patchset_number patchset, patchset_approvals patchset with
      | inr n, inr items =>
          if n =? pid then (items ++ approvals_of_patchset pid rest)%list
          else approvals_of_patchset pid rest
      | _, _ => approvals_of_patchset pid rest
      end
  end.

(** A patch set the loop of [get_approvals] can read: it has an integer
    number, and a list of approvals when the number is [pid]. *)
Definition readable_patchset (pid : Z) (patchset : json) : Prop :=
  exists n, patchset_number patchset = ok n /\
    (n = pid -> exists items, patchset_approvals patchset = ok items).

Section Selection.
Variable MultiJSON : string -> res (list json).
Variable py_str : json -> string.
Variable self : CommentAdded.
Variable downstream : Remote.

Lemma collect_approvals_cons ps pss acc :
  collect_approvals self (ps :: pss) acc
  = match (let? n := patchset_number ps in
           let? pid := patchset_id self in
           ok (n =? pid)) with
    | inl e => (acc, inl e)
    | inr false => collect_approvals self pss acc
    | inr true =>
        match patchset_approvals ps with
        | inl e => (acc, inl e)
        | inr items => collect_approvals self pss (acc ++ items)
        end
    end.
Proof.
  cbn [collect_approvals]. unfold patchset_number, patchset_approvals.
  destruct (py_getitem ps "number") as [e|number]; [reflexivity|].
  reflexivity.
Qed.

Lemma collect_approvals_readable pid patchsets :
  patchset_id self = ok pid ->
  Forall (readable_patchset pid) patchsets ->
  forall acc,
    collect_approvals self patchsets acc
    = ((acc ++ approvals_of_patchset pid patchsets)%list, ok tt).
Proof.
  intros Hpid. induction 1 as [|ps pss [n [Hn Hitems]] _ IH]; intros acc.
  - simpl. rewrite app_nil_r. reflexivity.
  - rewrite collect_approvals_cons. cbn [approvals_of_patchset].
    rewrite Hn, Hpid. simpl.
    destruct (Z.eqb_spec n pid) as [Heq|Hne]; cbv beta iota.
    + destruct (Hitems Heq) as [items Hi]. rewrite Hi. cbn [ok].
      rewrite IH, app_assoc. reflexivity.
    + rewrite IH. destruct (patchset_approvals ps); reflexivity.
Qed.

Lemma collect_approvals_sound patchsets : forall acc a,
  a ∈ fst (collect_approvals self patchsets acc) ->
  a ∈ acc \/
  exists ps pid items,
    ps ∈ patchsets /\ patchset_number ps = ok pid /\
    patchset_id self = ok pid /\ patchset_approvals ps = ok items /\
    a ∈ items.
Proof.
  induction patchsets as [|ps pss IH]; intros acc a Ha; [left; exact Ha|].
  rewrite collect_approvals_cons in Ha.
  assert (Hrest : forall acc',
    a ∈ fst (collect_approvals self pss acc') ->
    a ∈ acc' \/
    exists ps0 pid items,
      ps0 ∈ ps :: pss /\ patchset_number ps0 = ok pid /\
      patchset_id self = ok pid /\ patchset_approvals ps0 = ok items /\
      a ∈ items).
  { intros acc' Hin. destruct (IH acc' a Hin) as [H|H]; [left; exact H|].
    right. destruct H as [ps0 [pid [items [Hps0 H]]]].
    exists ps0, pid, items. split; [right; exact Hps0|exact H]. }
  destruct (patchset_number ps) as [e|n] eqn:Hnum; [left; exact Ha|].
  simpl in Ha.
  destruct (patchset_id self) as [e|pid] eqn:Hpid; [left; exact Ha|].
  simpl in Ha. destruct (Z.eqb_spec n pid) as [Heq|Hne]; cbv beta iota in Ha.
  - destruct (patchset_approvals ps) as [e|items] eqn:Hitems;
      [left; exact Ha|].
    destruct (Hrest _ Ha) as [Hin|H]; [|right; exact H].
    apply elem_of_app in Hin as [Hin|Hin]; [left; exact Hin|].
    right. exists ps, pid, items. subst n.
    split; [left|]. repeat split; try reflexivity; assumption.
  - destruct (Hrest _ Ha) as [Hin|H]; [left; exact Hin|right; exact H].
Qed.

Lemma get_approvals_fst cmd w :
  approvals_query py_str self = ok cmd ->
  fst (get_approvals MultiJSON py_str self downstream w)
  = ok (match responses w 0%nat with
        | Exit retcode out => fst (parse_approvals MultiJSON self retcode out)
        | Fail _ => []
        end).
Proof.
  intros Hq. destruct (query_cmd_change_id _ _ _ _ Hq) as [c Hc].
  unfold approvals_query in Hq.
  unfold get_approvals, exec_once, bind, lift, call, ret, throw.
  rewrite Hq. world_simpl.
  destruct (responses w 0%nat) as [retcode out|e]; simpl.
  - destruct (parse_approvals MultiJSON self retcode out) as [found [e|[]]];
      simpl; [rewrite Hc|]; reflexivity.
  - rewrite Hc. reflexivity.
Qed.

Lemma parse_approvals_sound retcode out a :
  a ∈ fst (parse_approvals MultiJSON self retcode out) ->
  exists first rest field patchsets ps pid items,
    retcode = 0 /\
    MultiJSON out = ok (first :: rest) /\
    py_getitem first "patchSets" = ok field /\
    py_iter field = ok patchsets /\
    ps ∈ patchsets /\
    patchset_number ps = ok pid /\
    patchset_id self = ok pid /\
    patchset_approvals ps = ok items /\
    a ∈ items.
Proof.
  unfold parse_approvals.
  destruct (Z.eqb_spec retcode 0) as [->|Hne]; simpl;
    [|intros Ha; inversion Ha].
  destruct (MultiJSON out) as [e|[|first rest]] eqn:Hobjs; simpl;
    try (intros Ha; inversion Ha; fail).
  destruct (py_getitem first "patchSets") as [e|field] eqn:Hfield; simpl;
    [intros Ha; inversion Ha|].
  destruct (py_iter field) as [e|patchsets] eqn:Hiter; simpl;
    [intros Ha; inversion Ha|].
  pose proof (collect_approvals_sound patchsets [] a) as Hsound.
  destruct (collect_approvals self patchsets []) as [found [e|[]]];
    simpl in *; intros Ha;
    (destruct (Hsound Ha) as [Hnil|[ps [pid [items H]]]]; [inversion Hnil|]);
    exists first, rest, field, patchsets, ps, pid, items;
    (split; [reflexivity|]); (split; [reflexivity|]);
    (split; [exact Hfield|]); (split; [exact Hiter|]); exact H.
Qed.

End Selection.

(** X14. From a query output whose patch sets can be read,
    [get_approvals] returns exactly the approvals of the patch sets
    carrying the patch set number of the event, in the order of the
    output. *)
Theorem get_approvals_selects_patchset
    (MultiJSON : string -> res (list json)) (py_str : json -> string)
    (self : CommentAdded) (downstream : Remote) (w : World)
    (cmd out : string) (pid : Z) (first : json) (rest patchsets : list json) :
  approvals_query py_str self = ok cmd ->
  patchset_id self = ok pid ->
  responses w 0%nat = Exit 0 out ->
  MultiJSON out = ok (first :: rest) ->
  py_getitem first "patchSets" = ok (JList patchsets) ->
  Forall (readable_patchset pid) patchsets ->
  get_approvals MultiJSON py_str self downstream w
  = (ok (approvals_of_patchset pid patchsets),
     after_call (SshExec downstream cmd) w).
Proof.
  intros Hq Hpid Hr Hobjs Hps Hread.
  destruct (query_cmd_change_id _ _ _ _ Hq) as [c Hc].
  unfold approvals_query in Hq.
  unfold get_approvals, exec_once, bind, lift, call, ret, throw.
  rewrite Hq. world_simpl. rewrite Hr. unfold parse_approvals. simpl.
  rewrite Hobjs. simpl. rewrite Hps. simpl.
  rewrite (collect_approvals_readable self pid patchsets Hpid Hread []).
  rewrite Hc. reflexivity.
Qed.

(** X15. Whatever the query output is, every approval [get_approvals]
    returns is an approval of a patch set of the first object of the output
    whose number is the patch set number of the event: votes on other
    patch sets are never returned. *)
Theorem get_approvals_only_this_patchset
    (MultiJSON : string -> res (list json)) (py_str : json -> string)
    (self : CommentAdded) (downstream : Remote) (w : World)
    (approvals : list Approval) (a : Approval) :
  fst (get_approvals MultiJSON py_str self downstream w) = ok approvals ->
  a ∈ approvals ->
  exists out first rest field patchsets ps pid items,
    responses w 0%nat = Exit 0 out /\
    MultiJSON out = ok (first :: rest) /\
    py_getitem first "patchSets" = ok field /\
    py_iter field = ok patchsets /\
    ps ∈ patchsets /\
    patchset_number ps = ok pid /\
    patchset_id self = ok pid /\
    patchset_approvals ps = ok items /\
    a ∈ items.
Proof.
  intros Hg Ha.
  destruct (approvals_query py_str self) as [e|cmd] eqn:Hq.
  { unfold approvals_query in Hq. unfold get_approvals, bind, lift in Hg.
    rewrite Hq in Hg. discriminate Hg. }
  rewrite (get_approvals_fst MultiJSON py_str self downstream cmd w Hq) in Hg.
  injection Hg as <-.
  destruct (responses w 0%nat) as [retcode out|e]; [|inversion Ha].
  destruct (parse_approvals_sound MultiJSON self retcode out a Ha)
    as [first [rest [field [patchsets [ps [pid [items [-> H]]]]]]]].
  exists out, first, rest, field, patchsets, ps, pid, items.
  split; [reflexivity|]. exact H.
Qed.

(** * Scenarios for the further properties *)

Definition code_review_minus2 : Approval :=
  JDict {[ "type" := JStr "Code-Review"; "value" := JStr "-2" ]}.

Lemma votes_read_both :
  Forall2 reads_as [code_review_plus2; code_review_minus2]
          [("Code-Review", 2); ("Code-Review", -2)].
Proof. repeat constructor. Qed.

Lemma is_upstream_approved_order_independent_witness :
  is_upstream_approved demo_event [code_review_minus2; code_review_plus2]
  = is_upstream_approved demo_event [code_review_plus2; code_review_minus2].
Proof.
  apply (is_upstream_approved_order_independent demo_event (JStr "demo")
           [code_review_plus2; code_review_minus2]
           [code_review_minus2; code_review_plus2]
           [("Code-Review", 2); ("Code-Review", -2)]).
  - reflexivity.
  - exact votes_read_both.
  - apply perm_swap.
Defined.

Lemma is_upstream_approved_veto_witness :
  is_upstream_approved demo_event [code_review_plus2; code_review_minus2]
  = ok false.
Proof.
  apply (is_upstream_approved_veto demo_event (JStr "demo")
           [code_review_plus2; code_review_minus2]
           [("Code-Review", 2); ("Code-Review", -2)]
           "Code-Review" (mkLabel "Code-Review" (-2) 2 [])).
  - reflexivity.
  - exact votes_read_both.
  - reflexivity.
  - left. exists (-2). split; [right; left|simpl; lia].
Defined.

(** The answers up to the set-up of the repository. *)
Definition setup_ok : list response :=
  [Exit 0 "approved"; Exit 0 ""; Exit 0 ""; Exit 0 ""; Exit 0 ""; Exit 0 "";
   Exit 0 ""].

Lemma setup_ok_succeeded rest n :
  (2 <= n <= 6)%nat ->
  succeeded (responses (world_of (setup_ok ++ rest)) n).
Proof.
  intros Hn.
  assert (Hcases : (n = 2 \/ n = 3 \/ n = 4 \/ n = 5 \/ n = 6)%nat) by lia.
  destruct Hcases as [->|[->|[->|[->| ->]]]]; exists ""; reflexivity.
Qed.

Lemma demo_reaches_download rest :
  reaches_download canned_MultiJSON str_of_scalar demo_event gerrit_down
    gerrit_up (world_of (setup_ok ++ rest))
    (JStr "demo") (JStr "I42") (JStr "abc123") 3
    "mirror" "Gerrit Service" "service@example.org".
Proof.
  unfold reaches_download, passes_gates. split_and!.
  - exists [code_review_plus2]. split_and!; vm_compute; reflexivity.
  - reflexivity.
  - reflexivity.
  - reflexivity.
  - reflexivity.
  - reflexivity.
  - apply scratch_dir_is_new.
  - apply cwd_exists.
  - exists 0, "". reflexivity.
  - apply setup_ok_succeeded.
Qed.

(** An event like [demo_event] whose change has no topic. *)
Definition event_without_topic : CommentAdded :=
  mkCommentAdded
    {[ "comment" := JStr ready_comment;
       "change" := JDict (delete "topic" (change_of "demo"));
       "patchSet" := JDict {[ "number" := JStr "3";
                              "revision" := JStr "abc123" ]} ]}
    demo_conf.

Lemma without_topic_reaches_download rest :
  reaches_download canned_MultiJSON str_of_scalar event_without_topic
    gerrit_down gerrit_up (world_of (setup_ok ++ rest))
    (JStr "demo") (JStr "I42") (JStr "abc123") 3
    "mirror" "Gerrit Service" "service@example.org".
Proof.
  unfold reaches_download, passes_gates. split_and!.
  - exists [code_review_plus2]. split_and!; vm_compute; reflexivity.
  - reflexivity.
  - reflexivity.
  - reflexivity.
  - reflexivity.
  - reflexivity.
  - apply scratch_dir_is_new.
  - apply cwd_exists.
  - exists 0, "". reflexivity.
  - apply setup_ok_succeeded.
Qed.





Lemma rejection_posts_one_comment_witness :
  fst (send_upstream canned_MultiJSON str_of_scalar demo_event gerrit_down
         gerrit_up query_refused)
  = ok tt.
Proof.
  assert (Hp : is_upstream_project demo_event = ok true) by reflexivity.
  assert (Hi : is_upstream_indicated demo_event = ok true) by reflexivity.
  assert (Hg : fst (get_approvals canned_MultiJSON str_of_scalar demo_event
                      gerrit_down query_refused) = ok [])
    by (vm_compute; reflexivity).
  assert (Ha : is_upstream_approved demo_event [] = ok false)
    by (vm_compute; reflexivity).
  destruct (rejection_posts_one_comment canned_MultiJSON str_of_scalar
              demo_event gerrit_down gerrit_up query_refused []
              (JStr "abc123") Hp Hi Hg Ha eq_refl)
    as [cmd [_ [_ [_ [_ Hres]]]]].
  exact Hres.
Defined.

Lemma makedirs_failure_propagates_witness :
  fst (send_upstream canned_MultiJSON str_of_scalar demo_event gerrit_down
         gerrit_up (world_of [Exit 0 "approved"; Fail OSError]))
  = raise OSError.
Proof.
  assert (Hp : is_upstream_project demo_event = ok true) by reflexivity.
  assert (Hi : is_upstream_indicated demo_event = ok true) by reflexivity.
  assert (Hg : fst (get_approvals canned_MultiJSON str_of_scalar demo_event
                      gerrit_down (world_of [Exit 0 "approved"; Fail OSError]))
               = ok [code_review_plus2])
    by (vm_compute; reflexivity).
  assert (Ha : is_upstream_approved demo_event [code_review_plus2] = ok true)
    by (vm_compute; reflexivity).
  destruct (makedirs_failure_propagates canned_MultiJSON str_of_scalar
              demo_event gerrit_down gerrit_up
              (world_of [Exit 0 "approved"; Fail OSError])
              [code_review_plus2] OSError Hp Hi Hg Ha
              (scratch_dir_is_new _) eq_refl) as [cmd [_ [Hres _]]].
  exact Hres.
Defined.



(** The download fails with a message that holds the two bytes of an
    accented letter in UTF-8. *)
Definition not_ascii_output : string :=
  "fatal: caf" +:+ String (ascii_of_nat 195) (String (ascii_of_nat 169) "")
  +:+ " not found".

Definition download_fails_not_ascii : World :=
  world_of (setup_ok ++ [Exit 1 not_ascii_output]).

Lemma download_failure_output_not_ascii_witness :
  let run := send_upstream canned_MultiJSON str_of_scalar demo_event
               gerrit_down gerrit_up download_fails_not_ascii in
  exists cmd,
    approvals_query str_of_scalar demo_event = ok cmd /\
    trace (snd run)
    = (trace download_fails_not_ascii
       ++ calls_to_download str_of_scalar gerrit_down gerrit_up
            download_fails_not_ascii cmd "mirror" (JStr "demo") (JStr "I42") 3
            "Gerrit Service" "service@example.org"
       ++ cleanup_calls download_fails_not_ascii)%list /\
    (scratch_dir download_fails_not_ascii ∉ dirs (snd run)) /\
    fst run = raise UnicodeDecodeError.
Proof.
  assert (Hne : (1 : Z) <> 0) by discriminate.
  apply (download_failure_output_not_ascii canned_MultiJSON str_of_scalar
           demo_event gerrit_down gerrit_up download_fails_not_ascii
           (JStr "demo") (JStr "I42") (JStr "abc123") 3
           "mirror" "Gerrit Service" "service@example.org"
           1 not_ascii_output
           (demo_reaches_download [Exit 1 not_ascii_output])
           eq_refl Hne eq_refl eq_refl).
Defined.


Lemma patchset_3_readable : Forall (readable_patchset 3) [patchset_3].
Proof.
  constructor; [|constructor]. exists 3. split; [reflexivity|].
  intros _. exists [code_review_plus2]. reflexivity.
Qed.

Lemma get_approvals_selects_patchset_witness :
  get_approvals canned_MultiJSON str_of_scalar demo_event gerrit_down
    (world_of [Exit 0 "approved"])
  = (ok (approvals_of_patchset 3 [patchset_3]),
     after_call
       (SshExec gerrit_down
          "gerrit query change:I42 branch:master project:demo --all-approvals limit:1 --format JSON")
       (world_of [Exit 0 "approved"])).
Proof.
  apply (get_approvals_selects_patchset canned_MultiJSON str_of_scalar
           demo_event gerrit_down (world_of [Exit 0 "approved"])
           _ "approved" 3
           (JDict {[ "patchSets" := JList [patchset_3] ]}) [JDict ∅]
           [patchset_3]); try reflexivity.
  exact patchset_3_readable.
Defined.

Lemma get_approvals_only_this_patchset_witness :
  exists out first rest field patchsets ps pid items,
    responses (world_of [Exit 0 "approved"]) 0%nat = Exit 0 out /\
    canned_MultiJSON out = ok (first :: rest) /\
    py_getitem first "patchSets" = ok field /\
    py_iter field = ok patchsets /\
    ps ∈ patchsets /\
    patchset_number ps = ok pid /\
    patchset_id demo_event = ok pid /\
    patchset_approvals ps = ok items /\
    code_review_plus2 ∈ items.
Proof.
  apply (get_approvals_only_this_patchset canned_MultiJSON str_of_scalar
           demo_event gerrit_down (world_of [Exit 0 "approved"])
           [code_review_plus2] code_review_plus2).
  - vm_compute. reflexivity.
  - left.
Defined.

(** * Refs of a remote: [git.Ref], [git.push], [git.remote_refs] *)

Definition is_tab (c : ascii) : bool := Nat.eqb (nat_of_ascii c) 9.

Definition tab : string := String (ascii_of_nat 9) "".

(** [l[i]] on a list. *)
Definition list_getitem {A} (l : list A) (i : nat) : res A :=
  match nth_error l i with
  | Some x => ok x
  | None => raise IndexError
  end.

(** [s.split(tab)]: one more item than there are tabs in [s]. *)
Fixpoint split_tab (s : string) : list string :=
  match s with
  | "" => [""]
  | String c s' =>
      if is_tab c then "" :: split_tab s'
      else
        match split_tab s' with
        | t :: ts => String c t :: ts
        | [] => [String c ""]
        end
  end.

(** [git.Ref]: a line of [git ls-remote]. *)
Record Ref : Type := mkRef {
  Ref_hash : string;
  Ref_name : string
}.

(** [Ref.__str__]: the hash and the name joined by a tab. *)
Definition Ref_str (r : Ref) : string := Ref_hash r +:+ tab +:+ Ref_name r.

(** The lambda [s] of [remote_refs]: [line.rstrip().split(tab)[1]]. *)
Definition ref_of_line (line : string) : res string :=
  list_getitem (split_tab (rstrip line)) 1.

(** [map(f, lines)] of Python 2: the list of the results, or the first
    exception. *)
Fixpoint map_res {A B} (f : A -> res B) (l : list A) : res (list B) :=
  match l with
  | [] => ok []
  | x :: rest =>
      let? y := f x in
      let? ys := map_res f rest in
      ok (y :: ys)
  end.

(** [set(map(s, cmd.stdout))], the last line of [remote_refs], on the lines
    the command wrote. *)
Definition refs_of_output (lines : list string) : res (gset string) :=
  let? names := map_res ref_of_line lines in
  ok (list_to_set names).

(** [git.push]; [refspecs] is [None] or a list. *)
Definition push (remote : string) (all_ tags force : bool)
    (refspecs : option (list string)) : M unit :=
  let args := ["git"; "push"; remote] in
  let args := if all_ then (args ++ ["--all"])%list else args in
  let args := if tags then (args ++ ["--tags"])%list else args in
  let args := if force then (args ++ ["--force"])%list else args in
  let args :=
    match refspecs with
    | Some (r :: rs) => (args ++ r :: rs)%list
    | _ => args
    end in
  git_cmd (map JStr args).

(** [ref.startswith(prefix)]. *)
Definition startswith (ref prefix : string) : bool := String.prefix prefix ref.

(** The lambda [keep] of [Project._sync]. *)
Definition keep (heads_prefix tags_prefix ref : string) : bool :=
  negb (startswith ref heads_prefix) && negb (startswith ref tags_prefix).

(** The lambda [colonize] of [Project._sync]. *)
Definition colonize (ref : string) : string := ":" +:+ ref.

(** Lines 1359-1374 of [Project._sync]: the refspecs that delete what gerrit
    has and origin has not; [preserve_prefix] is a string or [None], and the
    refs of a set come in the order of [elements]. *)
Definition prune_refset (preserve_prefix : option string)
    (gerrit_refset origin_refset : gset string) : list string :=
  let prune := elements (gerrit_refset ∖ origin_refset) in
  let prune :=
    match preserve_prefix with
    | Some p =>
        if truthy (JStr p) then
          List.filter (keep ("refs/heads/" +:+ p) ("refs/tags/" +:+ p)) prune
        else prune
    | None => prune
    end in
  map colonize prune.

(** Lines 1359-1378 of [Project._sync]: the deleting push happens only when
    there is something to delete. *)
Definition prune (preserve_prefix : option string)
    (gerrit_refset origin_refset : gset string) : M unit :=
  match prune_refset preserve_prefix gerrit_refset origin_refset with
  | [] => ret tt
  | refspecs => push "gerrit" false false false (Some refspecs)
  end.

(** * Groups and users *)

(** A group or user dictionary whose values are strings or [None]. *)
Abbreviation fields := (gmap string (option string)).

(** [d.get(k, None)]. *)
Definition field (d : fields) (k : string) : option string :=
  match d !! k with
  | Some v => v
  | None => None
  end.

(** [if v:] for a string or [None]. *)
Definition given (v : option string) : bool :=
  match v with
  | Some s => truthy (JStr s)
  | None => false
  end.

(** [pipes.quote(v)]: [None] cannot be iterated. *)
Definition quote_field (v : option string) : res string :=
  match v with
  | Some s => ok (quote s)
  | None => raise TypeError
  end.

(** ["%s" % v] for a string or [None]. *)
Definition str_field (v : option string) : string := default "None" v.

Record Group : Type := mkGroup { Group_data : fields }.

(** [Group.__init__]. *)
Definition Group_init (data : fields) : res Group :=
  match data !! "name" with
  | Some _ => ok (mkGroup data)
  | None => raise (Exception_ "Groups must have a name.")
  end.

Definition Group_description (g : Group) : option string :=
  field (Group_data g) "description".
Definition Group_name (g : Group) : option string :=
  field (Group_data g) "name".
Definition Group_uuid (g : Group) : option string :=
  field (Group_data g) "uuid".
Definition Group_owner (g : Group) : option string :=
  field (Group_data g) "owner".
Definition Group_owner_uuid (g : Group) : option string :=
  field (Group_data g) "owner-uuid".

(** An option of a command line: [' --flag %s' % quote(v)] when [v] is
    given, nothing otherwise. *)
Definition flag (name : string) (v : option string) : string :=
  match v with
  | Some s => if truthy (JStr s) then " --" +:+ name +:+ " " +:+ quote s else ""
  | None => ""
  end.

Definition Group_get_ls (g : Group) : res string :=
  let? n := quote_field (Group_name g) in
  ok ("gerrit ls-groups -q " +:+ n +:+ " --verbose").

Definition Group_get_create (g : Group) : res string :=
  let description := flag "description" (Group_description g) in
  let owner := flag "owner" (Group_owner g) in
  let? n := quote_field (Group_name g) in
  ok ("gerrit create-group " +:+ n +:+ description +:+ owner).

(** [Group.exists(ssh)]. *)
Definition Group_exists (g : Group) (ssh : Remote) : M bool :=
  do cmd <- lift (Group_get_ls g);
  do r <- exec_once ssh cmd;
  ret (fst r =? 0).

(** [Group.present(remote)] for a well-formed remote: [None] when the group
    exists, else whether it could be created. *)
Definition Group_present (g : Group) (remote : Remote) : M (option bool) :=
  do e <- Group_exists g remote;
  if e then ret None
  else
    do cmd <- lift (Group_get_create g);
    do r <- exec_once remote cmd;
    ret (Some (fst r =? 0)).

(** A user dictionary: the entries that are strings or [None], and the
    entry [groups], a list of strings when present. *)
Record User : Type := mkUser {
  User_data : fields;
  User_groups_entry : option (list string)
}.

(** [User.__init__]. *)
Definition User_init (data : fields) (groups_entry : option (list string))
    : res User :=
  match data !! "username" with
  | Some _ => ok (mkUser data groups_entry)
  | None => raise (Exception_ "Users must have a name.")
  end.

Definition User_username (u : User) : option string :=
  field (User_data u) "username".
Definition User_ssh_key (u : User) : option string :=
  field (User_data u) "ssh-key".
Definition User_groups (u : User) : list string :=
  default [] (User_groups_entry u).
Definition User_full_name (u : User) : option string :=
  field (User_data u) "full-name".
Definition User_email (u : User) : option string :=
  field (User_data u) "email".

(** The body of the property [http_password] is its docstring alone: it
    returns [None]. *)
Definition User_http_password (u : User) : option string := None.

Definition User_get_create (u : User) : res string :=
  let ssh_key := flag "ssh-key" (User_ssh_key u) in
  let groups :=
    match User_groups u with
    | [] => ""
    | gs => " " +:+ String.concat " " (map (fun g => "--group " +:+ quote g) gs)
    end in
  let full_name := flag "full-name" (User_full_name u) in
  let email := flag "email" (User_email u) in
  let http_password := flag "http-password" (User_http_password u) in
  let? n := quote_field (User_username u) in
  ok ("gerrit create-account " +:+ ssh_key +:+ groups +:+ full_name +:+ email
      +:+ http_password +:+ " " +:+ n).

(** [User.present(remote)] for a well-formed remote. *)
Definition User_present (u : User) (remote : Remote) : M bool :=
  do cmd <- lift (User_get_create u);
  do r <- exec_once remote cmd;
  let '(retcode, out) := r in
  if retcode =? 0 then ret true
  else if (retcode =? 1) && contains "already exists" out then ret true
  else ret false.

(** [StringIO.readlines()]: the lines with their line feeds. *)
Fixpoint readlines (s : string) : list string :=
  match s with
  | "" => []
  | String c s' =>
      if is_lf c then String c "" :: readlines s'
      else
        match readlines s' with
        | [] => [String c ""]
        | l :: ls => String c l :: ls
        end
  end.

(** [re.split(r'\t+', s)] read from the left; [in_run] tells that the
    character before was a tab, so that a run of tabs separates once. *)
Fixpoint split_tabs (in_run : bool) (s : string) : list string :=
  match s with
  | "" => [""]
  | String c s' =>
      if is_tab c then
        if in_run then split_tabs true s' else "" :: split_tabs true s'
      else
        match split_tabs false s' with
        | t :: ts => String c t :: ts
        | [] => [String c ""]
        end
  end.

Definition re_split_tabs (s : string) : list string := split_tabs false s.

(** The body of the loop of [get_groups]. *)
Definition group_of_line (line : string) : res Group :=
  let tokens := re_split_tabs line in
  let five := Nat.eqb (length tokens) 5 in
  let? name_ := list_getitem tokens 0 in
  let? uuid_ := list_getitem tokens 1 in
  let? description :=
    if five then ok None
    else (let? t := list_getitem tokens 2 in ok (Some t)) in
  let? owner := list_getitem tokens (if five then 2 else 3)%nat in
  let? owner_uuid := list_getitem tokens (if five then 3 else 4)%nat in
  Group_init {[ "name" := Some name_;
                "uuid" := Some uuid_;
                "description" := description;
                "owner" := Some owner;
                "owner-uuid" := Some owner_uuid ]}.

(** The loop of [get_groups]: [groups] is appended to. *)
Fixpoint parse_groups (lines : list string) (groups : list Group)
    : res (list Group) :=
  match lines with
  | [] => ok groups
  | line :: rest =>
      let? g := group_of_line line in
      parse_groups rest (groups ++ [g])%list
  end.

Definition ls_groups : string := "gerrit ls-groups --verbose".

(** [get_groups(remote)] for a well-formed remote. *)
Definition get_groups (remote : Remote) : M (list Group) :=
  do r <- exec_once remote ls_groups;
  let '(retcode, out) := r in
  if negb (retcode =? 0) then ret []
  else lift (parse_groups (readlines out) []).

(** [groups_file_contents(groups)]. *)
Fixpoint groups_file_contents (groups : list Group) : string :=
  match groups with
  | [] => ""
  | g :: rest =>
      str_field (Group_uuid g) +:+ tab +:+ str_field (Group_name g) +:+ nl
      +:+ groups_file_contents rest
  end.

(** ** Reading the refs of a remote *)

Fixpoint no_tab (s : string) : bool :=
  match s with
  | "" => true
  | String c s' => negb (is_tab c) && no_tab s'
  end.

Fixpoint blank (s : string) : bool :=
  match s with
  | "" => true
  | String c s' => is_space c && blank s'
  end.

(** A ref as [git ls-remote] writes it: no tab in the hash nor in the name,
    and a name that is not empty and does not end with a blank. *)
Definition printable (r : Ref) : Prop :=
  no_tab (Ref_hash r) = true /\
  no_tab (Ref_name r) = true /\
  Ref_name r <> "" /\
  rstrip (Ref_name r) = Ref_name r.

Lemma rstrip_blank t : blank t = true -> rstrip t = "".
Proof.
  induction t as [|c t IH]; [reflexivity|]. cbn [blank rstrip].
  intros [Hc Ht]%andb_true_iff. rewrite (IH Ht), Hc. reflexivity.
Qed.

Lemma rstrip_app_blank s t : blank t = true -> rstrip (s +:+ t) = rstrip s.
Proof.
  intros Ht. induction s as [|c s IH].
  - apply rstrip_blank, Ht.
  - rewrite append_cons. cbn [rstrip]. rewrite IH. reflexivity.
Qed.

Lemma rstrip_app_kept s t : rstrip t <> "" -> rstrip (s +:+ t) = s +:+ rstrip t.
Proof.
  intros Ht. induction s as [|c s IH]; [reflexivity|].
  rewrite !append_cons. cbn [rstrip]. rewrite IH.
  destruct (s +:+ rstrip t) eqn:E; [|reflexivity].
  destruct s; [contradiction|discriminate].
Qed.

Lemma split_tab_no_tab s : no_tab s = true -> split_tab s = [s].
Proof.
  induction s as [|c s IH]; [reflexivity|]. cbn [no_tab split_tab].
  intros [Hc Hs]%andb_true_iff. apply negb_true_iff in Hc.
  rewrite Hc, (IH Hs). reflexivity.
Qed.

Lemma split_tab_app h s :
  no_tab h = true -> split_tab (h +:+ tab +:+ s) = h :: split_tab s.
Proof.
  induction h as [|c h IH]; [reflexivity|]. cbn [no_tab].
  intros [Hc Hh]%andb_true_iff. apply negb_true_iff in Hc.
  rewrite append_cons. cbn [split_tab]. rewrite Hc, (IH Hh). reflexivity.
Qed.

Lemma split_tab_length_no_tab s : no_tab s = true -> length (split_tab s) = 1%nat.
Proof. intros H. rewrite (split_tab_no_tab _ H). reflexivity. Qed.

Lemma ref_of_line_printed r :
  printable r -> ref_of_line (Ref_str r +:+ nl) = ok (Ref_name r).
Proof.
  intros [Hh [Hn [Hne Hr]]]. unfold ref_of_line, Ref_str.
  rewrite rstrip_app_blank by reflexivity.
  rewrite (rstrip_app_kept (Ref_hash r) (tab +:+ Ref_name r)).
  - change (rstrip (tab +:+ Ref_name r)) with (rstrip (String (ascii_of_nat 9) (Ref_name r))).
    cbn [rstrip]. rewrite Hr.
    destruct (Ref_name r) as [|c n] eqn:E; [contradiction|].
    change (String (ascii_of_nat 9) (String c n)) with (tab +:+ String c n).
    rewrite (split_tab_app _ _ Hh), (split_tab_no_tab _ Hn). reflexivity.
  - change (rstrip (tab +:+ Ref_name r)) with (rstrip (String (ascii_of_nat 9) (Ref_name r))).
    cbn [rstrip]. rewrite Hr.
    destruct (Ref_name r); [contradiction|discriminate].
Qed.

Lemma ref_of_line_without_tab line :
  no_tab (rstrip line) = true -> ref_of_line line = raise IndexError.
Proof.
  intros H. unfold ref_of_line. rewrite (split_tab_no_tab _ H). reflexivity.
Qed.

Lemma ref_of_line_raises line e : ref_of_line line = raise e -> e = IndexError.
Proof.
  unfold ref_of_line, list_getitem.
  destruct (nth_error _ _); intros H; [discriminate|]. by injection H.
Qed.

(** X16. Reading back what [Ref.__str__] prints: from the lines of refs
    whose hash and name hold no tab and whose name is not empty and does
    not end with a blank, [remote_refs] returns the set of their names. *)
Theorem remote_refs_reads_printed_refs (refs : list Ref) :
  Forall printable refs ->
  refs_of_output (map (fun r => Ref_str r +:+ nl) refs)
  = ok (list_to_set (map Ref_name refs)).
Proof.
  intros Hrefs. unfold refs_of_output.
  assert (Hmap : map_res ref_of_line (map (fun r => Ref_str r +:+ nl) refs)
                 = ok (map Ref_name refs)).
  { induction Hrefs as [|r refs Hr _ IH]; [reflexivity|].
    cbn [map map_res]. rewrite (ref_of_line_printed _ Hr). cbn [rbind ok].
    rewrite IH. reflexivity. }
  rewrite Hmap. reflexivity.
Qed.

(** X17. A line that holds no tab once its trailing blanks are removed (an
    empty line, or a hash followed by a tab alone) makes [remote_refs]
    raise IndexError, wherever the line stands in the output. *)
Theorem remote_refs_line_without_tab (lines : list string) :
  Exists (fun line => no_tab (rstrip line) = true) lines ->
  refs_of_output lines = raise IndexError.
Proof.
  intros Hex. unfold refs_of_output.
  assert (Hmap : map_res ref_of_line lines = raise IndexError).
  { induction Hex as [line rest Hline|line rest _ IH].
    - cbn [map_res]. rewrite (ref_of_line_without_tab _ Hline). reflexivity.
    - cbn [map_res]. destruct (ref_of_line line) as [e|name_] eqn:E.
      + rewrite (ref_of_line_raises _ _ E). reflexivity.
      + cbn [rbind]. rewrite IH. reflexivity. }
  rewrite Hmap. reflexivity.
Qed.

(** ** Pruning *)

Lemma push_refspecs r rs w :
  push "gerrit" false false false (Some (r :: rs)) w
  = (match responses w 0%nat with
     | Exit 0 _ => ok tt
     | Exit _ _ => raise (CalledProcessError None)
     | Fail e => raise e
     end,
     after_call (GitCmd ("git" :: "push" :: "gerrit" :: r :: rs)) w).
Proof.
  unfold push, git_cmd, bind, lift, call. cbn [app map].
  assert (Hargs : forall l, str_args (map JStr l) = ok l).
  { induction l as [|x l IH]; [reflexivity|]. cbn [map str_args].
    rewrite IH. reflexivity. }
  cbn [str_args]. rewrite Hargs. cbn [rbind ok].
  destruct (responses w 0%nat) as [[| |] ?|]; reflexivity.
Qed.

(** A ref the block deletes: gerrit has it, origin has not, and it does not
    start with a preserved prefix when one is configured. *)
Definition to_delete (preserve_prefix : option string)
    (gerrit_refset origin_refset : gset string) (ref : string) : Prop :=
  ref ∈ gerrit_refset /\ (ref ∉ origin_refset) /\
  forall p, preserve_prefix = Some p -> p <> "" ->
    startswith ref ("refs/heads/" +:+ p) = false /\
    startswith ref ("refs/tags/" +:+ p) = false.

Lemma elem_of_map {A B} (f : A -> B) (l : list A) (y : B) :
  y ∈ map f l <-> exists x, y = f x /\ x ∈ l.
Proof.
  rewrite list_elem_of_In, in_map_iff.
  split; intros [x [H1 H2]]; exists x;
    (split; [symmetry; exact H1 | apply list_elem_of_In; exact H2]).
Qed.

Lemma prune_refset_spec pp g o spec :
  spec ∈ prune_refset pp g o <->
  exists ref, spec = colonize ref /\ to_delete pp g o ref.
Proof.
  unfold prune_refset, to_delete. rewrite elem_of_map.
  assert (Hel : forall ref, ref ∈ elements (g ∖ o) <-> ref ∈ g /\ ref ∉ o).
  { intros ref. rewrite elem_of_elements, elem_of_difference. reflexivity. }
  assert (Hnone : forall ref,
             ref ∈ elements (g ∖ o) <->
             ref ∈ g /\ (ref ∉ o) /\
             forall p : string, None = Some p -> p <> "" ->
               startswith ref ("refs/heads/" +:+ p) = false /\
               startswith ref ("refs/tags/" +:+ p) = false).
  { intros ref. rewrite Hel. split.
    - intros [H1 H2]. split_and!; [exact H1|exact H2|discriminate].
    - intros [H1 [H2 _]]. split; assumption. }
  destruct pp as [p|].
  - cbn [truthy]. destruct (String.eqb p "") eqn:Ep; cbn [negb].
    + apply String.eqb_eq in Ep. subst p. split.
      * intros [ref [-> Hin]]. exists ref. split; [reflexivity|].
        apply Hel in Hin as [H1 H2]. split_and!; [exact H1|exact H2|].
        intros p Hp Hne. injection Hp as <-. contradiction.
      * intros [ref [-> [H1 [H2 _]]]]. exists ref. split; [reflexivity|].
        apply Hel. split; assumption.
    + apply String.eqb_neq in Ep. split.
      * intros [ref [-> Hin]]. exists ref. split; [reflexivity|].
        apply list_elem_of_In, filter_In in Hin as [Hin Hk].
        apply list_elem_of_In, Hel in Hin as [H1 H2].
        split_and!; [exact H1|exact H2|].
        intros q Hq _. injection Hq as <-.
        unfold keep in Hk. apply andb_true_iff in Hk as [Hk1 Hk2].
        apply negb_true_iff in Hk1, Hk2. split; assumption.
      * intros [ref [-> [H1 [H2 H3]]]]. exists ref. split; [reflexivity|].
        apply list_elem_of_In, filter_In. split.
        -- apply list_elem_of_In, Hel. split; assumption.
        -- destruct (H3 p eq_refl Ep) as [Hk1 Hk2].
           unfold keep. rewrite Hk1, Hk2. reflexivity.
  - split.
    + intros [ref [-> Hin]]. exists ref. split; [reflexivity|].
      apply Hnone, Hin.
    + intros [ref [-> Hd]]. exists ref. split; [reflexivity|].
      apply Hnone, Hd.
Qed.

(** X18. The pruning block of [Project._sync] makes at most one call, a
    [git push gerrit] of deleting refspecs: one [:ref] for each ref that
    gerrit has, origin has not, and that starts with neither preserved
    prefix when a prefix is configured, and no other refspec. It makes no
    call when there is no such ref. So it never deletes a ref of origin
    nor a preserved ref. *)
Theorem prune_deletes_only_stale_refs
    (preserve_prefix : option string) (gerrit_refset origin_refset : gset string)
    (w : World) :
  let run := prune preserve_prefix gerrit_refset origin_refset w in
  ((forall ref, ~ to_delete preserve_prefix gerrit_refset origin_refset ref) /\
   run = (ok tt, w))
  \/
  (exists refspecs,
     refspecs <> [] /\
     snd run = after_call (GitCmd ("git" :: "push" :: "gerrit" :: refspecs)) w /\
     forall spec,
       spec ∈ refspecs <->
       exists ref, spec = colonize ref /\
         to_delete preserve_prefix gerrit_refset origin_refset ref).
Proof.
  intros run. subst run. unfold prune.
  pose proof (prune_refset_spec preserve_prefix gerrit_refset origin_refset)
    as Hspec.
  destruct (prune_refset preserve_prefix gerrit_refset origin_refset)
    as [|r rs].
  - left. split; [|reflexivity]. intros ref Hd.
    assert (Hin : colonize ref ∈ @nil string).
    { apply Hspec. exists ref. split; [reflexivity|exact Hd]. }
    apply elem_of_nil in Hin. exact Hin.
  - right. exists (r :: rs). split; [discriminate|].
    rewrite push_refspecs. split; [reflexivity|]. exact Hspec.
Qed.

(** ** Groups *)

Lemma exec_once_run remote cmd w :
  exec_once remote cmd w
  = (match responses w 0%nat with
     | Exit retcode output => ok (retcode, output)
     | Fail e => raise e
     end,
     after_call (SshExec remote cmd) w).
Proof.
  unfold exec_once, bind, call, ret, throw.
  destruct (responses w 0%nat); reflexivity.
Qed.

Lemma Group_get_ls_named g n :
  Group_name g = Some n ->
  Group_get_ls g = ok ("gerrit ls-groups -q " +:+ quote n +:+ " --verbose").
Proof. intros H. unfold Group_get_ls. rewrite H. reflexivity. Qed.

Lemma Group_get_create_named g n :
  Group_name g = Some n ->
  Group_get_create g
  = ok ("gerrit create-group " +:+ quote n
        +:+ flag "description" (Group_description g)
        +:+ flag "owner" (Group_owner g)).
Proof. intros H. unfold Group_get_create. rewrite H. reflexivity. Qed.

(** X19. [Group.present] on a group whose name is a string. When the
    ls-groups query ends with status 0 the method makes no other call and
    returns None (not True); when it ends with another status the
    create-group command is the second and last call and the result is
    True exactly when that command ends with status 0; an exception of a
    call is raised to the caller. *)
Theorem Group_present_outcomes
    (g : Group) (remote : Remote) (w : World) (n : string) :
  Group_name g = Some n ->
  let run := Group_present g remote w in
  let ls :=
    SshExec remote ("gerrit ls-groups -q " +:+ quote n +:+ " --verbose") in
  let create :=
    SshExec remote
      ("gerrit create-group " +:+ quote n
       +:+ flag "description" (Group_description g)
       +:+ flag "owner" (Group_owner g)) in
  (forall out, responses w 0%nat = Exit 0 out ->
     fst run = ok None /\ trace (snd run) = (trace w ++ [ls])%list) /\
  (forall e, responses w 0%nat = Fail e ->
     fst run = raise e /\ trace (snd run) = (trace w ++ [ls])%list) /\
  (forall status out, responses w 0%nat = Exit status out -> status <> 0 ->
     trace (snd run) = (trace w ++ [ls; create])%list /\
     (forall status' out', responses w 1%nat = Exit status' out' ->
        fst run = ok (Some (status' =? 0))) /\
     (forall e, responses w 1%nat = Fail e -> fst run = raise e)).
Proof.
  intros Hn run ls create. subst run ls create.
  unfold Group_present, Group_exists, bind, lift, ret.
  rewrite (Group_get_ls_named _ _ Hn), (Group_get_create_named _ _ Hn).
  cbn [ok]. rewrite exec_once_run. split_and!.
  - intros out H0. rewrite H0. cbn [fst snd Z.eqb]. split; reflexivity.
  - intros e H0. rewrite H0. split; reflexivity.
  - intros status out H0 Hne. rewrite H0. cbn [fst snd ok].
    apply Z.eqb_neq in Hne. rewrite Hne. rewrite exec_once_run.
    world_simpl.
    destruct (responses w 1%nat) as [status' out'|e] eqn:H1; world_simpl.
    + split_and!.
      * rewrite <- app_assoc. reflexivity.
      * intros s o Heq. injection Heq as <- <-. reflexivity.
      * intros e Heq. discriminate Heq.
    + split_and!.
      * rewrite <- app_assoc. reflexivity.
      * intros s o Heq. discriminate Heq.
      * intros e' Heq. injection Heq as <-. reflexivity.
Qed.

(** X20. [Group.__init__] looks for the key only: a dictionary whose name
    is None is accepted, and [present] on that group raises TypeError (from
    [pipes.quote]) before any call is made. *)
Theorem Group_without_name_is_accepted (data : fields) :
  data !! "name" = Some None ->
  exists g,
    Group_init data = ok g /\
    forall remote w, Group_present g remote w = (raise TypeError, w).
Proof.
  intros H. exists (mkGroup data). split.
  - unfold Group_init. rewrite H. reflexivity.
  - intros remote w.
    unfold Group_present, Group_exists, bind, lift, Group_get_ls, Group_name,
      field. cbn [Group_data]. rewrite H. reflexivity.
Qed.

(** ** Users *)

(** X21. The command of [User.get_create] does not depend on the entry
    http-password of the user: the property [http_password] has no body
    and returns None, so the option is never written. *)
Theorem User_get_create_ignores_http_password
    (data : fields) (groups_entry : option (list string)) (v : option string) :
  User_get_create (mkUser (<["http-password" := v]> data) groups_entry)
  = User_get_create (mkUser data groups_entry).
Proof.
  unfold User_get_create, User_ssh_key, User_groups, User_full_name,
    User_email, User_username, User_http_password, field.
  cbn [User_data User_groups_entry].
  rewrite !lookup_insert_ne by discriminate. reflexivity.
Qed.

(** X22. [User.present] on a user whose command can be written makes one
    call, the create-account command, and returns True exactly when the
    command ends with status 0, or with status 1 and an output that holds
    the words already exists. *)
Theorem User_present_outcomes
    (u : User) (remote : Remote) (w : World) (cmd : string)
    (status : Z) (out : string) :
  User_get_create u = ok cmd ->
  responses w 0%nat = Exit status out ->
  exists b,
    User_present u remote w = (ok b, after_call (SshExec remote cmd) w) /\
    (b = true <->
     status = 0 \/ (status = 1 /\ substring_of "already exists" out)).
Proof.
  intros Hcmd H0. unfold User_present, bind, lift. rewrite Hcmd. cbn [ok].
  rewrite exec_once_run, H0. cbn [ok].
  destruct (status =? 0) eqn:E0.
  - exists true. split; [reflexivity|]. apply Z.eqb_eq in E0. tauto.
  - apply Z.eqb_neq in E0.
    destruct ((status =? 1) && contains "already exists" out) eqn:E1.
    + exists true. split; [reflexivity|].
      apply andb_true_iff in E1 as [E1 E2]. apply Z.eqb_eq in E1.
      apply contains_spec in E2. tauto.
    + exists false. split; [reflexivity|]. split; [discriminate|].
      intros [H|[H1 H2]]; [contradiction|].
      apply contains_spec in H2. apply Z.eqb_eq in H1.
      rewrite H1, H2 in E1. discriminate.
Qed.

(** ** The listing of the groups *)

Fixpoint no_lf (s : string) : bool :=
  match s with
  | "" => true
  | String c s' => negb (is_lf c) && no_lf s'
  end.

(** A column of the listing: it holds no tab and no line feed. *)
Definition column (s : string) : bool := no_tab s && no_lf s.

Definition filled (s : string) : bool := negb (String.eqb s "").

(** A row of [gerrit ls-groups --verbose]. *)
Record Row : Type := mkRow {
  row_name : string;
  row_uuid : string;
  row_description : string;
  row_owner : string;
  row_owner_uuid : string;
  row_visible : string
}.

(** Every column is free of tabs and line feeds, and all but the
    description and the last one are filled. *)
Definition well_formed (r : Row) : bool :=
  column (row_name r) && filled (row_name r) &&
  column (row_uuid r) && filled (row_uuid r) &&
  column (row_description r) &&
  column (row_owner r) && filled (row_owner r) &&
  column (row_owner_uuid r) && filled (row_owner_uuid r) &&
  column (row_visible r).

(** The columns of a row separated by tabs. *)
Definition row_text (r : Row) : string :=
  row_name r +:+ tab +:+ row_uuid r +:+ tab +:+ row_description r +:+ tab
  +:+ row_owner r +:+ tab +:+ row_owner_uuid r +:+ tab +:+ row_visible r.

(** The output of the command: one line for each row. *)
Fixpoint listing (rows : list Row) : string :=
  match rows with
  | [] => ""
  | r :: rest => row_text r +:+ nl +:+ listing rest
  end.

(** The text made of lines written one after the other. *)
Fixpoint lines_text (lines : list string) : string :=
  match lines with
  | [] => ""
  | line :: rest => line +:+ lines_text rest
  end.

(** The group [get_groups] is to read from a row. *)
Definition group_of_row (r : Row) : Group :=
  mkGroup {[ "name" := Some (row_name r);
             "uuid" := Some (row_uuid r);
             "description" :=
               if String.eqb (row_description r) "" then None
               else Some (row_description r);
             "owner" := Some (row_owner r);
             "owner-uuid" := Some (row_owner_uuid r) ]}.

(** A line with fewer than five columns. *)
Definition short (line : string) : Prop :=
  (length (re_split_tabs line) < 5)%nat.

Lemma string_app_assoc (a b c : string) : (a +:+ b) +:+ c = a +:+ b +:+ c.
Proof.
  induction a as [|x a IH]; [reflexivity|].
  rewrite !append_cons, IH. reflexivity.
Qed.

Lemma no_tab_app a b : no_tab (a +:+ b) = no_tab a && no_tab b.
Proof.
  induction a as [|x a IH]; [reflexivity|].
  rewrite append_cons. cbn [no_tab]. rewrite IH, andb_assoc. reflexivity.
Qed.

Lemma no_lf_app a b : no_lf (a +:+ b) = no_lf a && no_lf b.
Proof.
  induction a as [|x a IH]; [reflexivity|].
  rewrite append_cons. cbn [no_lf]. rewrite IH, andb_assoc. reflexivity.
Qed.

Lemma readlines_line body rest :
  no_lf body = true ->
  readlines (body +:+ nl +:+ rest) = (body +:+ nl) :: readlines rest.
Proof.
  induction body as [|c body IH]; [reflexivity|]. cbn [no_lf].
  intros [Hc Hb]%andb_true_iff. apply negb_true_iff in Hc.
  rewrite !append_cons. cbn [readlines]. rewrite Hc, (IH Hb). reflexivity.
Qed.

Lemma split_tabs_last b s :
  no_tab s = true -> s <> "" -> split_tabs b s = [s].
Proof.
  intros Hs Hne. revert b. induction s as [|c s IH]; [contradiction|].
  intros b. cbn [no_tab] in Hs. apply andb_true_iff in Hs as [Hc Hs].
  apply negb_true_iff in Hc. cbn [split_tabs]. rewrite Hc.
  destruct s as [|d s]; [reflexivity|].
  rewrite (IH Hs) by discriminate. reflexivity.
Qed.

Lemma split_tabs_next b h s :
  no_tab h = true -> h <> "" ->
  split_tabs b (h +:+ tab +:+ s) = h :: split_tabs true s.
Proof.
  intros Hh Hne. revert b. induction h as [|c h IH]; [contradiction|].
  intros b. cbn [no_tab] in Hh. apply andb_true_iff in Hh as [Hc Hh].
  apply negb_true_iff in Hc. rewrite append_cons. cbn [split_tabs]. rewrite Hc.
  destruct h as [|d h]; [reflexivity|].
  rewrite (IH Hh) by discriminate. reflexivity.
Qed.

Lemma split_tabs_run s : split_tabs true (tab +:+ s) = split_tabs true s.
Proof. reflexivity. Qed.

Lemma filled_ne s : filled s = true -> s <> "".
Proof.
  unfold filled. intros H ->. discriminate H.
Qed.

Lemma tokens_of_row r :
  well_formed r = true ->
  re_split_tabs (row_text r +:+ nl)
  = if String.eqb (row_description r) "" then
      [row_name r; row_uuid r; row_owner r; row_owner_uuid r;
       row_visible r +:+ nl]
    else
      [row_name r; row_uuid r; row_description r; row_owner r;
       row_owner_uuid r; row_visible r +:+ nl].
Proof.
  unfold well_formed, column. rewrite !andb_true_iff.
  intros [[[[[[[[[[Hn _] Hn'] [Hu _]] Hu'] [Hd _]] [Ho _]] Ho'] [Hw _]] Hw']
            [Hv _]].
  apply filled_ne in Hn', Hu', Ho', Hw'.
  unfold re_split_tabs, row_text. rewrite !string_app_assoc.
  rewrite (split_tabs_next _ _ _ Hn Hn'), (split_tabs_next _ _ _ Hu Hu').
  assert (Hlast : split_tabs true (row_visible r +:+ nl) = [row_visible r +:+ nl]).
  { apply split_tabs_last.
    - rewrite no_tab_app, Hv. reflexivity.
    - destruct (row_visible r); discriminate. }
  destruct (String.eqb (row_description r) "") eqn:Ed.
  - apply String.eqb_eq in Ed. rewrite Ed.
    change ("" +:+ tab +:+ ?x) with (tab +:+ x). rewrite split_tabs_run.
    rewrite (split_tabs_next _ _ _ Ho Ho'), (split_tabs_next _ _ _ Hw Hw'), Hlast.
    reflexivity.
  - apply String.eqb_neq in Ed.
    rewrite (split_tabs_next _ _ _ Hd Ed).
    rewrite (split_tabs_next _ _ _ Ho Ho'), (split_tabs_next _ _ _ Hw Hw'), Hlast.
    reflexivity.
Qed.

Lemma group_of_line_row r :
  well_formed r = true -> group_of_line (row_text r +:+ nl) = ok (group_of_row r).
Proof.
  intros Hr. unfold group_of_line. rewrite (tokens_of_row _ Hr).
  unfold group_of_row. destruct (String.eqb (row_description r) ""); reflexivity.
Qed.

Lemma row_text_no_lf r : well_formed r = true -> no_lf (row_text r) = true.
Proof.
  unfold well_formed, column. rewrite !andb_true_iff.
  intros [[[[[[[[[[_ Hn] _] [_ Hu]] _] [_ Hd]] [_ Ho]] _] [_ Hw]] _]
            [_ Hv]].
  unfold row_text. rewrite !no_lf_app, Hn, Hu, Hd, Ho, Hw, Hv. reflexivity.
Qed.

Lemma readlines_listing rows :
  Forall (fun r => well_formed r = true) rows ->
  readlines (listing rows) = map (fun r => row_text r +:+ nl) rows.
Proof.
  induction 1 as [|r rows Hr _ IH]; [reflexivity|].
  cbn [listing map]. rewrite (readlines_line _ _ (row_text_no_lf _ Hr)), IH.
  reflexivity.
Qed.

Lemma parse_groups_rows rows : forall acc,
  Forall (fun r => well_formed r = true) rows ->
  parse_groups (map (fun r => row_text r +:+ nl) rows) acc
  = ok (acc ++ map group_of_row rows)%list.
Proof.
  induction rows as [|r rows IH]; intros acc Hrows.
  - cbn [map parse_groups]. rewrite app_nil_r. reflexivity.
  - apply Forall_cons in Hrows as [Hr Hrows].
    cbn [map parse_groups]. rewrite (group_of_line_row _ Hr). cbn [rbind ok].
    rewrite (IH _ Hrows), <- app_assoc. reflexivity.
Qed.

Lemma get_groups_run remote w :
  get_groups remote w
  = (match responses w 0%nat with
     | Exit retcode out =>
         if negb (retcode =? 0) then ok []
         else parse_groups (readlines out) []
     | Fail e => raise e
     end,
     after_call (SshExec remote ls_groups) w).
Proof.
  unfold get_groups, bind, lift, ret. rewrite exec_once_run.
  destruct (responses w 0%nat) as [retcode out|e]; [|reflexivity].
  cbn [ok]. destruct (negb (retcode =? 0)); reflexivity.
Qed.

Lemma group_of_line_raises line e : group_of_line line = raise e -> e = IndexError.
Proof.
  unfold group_of_line, list_getitem, Group_init.
  destruct (nth_error (re_split_tabs line) 0); [|intros H; by injection H].
  destruct (nth_error (re_split_tabs line) 1); [|intros H; by injection H].
  cbn [rbind ok].
  destruct (Nat.eqb (length (re_split_tabs line)) 5).
  - cbn [rbind ok].
    destruct (nth_error (re_split_tabs line) 2); [|intros H; by injection H].
    destruct (nth_error (re_split_tabs line) 3); [|intros H; by injection H].
    cbn [rbind ok]. rewrite lookup_insert_eq. discriminate.
  - destruct (nth_error (re_split_tabs line) 2); [|intros H; by injection H].
    cbn [rbind ok].
    destruct (nth_error (re_split_tabs line) 3); [|intros H; by injection H].
    destruct (nth_error (re_split_tabs line) 4); [|intros H; by injection H].
    cbn [rbind ok]. rewrite lookup_insert_eq. discriminate.
Qed.

Lemma group_of_line_short line : short line -> group_of_line line = raise IndexError.
Proof.
  unfold short. intros Hlen.
  destruct (group_of_line line) as [e|g] eqn:E.
  - rewrite (group_of_line_raises _ _ E). reflexivity.
  - exfalso. revert E. unfold group_of_line, list_getitem.
    destruct (Nat.eqb (length (re_split_tabs line)) 5) eqn:E5.
    + apply Nat.eqb_eq in E5. lia.
    + destruct (nth_error (re_split_tabs line) 4) eqn:E4.
      * assert (H4 : (4 < length (re_split_tabs line))%nat)
          by (apply nth_error_Some; rewrite E4; discriminate).
        lia.
      * destruct (nth_error (re_split_tabs line) 0); [|discriminate].
        destruct (nth_error (re_split_tabs line) 1); [|discriminate].
        destruct (nth_error (re_split_tabs line) 2); [|discriminate].
        destruct (nth_error (re_split_tabs line) 3); discriminate.
Qed.

Lemma parse_groups_short lines : forall acc,
  Exists short lines -> parse_groups lines acc = raise IndexError.
Proof.
  induction lines as [|line rest IH]; intros acc Hex.
  - apply Exists_nil in Hex. contradiction.
  - cbn [parse_groups]. apply Exists_cons in Hex as [Hline|Hrest].
    + rewrite (group_of_line_short _ Hline). reflexivity.
    + destruct (group_of_line line) as [e|g] eqn:E.
      * rewrite (group_of_line_raises _ _ E). reflexivity.
      * cbn [rbind]. apply IH, Hrest.
Qed.

(** X23. [get_groups] makes one call, the ls-groups command. A status
    other than 0 gives the empty list. With status 0, a line of the output
    with fewer than five columns (an empty line for one) makes it raise
    IndexError, wherever the line stands. *)
Theorem get_groups_outcomes
    (remote : Remote) (w : World) (status : Z) (out : string) :
  responses w 0%nat = Exit status out ->
  let run := get_groups remote w in
  snd run = after_call (SshExec remote "gerrit ls-groups --verbose") w /\
  (status <> 0 -> fst run = ok []) /\
  (status = 0 -> Exists short (readlines out) -> fst run = raise IndexError).
Proof.
  intros H0 run. subst run. rewrite get_groups_run, H0. cbn [fst snd].
  split_and!.
  - reflexivity.
  - intros Hne. apply Z.eqb_neq in Hne. rewrite Hne. reflexivity.
  - intros -> Hex. cbn [Z.eqb negb]. apply parse_groups_short, Hex.
Qed.

(** X24. [get_groups] reads the listing gerrit writes: from the lines of
    well-formed rows it returns one group per row, in the order of the
    rows, with the name, the uuid, the owner and the owner's uuid of the
    row, and with the description of the row, or None when the row has an
    empty description. *)
Theorem get_groups_reads_listing
    (remote : Remote) (w : World) (rows : list Row) :
  Forall (fun r => well_formed r = true) rows ->
  responses w 0%nat = Exit 0 (listing rows) ->
  fst (get_groups remote w) = ok (map group_of_row rows).
Proof.
  intros Hrows H0. rewrite get_groups_run, H0. cbn [fst Z.eqb negb].
  rewrite (readlines_listing _ Hrows). apply (parse_groups_rows rows [] Hrows).
Qed.

Lemma groups_file_contents_rows rows :
  groups_file_contents (map group_of_row rows)
  = lines_text (map (fun r => row_uuid r +:+ tab +:+ row_name r +:+ nl) rows).
Proof.
  induction rows as [|r rows IH]; [reflexivity|].
  cbn [map groups_file_contents]. rewrite IH.
  assert (Hu : Group_uuid (group_of_row r) = Some (row_uuid r)).
  { unfold Group_uuid, field, group_of_row. cbn [Group_data].
    rewrite lookup_insert_ne by discriminate. rewrite lookup_insert_eq.
    reflexivity. }
  assert (Hn : Group_name (group_of_row r) = Some (row_name r)).
  { unfold Group_name, field, group_of_row. cbn [Group_data].
    rewrite lookup_insert_eq. reflexivity. }
  rewrite Hu, Hn. cbn [str_field default id lines_text].
  rewrite !string_app_assoc. reflexivity.
Qed.

(** X25. The groups file made from the listing: [groups_file_contents] of
    what [get_groups] reads from the lines of well-formed rows is, line by
    line and in the same order, the uuid of the row, a tab, the name of
    the row and a line feed. *)
Theorem groups_file_of_listing
    (remote : Remote) (w : World) (rows : list Row) :
  Forall (fun r => well_formed r = true) rows ->
  responses w 0%nat = Exit 0 (listing rows) ->
  (let? groups := fst (get_groups remote w) in
   ok (groups_file_contents groups))
  = ok (lines_text
          (map (fun r => row_uuid r +:+ tab +:+ row_name r +:+ nl) rows)).
Proof.
  intros Hrows H0. rewrite get_groups_run, H0. cbn [fst Z.eqb negb].
  rewrite (readlines_listing _ Hrows), (parse_groups_rows rows [] Hrows).
  cbn [app rbind ok]. rewrite groups_file_contents_rows. reflexivity.
Qed.

(** ** Scenarios for the refs, the groups and the users *)

Definition master_ref : Ref := mkRef "9fceb02d0ae598e9" "refs/heads/master".
Definition release_tag : Ref := mkRef "1a2b3c4d5e6f7a8b" "refs/tags/v1.0".

Lemma remote_refs_reads_printed_refs_witness :
  refs_of_output [Ref_str master_ref +:+ nl; Ref_str release_tag +:+ nl]
  = ok {[ "refs/heads/master"; "refs/tags/v1.0" ]}.
Proof.
  assert (Hrefs : Forall printable [master_ref; release_tag]).
  { repeat constructor; discriminate. }
  exact (remote_refs_reads_printed_refs [master_ref; release_tag] Hrefs).
Defined.

Lemma remote_refs_line_without_tab_witness :
  refs_of_output [Ref_str master_ref +:+ nl; nl] = raise IndexError.
Proof.
  apply (remote_refs_line_without_tab [Ref_str master_ref +:+ nl; nl]).
  right. left. reflexivity.
Defined.

Definition release_managers : Group :=
  mkGroup {[ "name" := Some "release managers";
             "description" := Some "May submit to stable branches" ]}.

Lemma Group_present_outcomes_witness :
  fst (Group_present release_managers gerrit_down
         (world_of [Exit 0 "release managers"]))
  = ok None.
Proof.
  destruct (Group_present_outcomes release_managers gerrit_down
              (world_of [Exit 0 "release managers"]) "release managers"
              eq_refl) as [Hexists _].
  exact (proj1 (Hexists "release managers" eq_refl)).
Defined.

Lemma Group_without_name_is_accepted_witness :
  exists g,
    Group_init {[ "name" := None ]} = ok g /\
    forall remote w, Group_present g remote w = (raise TypeError, w).
Proof.
  apply (Group_without_name_is_accepted {[ "name" := None ]}).
  reflexivity.
Defined.

Definition jenkins : User :=
  mkUser {[ "username" := Some "jenkins";
            "email" := Some "jenkins@example.org" ]}
         (Some ["Non-Interactive Users"]).

Lemma User_present_outcomes_witness :
  fst (User_present jenkins gerrit_down
         (world_of [Exit 1 "fatal: username already exists"]))
  = ok true.
Proof.
  assert (Hcmd : exists cmd, User_get_create jenkins = ok cmd)
    by (eexists; vm_compute; reflexivity).
  destruct Hcmd as [cmd Hcmd].
  destruct (User_present_outcomes jenkins gerrit_down
              (world_of [Exit 1 "fatal: username already exists"]) cmd
              1 "fatal: username already exists" Hcmd eq_refl)
    as [b [Hrun Hb]].
  rewrite Hrun. cbn [fst]. f_equal. apply Hb. right.
  split; [reflexivity|]. exists "fatal: username ", "". reflexivity.
Defined.

Lemma get_groups_outcomes_witness :
  fst (get_groups gerrit_down (world_of [Exit 0 nl])) = raise IndexError.
Proof.
  destruct (get_groups_outcomes gerrit_down (world_of [Exit 0 nl]) 0 nl
              eq_refl) as [_ [_ Hshort]].
  apply Hshort; [reflexivity|]. left. unfold short. vm_compute. lia.
Defined.

Definition administrators : Row :=
  mkRow "Administrators" "d5b7124af4de52924ed397913e2c3b37bf186948"
        "Gerrit Site Administrators" "Administrators"
        "d5b7124af4de52924ed397913e2c3b37bf186948" "false".

(** A row without description. *)
Definition release : Row :=
  mkRow "Release" "834ec36dd5e0ed21a2ff5d7e2255da082d63bbd7" ""
        "Administrators" "d5b7124af4de52924ed397913e2c3b37bf186948" "true".

Lemma rows_well_formed :
  Forall (fun r => well_formed r = true) [administrators; release].
Proof. repeat constructor. Qed.

Lemma get_groups_reads_listing_witness :
  fst (get_groups gerrit_down
         (world_of [Exit 0 (listing [administrators; release])]))
  = ok [group_of_row administrators; group_of_row release].
Proof.
  apply (get_groups_reads_listing gerrit_down
           (world_of [Exit 0 (listing [administrators; release])])
           [administrators; release]).
  - exact rows_well_formed.
  - reflexivity.
Defined.

Lemma groups_file_of_listing_witness :
  (let? groups :=
     fst (get_groups gerrit_down
            (world_of [Exit 0 (listing [administrators; release])])) in
   ok (groups_file_contents groups))
  = ok (lines_text
          [row_uuid administrators +:+ tab +:+ "Administrators" +:+ nl;
           row_uuid release +:+ tab +:+ "Release" +:+ nl]).
Proof.
  apply (groups_file_of_listing gerrit_down
           (world_of [Exit 0 (listing [administrators; release])])
           [administrators; release]).
  - exact rows_well_formed.
  - reflexivity.
Defined.
